(** * Regen compute credits: order selection, attribution, retirement,
      identity tags, webhook receiver, subscription sync and auth recovery.

    A shallow embedding of the TypeScript services of the repository and the
    properties of their specification.  BigInt values are [Z] with the
    truncating division of the language ([Z.quot], [Z.rem]); strings that only
    carry identifiers and decimal numerals are [string]; the text of
    retirement reasons is a list of Unicode code points; failing calls return
    a sum whose left side is the exception. *)

From Stdlib Require Import ZArith List String Ascii Bool Lia Permutation.
From Stdlib Require Import Floats Uint63 Sorted.
Import ListNotations.

Local Open Scope string_scope.
Local Open Scope list_scope.
Local Open Scope Z_scope.

Set Implicit Arguments.

(** ** Exceptions and results *)

Inductive Exn : Type :=
| Error (message : string)
| SyntaxError
| RangeError
| TypeError.

Definition Result (A : Type) : Type := (Exn + A)%type.

Definition ok {A} (a : A) : Result A := inr a.
Definition throw {A} (e : Exn) : Result A := inl e.

Definition bindR {A B} (r : Result A) (k : A -> Result B) : Result B :=
  match r with
  | inl e => inl e
  | inr a => k a
  end.

Notation "'do' x <- r ;; k" := (bindR r (fun x => k))
  (at level 10, x name, r at level 100, k at level 200).

(** ** The fragment of the JavaScript runtime the services rely on *)

Module Js.

(** White space of [String.prototype.trim] within ASCII. *)
Definition isWhiteSpace (c : ascii) : bool :=
  let n := nat_of_ascii c in
  (((9 <=? n) && (n <=? 13)) || (n =? 32))%nat.

Fixpoint trimStart (s : string) : string :=
  match s with
  | EmptyString => EmptyString
  | String c r => if isWhiteSpace c then trimStart r else s
  end.

Fixpoint trimEnd (s : string) : string :=
  match s with
  | EmptyString => EmptyString
  | String c r =>
      match trimEnd r with
      | EmptyString => if isWhiteSpace c then EmptyString else String c EmptyString
      | r' => String c r'
      end
  end.

Definition trim (s : string) : string := trimEnd (trimStart s).

Definition isEmpty (s : string) : bool :=
  match s with EmptyString => true | _ => false end.

(** [a || b] on strings: the empty string is falsy. *)
Definition orElse (a b : string) : string := if isEmpty a then b else a.

(** *** Decimal numerals *)

Definition digitChar (d : Z) : ascii := ascii_of_nat (48 + Z.to_nat d).

Definition digitVal (c : ascii) : option Z :=
  let n := Z.of_nat (nat_of_ascii c) in
  if (48 <=? n) && (n <=? 57) then Some (n - 48) else None.

(** Least significant digit first; [fuel] bounds the number of digits. *)
Fixpoint lsdDigits (fuel : nat) (n : Z) : list Z :=
  match fuel with
  | O => [n mod 10]
  | S f => if n <? 10 then [n] else (n mod 10) :: lsdDigits f (n / 10)
  end.

Fixpoint stringOfDigits (ds : list Z) : string :=
  match ds with
  | [] => EmptyString
  | d :: r => String (digitChar d) (stringOfDigits r)
  end.

Definition natToString (n : Z) : string :=
  stringOfDigits (rev (lsdDigits (Z.to_nat (Z.log2 n) + 1) n)).

(** [BigInt.prototype.toString()]. *)
Definition toString (z : Z) : string :=
  if z <? 0 then String "-" (natToString (- z)) else natToString z.

Fixpoint parseDigits (s : string) (acc : Z) : option Z :=
  match s with
  | EmptyString => Some acc
  | String c r =>
      match digitVal c with
      | Some d => parseDigits r (10 * acc + d)
      | None => None
      end
  end.

Definition parseNumeral (s : string) : option Z :=
  match s with
  | EmptyString => None
  | _ => parseDigits s 0
  end.

(** [BigInt(s)] on a string, for decimal literals: surrounding white space is
    dropped, the empty string is [0n], a sign may precede the digits.  Any
    other text raises a SyntaxError (the radix prefixes [0x], [0o], [0b] are
    outside this fragment and are not produced by the services). *)
Definition BigInt (s : string) : Result Z :=
  match trim s with
  | EmptyString => ok 0
  | String "-" r =>
      match parseNumeral r with Some v => ok (- v) | None => throw SyntaxError end
  | String "+" r =>
      match parseNumeral r with Some v => ok v | None => throw SyntaxError end
  | t => match parseNumeral t with Some v => ok v | None => throw SyntaxError end
  end.

Fixpoint repeatChar (n : nat) (c : ascii) : string :=
  match n with
  | O => EmptyString
  | S k => String c (repeatChar k c)
  end.

(** [s.padStart(n, c)] and [s.padEnd(n, c)] for a one-character filler. *)
Definition padStart (n : nat) (c : ascii) (s : string) : string :=
  String.append (repeatChar (n - String.length s) c) s.

Definition padEnd (n : nat) (c : ascii) (s : string) : string :=
  String.append s (repeatChar (n - String.length s) c).

(** [s.slice(0, n)]. *)
Definition sliceTo (n : nat) (s : string) : string := substring 0 n s.

(** [s.split(sep)] for a one-character separator. *)
Fixpoint split (sep : ascii) (s : string) : list string :=
  match s with
  | EmptyString => [EmptyString]
  | String c r =>
      if Ascii.eqb c sep then EmptyString :: split sep r
      else
        match split sep r with
        | [] => [String c EmptyString]
        | h :: t => String c h :: t
        end
  end.

(** Stable sorting with a comparator that answers a negative number, zero or a
    positive number, as [Array.prototype.sort] does. *)
Section Sort.
Variable A : Type.
Variable cmp : A -> A -> Z.

Fixpoint insertSorted (x : A) (l : list A) : list A :=
  match l with
  | [] => [x]
  | y :: r => if cmp x y <=? 0 then x :: y :: r else y :: insertSorted x r
  end.

Definition sort (l : list A) : list A := fold_right insertSorted [] l.
End Sort.

(** [l.map((item, index) => f(item, index))]. *)
Fixpoint mapiFrom (A B : Type) (f : A -> nat -> B) (start : nat) (l : list A)
    : list B :=
  match l with
  | [] => []
  | a :: r => f a start :: mapiFrom f (S start) r
  end.

Definition mapi (A B : Type) (f : A -> nat -> B) (l : list A) : list B :=
  mapiFrom f 0 l.

(** [l.reduce((acc, item) => acc + item, 0n)]. *)
Definition sum (l : list Z) : Z := fold_left Z.add l 0.

(** [l[i] = v] for an index inside the array. *)
Fixpoint setAt (i : nat) (v : Z) (l : list Z) : list Z :=
  match l, i with
  | [], _ => []
  | _ :: r, O => v :: r
  | x :: r, S k => x :: setAt k v r
  end.

(** Mapping with a function that may raise: the first exception wins. *)
Fixpoint mapR (A B : Type) (f : A -> Result B) (l : list A) : Result (list B) :=
  match l with
  | [] => ok []
  | a :: r =>
      do b <- f a ;;
      do r' <- mapR f r ;;
      ok (b :: r')
  end.

(** Value of a finite binary64 number rounded down to an integer;
    [None] for infinities and NaN, on which [BigInt(Math.floor(x))] raises. *)
Definition floorFloat (f : float) : option Z :=
  match Prim2SF f with
  | S754_zero _ => Some 0
  | S754_finite sign m e =>
      let mag_floor := if 0 <=? e then Z.shiftl (Zpos m) e
                       else Z.shiftr (Zpos m) (- e) in
      let exact := if 0 <=? e then true
                   else Z.land (Zpos m) (Z.ones (- e)) =? 0 in
      Some (if sign then (if exact then - mag_floor else - mag_floor - 1)
            else mag_floor)
  | _ => None
  end.

Definition isFinite (f : float) : bool :=
  match Prim2SF f with
  | S754_zero _ | S754_finite _ _ _ => true
  | _ => false
  end.

(** [BigInt(x)] on a Number: a RangeError unless [x] is an integer. *)
Definition bigIntOfFloat (f : float) : Result Z :=
  match Prim2SF f with
  | S754_zero _ => ok 0
  | S754_finite sign m e =>
      if 0 <=? e
      then ok (if sign then - Z.shiftl (Zpos m) e else Z.shiftl (Zpos m) e)
      else if Z.land (Zpos m) (Z.ones (- e)) =? 0
      then ok (if sign then - Z.shiftr (Zpos m) (- e)
               else Z.shiftr (Zpos m) (- e))
      else throw RangeError
  | _ => throw RangeError
  end.

(** BigInt division: truncating, a RangeError on a zero divisor. *)
Definition bigDiv (a b : Z) : Result Z :=
  if b =? 0 then throw RangeError else ok (Z.quot a b).

Definition bigRem (a b : Z) : Result Z :=
  if b =? 0 then throw RangeError else ok (Z.rem a b).

(** [s.replace(/0+$/, "")]. *)
Fixpoint stripTrailingZeros (s : string) : string :=
  match s with
  | EmptyString => EmptyString
  | String c r =>
      match stripTrailingZeros r with
      | EmptyString =>
          if Ascii.eqb c "0" then EmptyString else String c EmptyString
      | r' => String c r'
      end
  end.

(** Truthiness of an optional string: absent and empty are falsy. *)
Definition truthy (o : option string) : bool :=
  match o with
  | Some s => negb (isEmpty s)
  | None => false
  end.

(** [o || d] for an optional string and a default. *)
Definition orDefault (o : option string) (d : string) : string :=
  match o with
  | Some s => orElse s d
  | None => d
  end.

(** [err instanceof Error ? err.message : String(err)].  The built-in error
    classes carry an engine-worded message, which is kept symbolic. *)
Definition messageOf (e : Exn) : string :=
  match e with
  | Error m => m
  | SyntaxError => "SyntaxError"
  | RangeError => "RangeError"
  | TypeError => "TypeError"
  end.

(** [s.startsWith(p)]. *)
Definition startsWith (p s : string) : bool := String.prefix p s.

(** Digit lists, for stating what the numerals denote. *)
Definition isDigits (ds : list Z) : Prop := Forall (fun d => 0 <= d <= 9) ds.

Fixpoint evalLsd (ds : list Z) : Z :=
  match ds with
  | [] => 0
  | d :: r => d + 10 * evalLsd r
  end.

End Js.

(** ** Order selector: [selectOrdersForBudget] (services/order-selector) *)

Module OrderSelector.

Record SellOrder : Type := {
  id : string;
  batch_denom : string;
  quantity : string;
  ask_denom : string;
  ask_amount : string;
  disable_auto_retire : bool;
  expiration : option string
}.

Record CreditClass : Type := {
  class_id : string;
  credit_type_abbrev : string
}.

Record AllowedDenom : Type := {
  bank_denom : string;
  display_denom : string;
  exponent : Z
}.

Inductive CreditType : Type := carbon | biodiversity.

Record DenomInfo : Type := {
  bankDenom : string;
  displayDenom : string;
  denomExponent : Z
}.

Record BudgetSelectedOrder : Type := {
  sellOrderId : string;
  batchDenom : string;
  selectedQuantity : string;
  askAmount : string;
  askDenom : string;
  costMicro : Z
}.

Record BudgetOrderSelection : Type := {
  orders : list BudgetSelectedOrder;
  totalQuantity : string;
  totalCostMicro : Z;
  remainingBudgetMicro : Z;
  paymentDenom : string;
  selDisplayDenom : string;
  selExponent : Z;
  exhaustedBudget : bool
}.

(** The three reads of the ledger client, and what each answers. *)
Inductive LedgerCall : Type :=
| ListSellOrders
| ListCreditClasses
| GetAllowedDenoms.

Record Ledger : Type := {
  listSellOrders : Result (list SellOrder);
  listCreditClasses : Result (list CreditClass);
  getAllowedDenoms : Result (list AllowedDenom)
}.

Section Selector.

(** Runtime functions left open: [String.prototype.toLowerCase],
    [parseFloat], and the time value of [new Date(text)] ([None] for an
    invalid date); [now] is the time value of [new Date()]. *)
Variable toLowerCase : string -> string.
Variable parseFloat : string -> float.
Variable dateValue : string -> option Z.
Variable now : Z.

Definition denomInfoOf (d : AllowedDenom) : DenomInfo :=
  {| bankDenom := bank_denom d;
     displayDenom := display_denom d;
     denomExponent := exponent d |}.

Definition pickDenom (allowedDenoms : list AllowedDenom)
    (preferred : option string) : DenomInfo :=
  let byPreference :=
    match preferred with
    | Some p =>
        if Js.isEmpty p then None
        else
          let preferredLower := toLowerCase p in
          find (fun d =>
                  String.eqb (toLowerCase (bank_denom d)) preferredLower
                  || String.eqb (toLowerCase (display_denom d)) preferredLower)
               allowedDenoms
    | None => None
    end in
  match byPreference with
  | Some m => denomInfoOf m
  | None =>
      match find (fun d => String.eqb (display_denom d) "REGEN"
                           || String.eqb (bank_denom d) "uregen")
                 allowedDenoms with
      | Some regen => denomInfoOf regen
      | None =>
          match allowedDenoms with
          | first :: _ => denomInfoOf first
          | [] => {| bankDenom := "uregen"; displayDenom := "REGEN";
                     denomExponent := 6 |}
          end
      end
  end.

Definition toMicroQuantityString (microQuantity : Z) : string :=
  let whole := Z.quot microQuantity 1000000 in
  let frac := Js.padStart 6 "0" (Js.toString (Z.rem microQuantity 1000000)) in
  String.append (Js.toString whole) (String "." frac).

(** [classTypeMap.get(classId)]: the map is filled in list order, so a later
    class overrides an earlier one with the same id. *)
Definition classTypeOf (classes : list CreditClass) (classId : string)
    : option string :=
  option_map credit_type_abbrev
    (find (fun c => String.eqb (class_id c) classId) (rev classes)).

Definition isEligible (classes : list CreditClass) (denomInfo : DenomInfo)
    (creditType : option CreditType) (order : SellOrder) : bool :=
  if disable_auto_retire order then false
  else if negb (String.eqb (ask_denom order) (bankDenom denomInfo)) then false
  else if
    match creditType with
    | Some ct =>
        let classId := hd EmptyString (Js.split "-" (batch_denom order)) in
        match classTypeOf classes classId with
        | None => true
        | Some abbrev =>
            if Js.isEmpty abbrev then true
            else
              match ct with
              | carbon => negb (String.eqb abbrev "C")
              | biodiversity => String.eqb abbrev "C"
              end
        end
    | None => false
    end
  then false
  else if
    match expiration order with
    | Some e =>
        if Js.isEmpty e then false
        else match dateValue e with
             | Some t => t <=? now
             | None => false
             end
    | None => false
    end
  then false
  else true.

(** The comparator of [eligible.sort], on orders whose price is read. *)
Definition comparePrice (a b : Z * SellOrder) : Z :=
  if fst a <? fst b then -1
  else if fst b <? fst a then 1
  else 0.

(** [eligible.sort(...)]: the comparator reads [BigInt(ask_amount)] of every
    element as soon as there are two of them, and is never called otherwise. *)
Definition sortEligible (eligible : list SellOrder) : Result (list SellOrder) :=
  match eligible with
  | [] | [_] => ok eligible
  | _ =>
      do priced <- Js.mapR
                     (fun o => do p <- Js.BigInt (ask_amount o) ;; ok (p, o))
                     eligible ;;
      ok (map snd (Js.sort comparePrice priced))
  end.

Record LoopState : Type := {
  remainingBudget : Z;
  totalQuantityMicro : Z;
  loopCostMicro : Z;
  selected : list BudgetSelectedOrder
}.

Definition MICRO_CREDITS : Z := 1000000.

(** One iteration of the [for] loop over the eligible orders, after the
    [remainingBudget <= 0n] test: [None] is [continue]. *)
Definition takeFromOrder (st : LoopState) (order : SellOrder)
    : Result (option LoopState) :=
  let available := parseFloat (quantity order) in
  if negb (Js.isFinite available) || PrimFloat.leb available 0%float
  then ok None
  else
    match Js.floorFloat (PrimFloat.mul available 1000000%float) with
    | None => throw RangeError
    | Some availableMicro =>
        if availableMicro <=? 0 then ok None
        else
          do pricePerCreditMicro <- Js.BigInt (ask_amount order) ;;
          if pricePerCreditMicro <=? 0 then ok None
          else
            let affordableMicro :=
              Z.quot (remainingBudget st * MICRO_CREDITS) pricePerCreditMicro in
            if affordableMicro <=? 0 then ok None
            else
              let takeMicro :=
                if availableMicro <? affordableMicro then availableMicro
                else affordableMicro in
              if takeMicro <=? 0 then ok None
              else
                let cost :=
                  Z.quot (pricePerCreditMicro * takeMicro + MICRO_CREDITS - 1)
                         MICRO_CREDITS in
                if (cost <=? 0) || (remainingBudget st <? cost) then ok None
                else
                  ok (Some
                    {| remainingBudget := remainingBudget st - cost;
                       totalQuantityMicro := totalQuantityMicro st + takeMicro;
                       loopCostMicro := loopCostMicro st + cost;
                       selected :=
                         selected st ++
                         [{| sellOrderId := id order;
                             batchDenom := batch_denom order;
                             selectedQuantity := toMicroQuantityString takeMicro;
                             askAmount := ask_amount order;
                             askDenom := ask_denom order;
                             costMicro := cost |}] |})
    end.

Fixpoint selectLoop (eligible : list SellOrder) (st : LoopState)
    : Result LoopState :=
  match eligible with
  | [] => ok st
  | order :: rest =>
      if remainingBudget st <=? 0 then ok st
      else
        do step <- takeFromOrder st order ;;
        match step with
        | None => selectLoop rest st
        | Some st' => selectLoop rest st'
        end
  end.

(** What the three concurrent reads of [Promise.all] yield: all of them are
    issued, and the first failure in argument order rejects the whole. *)
Definition readLedger (ledger : Ledger)
    : list LedgerCall
      * Result (list SellOrder * list CreditClass * list AllowedDenom) :=
  ([ListSellOrders; ListCreditClasses; GetAllowedDenoms],
   do sellOrders <- listSellOrders ledger ;;
   do classes <- listCreditClasses ledger ;;
   do allowedDenoms <- getAllowedDenoms ledger ;;
   ok (sellOrders, classes, allowedDenoms)).

Definition selectFromReads (creditType : option CreditType) (budgetMicro : Z)
    (preferredDenom : option string)
    (reads : list SellOrder * list CreditClass * list AllowedDenom)
    : Result BudgetOrderSelection :=
  let '(sellOrders, classes, allowedDenoms) := reads in
  let denomInfo := pickDenom allowedDenoms preferredDenom in
  let eligible := filter (isEligible classes denomInfo creditType) sellOrders in
  do sorted <- sortEligible eligible ;;
  do final <- selectLoop sorted
                {| remainingBudget := budgetMicro; totalQuantityMicro := 0;
                   loopCostMicro := 0; selected := [] |} ;;
  ok {| orders := selected final;
        totalQuantity := toMicroQuantityString (totalQuantityMicro final);
        totalCostMicro := loopCostMicro final;
        remainingBudgetMicro := remainingBudget final;
        paymentDenom := bankDenom denomInfo;
        selDisplayDenom := displayDenom denomInfo;
        selExponent := denomExponent denomInfo;
        exhaustedBudget := remainingBudget final =? 0 |}.

(** The ledger calls performed, in order, and the outcome. *)
Definition selectOrdersForBudget (ledger : Ledger)
    (creditType : option CreditType) (budgetMicro : Z)
    (preferredDenom : option string)
    : list LedgerCall * Result BudgetOrderSelection :=
  if budgetMicro <=? 0
  then ([], throw (Error "budgetMicro must be greater than zero"))
  else
    let (calls, reads) := readLedger ledger in
    (calls,
     do r <- reads ;; selectFromReads creditType budgetMicro preferredDenom r).

End Selector.

(** [withinRemaining remaining sel]: going through [sel] in selection order
    with [remaining] left, every order is charged the rounded-up price of
    what is taken from it, and never more than what is left at that point. *)
Fixpoint withinRemaining (remaining : Z) (sel : list BudgetSelectedOrder)
    : Prop :=
  match sel with
  | [] => True
  | o :: rest =>
      (exists pricePerCreditMicro takeMicro,
          Js.BigInt (askAmount o) = ok pricePerCreditMicro
          /\ selectedQuantity o = toMicroQuantityString takeMicro
          /\ costMicro o
             = Z.quot (pricePerCreditMicro * takeMicro + 1000000 - 1) 1000000)
      /\ 0 < costMicro o <= remaining
      /\ withinRemaining (remaining - costMicro o) rest
  end.

(** The price a text denotes, for comparing orders whose price is read. *)
Definition askPrice (text : string) : Z :=
  match Js.BigInt text with
  | inr p => p
  | inl _ => 0
  end.

(** [selected] was taken from [order]. *)
Definition takenFrom (order : SellOrder) (selected : BudgetSelectedOrder)
    : Prop :=
  sellOrderId selected = id order
  /\ batchDenom selected = batch_denom order
  /\ askAmount selected = ask_amount order
  /\ askDenom selected = ask_denom order.

Definition cheaperOrder (a b : SellOrder) : Prop :=
  askPrice (ask_amount a) <= askPrice (ask_amount b).

Definition cheaperSelected (a b : BudgetSelectedOrder) : Prop :=
  askPrice (askAmount a) <= askPrice (askAmount b).

(** A [parseFloat] for plain decimal numerals of at most fifteen significant
    digits: the digits as an integer divided by a power of ten, both exact in
    binary64, so the quotient is the correctly rounded value.  Other texts are
    outside this fragment and yield NaN. *)
Definition parseFloatDecimal (s : string) : float :=
  let parts := Js.split "." s in
  let whole := nth 0 parts EmptyString in
  let fracText := nth 1 parts EmptyString in
  let digitsText := String.append whole fracText in
  if (2 <? List.length parts)%nat || (15 <? String.length digitsText)%nat
  then PrimFloat.nan
  else
    match Js.parseNumeral digitsText with
    | None => PrimFloat.nan
    | Some m =>
        PrimFloat.div (PrimFloat.of_uint63 (Uint63.of_Z m))
          (PrimFloat.of_uint63
             (Uint63.of_Z (10 ^ Z.of_nat (String.length fracText))))
    end.

(** Lower-casing within ASCII. *)
Definition asciiLower (c : ascii) : ascii :=
  let n := nat_of_ascii c in
  if ((65 <=? n) && (n <=? 90))%nat then ascii_of_nat (n + 32) else c.

Fixpoint toLowerCaseAscii (s : string) : string :=
  match s with
  | EmptyString => EmptyString
  | String c r => String (asciiLower c) (toLowerCaseAscii r)
  end.

(** The ledger of the specification's scenarios: one carbon class, the
    native denom, no expirations. *)
Definition scenarioOrder (orderId quantityText askText : string) : SellOrder :=
  {| id := orderId; batch_denom := "C01-001-2026"; quantity := quantityText;
     ask_denom := "uregen"; ask_amount := askText;
     disable_auto_retire := false; expiration := None |}.

Definition scenarioLedger (sellOrders : list SellOrder) : Ledger :=
  {| listSellOrders := ok sellOrders;
     listCreditClasses :=
       ok [{| class_id := "C01"; credit_type_abbrev := "C" |}];
     getAllowedDenoms :=
       ok [{| bank_denom := "uregen"; display_denom := "REGEN";
              exponent := 6 |}] |}.

Definition selectScenario (sellOrders : list SellOrder) (budgetMicro : Z)
    : list LedgerCall * Result BudgetOrderSelection :=
  selectOrdersForBudget toLowerCaseAscii parseFloatDecimal (fun _ => None) 0
    (scenarioLedger sellOrders) (Some carbon) budgetMicro None.

Definition scenarioSelected (orderId quantityText askText : string)
    (cost : Z) : BudgetSelectedOrder :=
  {| sellOrderId := orderId; batchDenom := "C01-001-2026";
     selectedQuantity := quantityText; askAmount := askText;
     askDenom := "uregen"; costMicro := cost |}.

Definition scenarioSelection (selectedOrders : list BudgetSelectedOrder)
    (quantityText : string) (cost remaining : Z) : BudgetOrderSelection :=
  {| orders := selectedOrders; totalQuantity := quantityText;
     totalCostMicro := cost; remainingBudgetMicro := remaining;
     paymentDenom := "uregen"; selDisplayDenom := "REGEN"; selExponent := 6;
     exhaustedBudget := remaining =? 0 |}.

End OrderSelector.

(** ** Fractional attribution (services/batch-retirement/attribution.ts) *)

Module Attribution.

Definition MICRO_FACTOR : Z := 1000000.
Definition MAX_SAFE_INTEGER : Z := 9007199254740991.

Definition parseQuantityToMicro (quantity : string) : Result Z :=
  let parts := Js.split "." quantity in
  let wholePart := nth 0 parts EmptyString in
  let fracPart := nth 1 parts EmptyString in
  do whole <- Js.BigInt (Js.orElse wholePart "0") ;;
  let fracPadded := Js.sliceTo 6 (Js.padEnd 6 "0" fracPart) in
  do frac <- Js.BigInt (Js.orElse fracPadded "0") ;;
  ok (whole * MICRO_FACTOR + frac).

Definition microToQuantity (micro : Z) : string :=
  let whole := Z.quot micro MICRO_FACTOR in
  let frac := Js.padStart 6 "0" (Js.toString (Z.rem micro MICRO_FACTOR)) in
  String.append (Js.toString whole) (String "." frac).

(** [Number(value)] is the same integer for every value the attribution
    reaches: allocations lie between zero and the bound tested here. *)
Definition assertSafeInteger (value : Z) (label : string) : Result Z :=
  if MAX_SAFE_INTEGER <? value
  then throw (Error (String.append label " exceeds JS safe integer range"))
  else ok value.

Record Entry : Type := {
  index : nat;
  weight : Z;
  base : Z;
  remainder : Z
}.

(** The comparator of [entries.sort]: larger remainder first, then larger
    weight, then smaller index. *)
Definition compareEntries (a b : Entry) : Z :=
  if remainder b <? remainder a then -1
  else if remainder a <? remainder b then 1
  else if weight b <? weight a then -1
  else if weight a <? weight b then 1
  else Z.of_nat (index a) - Z.of_nat (index b).

Definition bump (e : Entry) : Entry :=
  {| index := index e; weight := weight e; base := base e + 1;
     remainder := remainder e |}.

(** The loop handing one unit to the leading entries while units remain. *)
Fixpoint distribute (entries : list Entry) (remainderUnits : Z) : list Entry :=
  match entries with
  | [] => []
  | e :: r =>
      if 0 <? remainderUnits then bump e :: distribute r (remainderUnits - 1)
      else entries
  end.

Definition makeEntries (total sumWeights : Z) (weights : list Z) : list Entry :=
  Js.mapi (fun weight index =>
             let raw := total * weight in
             {| index := index; weight := weight;
                base := Z.quot raw sumWeights;
                remainder := Z.rem raw sumWeights |})
          weights.

Definition allocateProportionally (total : Z) (weights : list Z)
    : Result (list Z) :=
  if (total <=? 0) || (List.length weights =? 0)%nat
  then ok (map (fun _ => 0) weights)
  else
    let sumWeights := Js.sum weights in
    if sumWeights <=? 0 then ok (map (fun _ => 0) weights)
    else
      let entries := makeEntries total sumWeights weights in
      let allocated := fold_left (fun acc item => acc + base item) entries 0 in
      let remainderUnits := total - allocated in
      let sorted := Js.sort compareEntries entries in
      let bumped := distribute sorted remainderUnits in
      let result :=
        fold_left (fun res item => Js.setAt (index item) (base item) res)
                  bumped (repeat 0 (List.length weights)) in
      if Js.sum result =? total then ok result
      else throw (Error "Proportional allocation mismatch").

Record MonthlyContributorAggregate : Type := {
  userId : string;
  email : option string;
  customerId : option string;
  contributionCount : Z;
  totalUsdCents : Z
}.

Record BuildAttributionsInput : Type := {
  contributors : list MonthlyContributorAggregate;
  totalContributionUsdCents : Z;
  appliedBudgetUsdCents : Z;
  totalCostMicro : Z;
  retiredQuantity : string;
  paymentDenom : string
}.

Record ContributorAttribution : Type := {
  attrUserId : string;
  attrEmail : option string;
  attrCustomerId : option string;
  sharePpm : Z;
  contributionUsdCents : Z;
  attributedBudgetUsdCents : Z;
  attributedCostMicro : string;
  attributedQuantity : string;
  attrPaymentDenom : string
}.

Definition buildContributorAttributions (input : BuildAttributionsInput)
    : Result (list ContributorAttribution) :=
  if (List.length (contributors input) =? 0)%nat then ok []
  else if totalContributionUsdCents input <=? 0 then ok []
  else
    let weights := map totalUsdCents (contributors input) in
    let sumWeights := Js.sum weights in
    if sumWeights <=? 0 then ok []
    else
      do quantityMicroTotal <- parseQuantityToMicro (retiredQuantity input) ;;
      do budgetAllocations <-
        allocateProportionally (appliedBudgetUsdCents input) weights ;;
      do costAllocations <-
        allocateProportionally (totalCostMicro input) weights ;;
      do quantityAllocations <-
        allocateProportionally quantityMicroTotal weights ;;
      Js.mapR (fun x => x)
        (Js.mapi
           (fun contributor index =>
              let weight := nth index weights 0 in
              do share <-
                (if 0 <? sumWeights
                 then assertSafeInteger
                        (Z.quot (weight * 1000000) sumWeights) "sharePpm"
                 else ok 0) ;;
              do budget <-
                assertSafeInteger (nth index budgetAllocations 0)
                                  "attributedBudgetUsdCents" ;;
              ok {| attrUserId := userId contributor;
                    attrEmail := email contributor;
                    attrCustomerId := customerId contributor;
                    sharePpm := share;
                    contributionUsdCents := totalUsdCents contributor;
                    attributedBudgetUsdCents := budget;
                    attributedCostMicro :=
                      Js.toString (nth index costAllocations 0);
                    attributedQuantity :=
                      microToQuantity (nth index quantityAllocations 0);
                    attrPaymentDenom := paymentDenom input |})
           (contributors input)).

(** The two-contributor month of the repository's test. *)
Definition exampleInput : BuildAttributionsInput :=
  {| contributors :=
       [{| userId := "user-a"; email := None; customerId := None;
           contributionCount := 1; totalUsdCents := 100 |};
        {| userId := "user-b"; email := None; customerId := None;
           contributionCount := 1; totalUsdCents := 300 |}];
     totalContributionUsdCents := 400;
     appliedBudgetUsdCents := 400;
     totalCostMicro := 4000000;
     retiredQuantity := "2.000000";
     paymentDenom := "uusdc" |}.

End Attribution.

(** ** Retirement service: [executeRetirement] (services/retirement.ts) *)

Module Retirement.

Record Config : Type := {
  walletConfigured : bool;
  balanceApiKey : option string;
  balanceUrl : option string;
  defaultJurisdiction : string;
  marketplaceUrl : string;
  paymentProvider : option string
}.

Record RetirementParams : Type := {
  creditClass : option string;
  quantity : option float;
  beneficiaryName : option string;
  jurisdiction : option string;
  reason : option string
}.

Inductive Status : Type := success | marketplace_fallback.

Record RetirementResult : Type := {
  status : Status;
  txHash : option string;
  creditsRetired : option string;
  cost : option string;
  blockHeight : option Z;
  certificateId : option string;
  resultMarketplaceUrl : option string;
  message : option string;
  remainingBalanceCents : option Z;
  resultJurisdiction : option string;
  resultReason : option string;
  resultBeneficiaryName : option string
}.

Inductive ProviderName : Type := stripe | crypto.

Inductive AuthStatus : Type := authorized | failed.

Record PaymentAuthorization : Type := {
  authId : string;
  authStatus : AuthStatus;
  authMessage : option string
}.

Record SelectedOrder : Type := {
  sellOrderId : string;
  orderQuantity : string;
  askDenom : string;
  askAmount : string
}.

Record OrderSelection : Type := {
  orders : list SelectedOrder;
  totalQuantity : string;
  totalCostMicro : Z;
  paymentDenom : string;
  displayDenom : string;
  exponent : Z;
  insufficientSupply : bool
}.

Record BuyOrder : Type := {
  buySellOrderId : Z;
  buyQuantity : string;
  bidDenom : string;
  bidAmount : string;
  disableAutoRetire : bool;
  retirementJurisdiction : string;
  retirementReason : string
}.

Record MsgBuyDirect : Type := {
  typeUrl : string;
  buyer : string;
  buyOrders : list BuyOrder
}.

Record TxResult : Type := {
  code : Z;
  transactionHash : string;
  height : Z;
  rawLog : option string
}.

Record Retirement : Type := { nodeId : string }.

Record BalanceBody : Type := {
  balance_cents : Z;
  topup_url : option string
}.

(** An HTTP response: [res.ok] and what [res.json()] yields. *)
Record Response (Body : Type) : Type := {
  resOk : bool;
  resJson : Result Body
}.

Record PrepaidBalance : Type := {
  available : bool;
  balanceCents : Z;
  topupUrl : option string
}.

Record DebitRequest : Type := {
  amount_cents : Z;
  description : string;
  retirement_tx_hash : option string;
  credit_class : option string;
  credits_retired : float
}.

Record DebitBody : Type := {
  debitSuccess : bool;
  debitBalanceCents : Z;
  debitTopupUrl : option string
}.

(** The downstream calls of the service, indexed by what they answer. *)
Inductive Call : Type -> Type :=
| FetchBalance (url apiKey : string) : Call (Response BalanceBody)
| FetchDebit (url apiKey : string) (body : DebitRequest)
    : Call (Response DebitBody)
| InitWallet : Call string
| SelectBestOrders (creditType : option OrderSelector.CreditType)
    (retireQuantity : float) : Call OrderSelection
| AuthorizePayment (provider : ProviderName) (amountMicro : Z)
    (denom buyerAddress creditClassTag : string) : Call PaymentAuthorization
| SignAndBroadcast (messages : list MsgBuyDirect) : Call TxResult
| RefundPayment (provider : ProviderName) (authorizationId : string)
    : Call unit
| CapturePayment (provider : ProviderName) (authorizationId : string)
    : Call unit
| WaitForRetirement (hash : string) : Call (option Retirement).

(** Programs over the downstream calls: every call may answer or raise, and
    the continuation sees which. *)
Inductive Prog (R : Type) : Type :=
| Ret (r : R)
| Raise (e : Exn)
| Do (X : Type) (c : Call X) (k : Result X -> Prog R).

Arguments Ret {R} r.
Arguments Raise {R} e.
Arguments Do {R X} c k.

Fixpoint bindP (A B : Type) (p : Prog A) (k : A -> Prog B) : Prog B :=
  match p with
  | Ret a => k a
  | Raise e => Raise e
  | Do c h => Do c (fun r => bindP (h r) k)
  end.

(** [try { p } catch (e) { handler(e) }]. *)
Fixpoint tryCatch (A : Type) (p : Prog A) (handler : Exn -> Prog A) : Prog A :=
  match p with
  | Ret a => Ret a
  | Raise e => handler e
  | Do c h => Do c (fun r => tryCatch (h r) handler)
  end.

(** [await c]: a rejected call raises. *)
Definition await (X : Type) (c : Call X) : Prog X :=
  Do c (fun r => match r with inl e => Raise e | inr x => Ret x end).

(** A computation without calls that may raise. *)
Definition liftR (A : Type) (r : Result A) : Prog A :=
  match r with inl e => Raise e | inr a => Ret a end.

Notation "'let*' x := p 'in' k" := (bindP p (fun x => k))
  (at level 10, x name, p at level 100, k at level 200).

(** What happened downstream: a call and its outcome. *)
Inductive Event : Type :=
| Ev (X : Type) (c : Call X) (r : Result X).

(** A world answers every call, knowing what happened before. *)
Definition World : Type := forall X : Type, list Event -> Call X -> Result X.

Fixpoint run (R : Type) (w : World) (p : Prog R) (history : list Event)
    : list Event * Result R :=
  match p with
  | Ret r => (history, inr r)
  | Raise e => (history, inl e)
  | Do c k =>
      let r := w _ history c in
      run w (k r) (history ++ [Ev c r])
  end.

Section Service.

(** Number formatting and parsing of the runtime, left open: [x.toFixed(n)],
    [String(x)], [parseFloat], [10 ** k], and [(cents / 100).toFixed(2)]. *)
Variable toFixed : nat -> float -> string.
Variable numberToString : float -> string.
Variable parseFloat : string -> float.
Variable pow10 : Z -> float.
Variable centsToFixed2 : Z -> string.

Variable config : Config.

Definition getMarketplaceLink : string :=
  String.append (marketplaceUrl config)
                "/projects/1?buying_options_filters=credit_card".

Definition getPaymentProvider : ProviderName :=
  match paymentProvider config with
  | Some p => if String.eqb p "stripe" then stripe else crypto
  | None => crypto
  end.

Definition prepaidConfigured : bool :=
  Js.truthy (balanceApiKey config) && Js.truthy (balanceUrl config).

Definition optText (o : option string) : string :=
  match o with Some s => s | None => EmptyString end.

Definition checkPrepaidBalance : Prog (option PrepaidBalance) :=
  if negb prepaidConfigured then Ret None
  else
    tryCatch
      (let* res :=
         await (FetchBalance
                  (String.append (optText (balanceUrl config)) "/balance")
                  (optText (balanceApiKey config))) in
       if negb (resOk res) then Ret None
       else
         let* data := liftR (resJson res) in
         Ret (Some {| available := 0 <? balance_cents data;
                      balanceCents := balance_cents data;
                      topupUrl := topup_url data |}))
      (fun _ => Ret None).

Definition debitPrepaidBalance (amountCents : Z) (descriptionText : string)
    (retirementTxHash creditClassText : option string) (credits : float)
    : Prog DebitBody :=
  if negb prepaidConfigured
  then Ret {| debitSuccess := false; debitBalanceCents := 0;
              debitTopupUrl := None |}
  else
    tryCatch
      (let* res :=
         await (FetchDebit
                  (String.append (optText (balanceUrl config)) "/debit")
                  (optText (balanceApiKey config))
                  {| amount_cents := amountCents;
                     description := descriptionText;
                     retirement_tx_hash := retirementTxHash;
                     credit_class := creditClassText;
                     credits_retired := credits |}) in
       liftR (resJson res))
      (fun _ => Ret {| debitSuccess := false; debitBalanceCents := 0;
                       debitTopupUrl := None |}).

Definition formatAmount (amountMicro exponentValue : Z)
    (displayDenomText : string) : Result string :=
  do divisor <- Js.bigIntOfFloat (pow10 exponentValue) ;;
  do whole <- Js.bigDiv amountMicro divisor ;;
  do frac <- Js.bigRem amountMicro divisor ;;
  let fracStr :=
    Js.stripTrailingZeros
      (Js.padStart (Z.to_nat exponentValue) "0" (Js.toString frac)) in
  if Js.isEmpty fracStr
  then ok (String.append (Js.toString whole)
                         (String.append " " displayDenomText))
  else ok (String.append (Js.toString whole)
             (String.append "."
                (String.append fracStr (String.append " " displayDenomText)))).

Definition fallback (messageText : string) (params : RetirementParams)
    : RetirementResult :=
  {| status := marketplace_fallback;
     txHash := None; creditsRetired := None; cost := None;
     blockHeight := None; certificateId := None;
     resultMarketplaceUrl := Some getMarketplaceLink;
     message := Some messageText;
     remainingBalanceCents := None;
     resultJurisdiction := None; resultReason := None;
     resultBeneficiaryName := beneficiaryName params |}.

(** [params.quantity || 1]: zero and NaN are falsy. *)
Definition retireQuantityOf (params : RetirementParams) : float :=
  match quantity params with
  | Some q =>
      if PrimFloat.eqb q 0%float || PrimFloat.is_nan q then 1%float else q
  | None => 1%float
  end.

Definition creditTypeOf (params : RetirementParams)
    : option OrderSelector.CreditType :=
  match creditClass params with
  | Some c =>
      if Js.isEmpty c then None
      else if Js.startsWith "C" c then Some OrderSelector.carbon
      else Some OrderSelector.biodiversity
  | None => None
  end.

Definition buildBuyOrders (selection : OrderSelection)
    (retireJurisdiction retireReason : string) : Result (list BuyOrder) :=
  Js.mapR
    (fun order =>
       do sellId <- Js.BigInt (sellOrderId order) ;;
       ok {| buySellOrderId := sellId;
             buyQuantity := orderQuantity order;
             bidDenom := askDenom order;
             bidAmount := askAmount order;
             disableAutoRetire := false;
             retirementJurisdiction := retireJurisdiction;
             retirementReason := retireReason |})
    (orders selection).

(** [try { await provider.refundPayment(id) } catch { }]. *)
Definition refundQuietly (provider : ProviderName) (authorizationId : string)
    : Prog unit :=
  tryCatch (await (RefundPayment provider authorizationId)) (fun _ => Ret tt).

Definition rejectedMessage (tx : TxResult) : string :=
  String.append "Transaction rejected (code "
    (String.append (Js.toString (code tx))
       (String.append "): " (Js.orDefault (rawLog tx) "unknown error"))).

Definition broadcastFailedMessage (err : Exn) : string :=
  String.append "Transaction broadcast failed: " (Js.messageOf err).

(** Path B of [executeRetirement], the body of the outer [try]. *)
Definition directRetirement (params : RetirementParams)
    : Prog RetirementResult :=
  let usePrepaid := prepaidConfigured in
  let retireJurisdiction :=
    Js.orDefault (jurisdiction params) (defaultJurisdiction config) in
  let retireReason :=
    Js.orDefault (reason params)
      "Regenerative contribution via Regenerative Compute" in
  let retireQuantity := retireQuantityOf params in
  let* address := await InitWallet in
  let* selection :=
    await (SelectBestOrders (creditTypeOf params) retireQuantity) in
  if (List.length (orders selection) =? 0)%nat
  then Ret (fallback
              "No matching sell orders found on-chain. Try the marketplace instead."
              params)
  else if insufficientSupply selection
  then
    let availableCredits := parseFloat (totalQuantity selection) in
    Ret (fallback
           (String.append "Only "
              (String.append (toFixed 4 availableCredits)
                 (String.append " credits available on-chain (requested "
                    (String.append (numberToString retireQuantity)
                       "). You can try a smaller quantity or use the marketplace."))))
           params)
  else
    let* costCents :=
      liftR (do divisor <- Js.bigIntOfFloat (pow10 (exponent selection - 2)) ;;
             Js.bigDiv (totalCostMicro selection) divisor) in
    let* blocked :=
      (if usePrepaid
       then
         let* balance := checkPrepaidBalance in
         let short :=
           match balance with
           | None => true
           | Some b => negb (available b) || (balanceCents b <? costCents)
           end in
         if short
         then
           let* displayCost :=
             liftR (formatAmount (totalCostMicro selection)
                      (exponent selection) (displayDenom selection)) in
           let balanceStr :=
             match balance with
             | Some b => String.append "$" (centsToFixed2 (balanceCents b))
             | None => "$0.00"
             end in
           let topupNote :=
             match balance with
             | Some b =>
                 if Js.truthy (topupUrl b)
                 then String.append " Top up your balance: "
                        (optText (topupUrl b))
                 else EmptyString
             | None => EmptyString
             end in
           Ret (Some (fallback
                  (String.append "Insufficient prepaid balance. Need "
                     (String.append displayCost
                        (String.append " but balance is "
                           (String.append balanceStr
                              (String.append "." topupNote)))))
                  params))
         else Ret None
       else Ret None) in
    match blocked with
    | Some result => Ret result
    | None =>
        let provider := getPaymentProvider in
        let* auth :=
          await (AuthorizePayment provider (totalCostMicro selection)
                   (paymentDenom selection) address
                   (Js.orDefault (creditClass params) "any")) in
        match authStatus auth with
        | failed =>
            let* displayCost :=
              liftR (formatAmount (totalCostMicro selection)
                       (exponent selection) (displayDenom selection)) in
            Ret (fallback
                   (Js.orDefault (authMessage auth)
                      (String.append "Insufficient wallet balance. Need "
                         (String.append displayCost
                            (String.append " to purchase "
                               (String.append (numberToString retireQuantity)
                                  " credits.")))))
                   params)
        | authorized =>
            let* buys :=
              liftR (buildBuyOrders selection retireJurisdiction retireReason) in
            let msg :=
              {| typeUrl := "/regen.ecocredit.marketplace.v1.MsgBuyDirect";
                 buyer := address;
                 buyOrders := buys |} in
            Do (SignAndBroadcast [msg])
              (fun outcome =>
                 match outcome with
                 | inl err =>
                     let* _ := refundQuietly provider (authId auth) in
                     Ret (fallback (broadcastFailedMessage err) params)
                 | inr txResult =>
                     if negb (code txResult =? 0)
                     then
                       let* _ := refundQuietly provider (authId auth) in
                       Ret (fallback (rejectedMessage txResult) params)
                     else
                       let* _ := await (CapturePayment provider (authId auth)) in
                       let* _ :=
                         (if usePrepaid
                          then
                            let* _ :=
                              debitPrepaidBalance costCents
                                (String.append "Retired "
                                   (String.append (totalQuantity selection)
                                      (String.append " credits ("
                                         (String.append
                                            (Js.orDefault (creditClass params)
                                               "mixed")
                                            ")"))))
                                (Some (transactionHash txResult))
                                (creditClass params)
                                (parseFloat (totalQuantity selection)) in
                            Ret tt
                          else Ret tt) in
                       let* retirement :=
                         await (WaitForRetirement (transactionHash txResult)) in
                       let* displayCost :=
                         liftR (formatAmount (totalCostMicro selection)
                                  (exponent selection)
                                  (displayDenom selection)) in
                       let* remaining :=
                         (if usePrepaid
                          then
                            let* b := checkPrepaidBalance in
                            Ret (option_map balanceCents b)
                          else Ret None) in
                       Ret {| status := success;
                              txHash := Some (transactionHash txResult);
                              creditsRetired := Some (totalQuantity selection);
                              cost := Some displayCost;
                              blockHeight := Some (height txResult);
                              certificateId := option_map nodeId retirement;
                              resultMarketplaceUrl := None;
                              message := None;
                              remainingBalanceCents := remaining;
                              resultJurisdiction := Some retireJurisdiction;
                              resultReason := Some retireReason;
                              resultBeneficiaryName := beneficiaryName params |}
                 end)
        end
    end.

Definition executeRetirement (params : RetirementParams)
    : Prog RetirementResult :=
  if negb (walletConfigured config)
  then
    let* balance := checkPrepaidBalance in
    match balance with
    | Some b =>
        if available b
        then
          Ret (fallback
                 (String.append "You have a prepaid balance of $"
                    (String.append (centsToFixed2 (balanceCents b))
                       ", but no REGEN wallet is configured for on-chain retirement. Set REGEN_WALLET_MNEMONIC in your .env to enable automatic retirement from your balance."))
                 params)
        else Ret (fallback "No wallet configured for on-chain retirement." params)
    | None => Ret (fallback "No wallet configured for on-chain retirement." params)
    end
  else
    tryCatch (directRetirement params)
      (fun err =>
         Ret (fallback
                (String.append "Direct retirement failed: " (Js.messageOf err))
                params)).

End Service.

(** *** Reading a trace *)

Definition isCapture (ev : Event) : bool :=
  match ev with
  | Ev c _ => match c with CapturePayment _ _ => true | _ => false end
  end.

Definition isRefundOf (authorizationId : string) (ev : Event) : bool :=
  match ev with
  | Ev c _ =>
      match c with
      | RefundPayment _ i => String.eqb i authorizationId
      | _ => false
      end
  end.

(** The authorization a successful [authorizePayment] event granted. *)
Definition authorizationOf (ev : Event) : option PaymentAuthorization :=
  match ev with
  | Ev c r =>
      match c in Call X return Result X -> option PaymentAuthorization with
      | AuthorizePayment _ _ _ _ _ =>
          fun r => match r with inr a => Some a | inl _ => None end
      | _ => fun _ => None
      end r
  end.

(** A broadcast event that returned [code == 0]. *)
Definition acceptedBroadcast (ev : Event) : bool :=
  match ev with
  | Ev c r =>
      match c in Call X return Result X -> bool with
      | SignAndBroadcast _ =>
          fun r => match r with inr tx => code tx =? 0 | inl _ => false end
      | _ => fun _ => false
      end r
  end.

(** The error text of a failed broadcast, written out here and not taken
    from the service: what the error thrown says ([err.message], or the
    error in words when it is not an [Error]), and what a rejection logged
    (["unknown error"] when the log is missing or empty). *)
Definition thrownText (err : Exn) : string :=
  match err with
  | Error text => text
  | SyntaxError => "SyntaxError"
  | RangeError => "RangeError"
  | TypeError => "TypeError"
  end.

Definition logText (log : option string) : string :=
  match log with
  | Some (String a rest) => String a rest
  | Some EmptyString => "unknown error"
  | None => "unknown error"
  end.

(** The message expected of the fallback after a broadcast event that threw
    or returned [code != 0]: the kind of failure, then its error text. *)
Definition broadcastFailure (ev : Event) : option string :=
  match ev with
  | Ev c r =>
      match c in Call X return Result X -> option string with
      | SignAndBroadcast _ =>
          fun r =>
            match r with
            | inl err =>
                Some (String.append "Transaction broadcast failed: "
                        (thrownText err))
            | inr tx =>
                if code tx =? 0 then None
                else Some (String.append "Transaction rejected (code "
                             (String.append (Js.toString (code tx))
                                (String.append "): " (logText (rawLog tx)))))
            end
      | _ => fun _ => None
      end r
  end.

(** Every capture in the trace comes after an accepted broadcast. *)
Fixpoint capturesGuarded (accepted : bool) (trace : list Event) : bool :=
  match trace with
  | [] => true
  | ev :: rest =>
      if isCapture ev then accepted && capturesGuarded accepted rest
      else capturesGuarded (accepted || acceptedBroadcast ev) rest
  end.

(** [failedBroadcastHandled auth trace]: when the trace holds a failed
    broadcast, the answer is its message, together with whether a refund of
    the authorization granted before it follows it.  [auth] is the last
    authorization granted so far. *)
Fixpoint failedBroadcastHandled (auth : option PaymentAuthorization)
    (trace : list Event) : option (string * bool) :=
  match trace with
  | [] => None
  | ev :: rest =>
      match broadcastFailure ev with
      | Some text =>
          Some (text,
                match auth with
                | Some a => existsb (isRefundOf (authId a)) rest
                | None => false
                end)
      | None =>
          failedBroadcastHandled
            (match authorizationOf ev with Some a => Some a | None => auth end)
            rest
      end
  end.

(** What is asked of one run: a result and no exception, captures only
    after an accepted broadcast, and after a failed broadcast a refund of the
    authorization, no capture, and a fallback carrying the failure text. *)
Definition faultTolerant (outcome : list Event * Result RetirementResult)
    : Prop :=
  exists result,
    snd outcome = inr result
    /\ capturesGuarded false (fst outcome) = true
    /\ match failedBroadcastHandled None (fst outcome) with
       | Some (text, refunded) =>
           refunded = true
           /\ existsb isCapture (fst outcome) = false
           /\ status result = marketplace_fallback
           /\ message result = Some text
       | None => True
       end.

(** A balance lookup, a capture that was answered, a refund, a broadcast. *)
Definition isBalanceCheck (ev : Event) : bool :=
  match ev with
  | Ev c _ => match c with FetchBalance _ _ => true | _ => false end
  end.

Definition capturedOk (ev : Event) : bool :=
  match ev with
  | Ev c r =>
      match c, r with
      | CapturePayment _ _, inr _ => true
      | _, _ => false
      end
  end.

Definition isRefund (ev : Event) : bool :=
  match ev with
  | Ev c _ => match c with RefundPayment _ _ => true | _ => false end
  end.

Definition isBroadcast (ev : Event) : bool :=
  match ev with
  | Ev c _ => match c with SignAndBroadcast _ => true | _ => false end
  end.

(** A run in which every downstream call answers: one order selected, the
    payment authorized, the transaction accepted. *)
Definition exampleConfig : Config :=
  {| walletConfigured := true; balanceApiKey := None; balanceUrl := None;
     defaultJurisdiction := "US"; marketplaceUrl := "https://app.regen.network";
     paymentProvider := None |}.

Definition exampleParams : RetirementParams :=
  {| creditClass := Some "C01"; quantity := Some 1%float;
     beneficiaryName := Some "Alice"; jurisdiction := None; reason := None |}.

Definition exampleWorld : World :=
  fun X history c =>
    match c in Call X return Result X with
    | FetchBalance _ _ => throw (Error "unreachable")
    | FetchDebit _ _ _ => throw (Error "unreachable")
    | InitWallet => ok "regen1buyer"
    | SelectBestOrders _ _ =>
        ok {| orders := [{| sellOrderId := "7"; orderQuantity := "1.000000";
                            askDenom := "uregen"; askAmount := "1000000" |}];
              totalQuantity := "1.000000"; totalCostMicro := 1000000;
              paymentDenom := "uregen"; displayDenom := "REGEN";
              exponent := 6; insufficientSupply := false |}
    | AuthorizePayment _ _ _ _ _ =>
        ok {| authId := "auth_1"; authStatus := authorized;
              authMessage := None |}
    | SignAndBroadcast _ =>
        ok {| code := 0; transactionHash := "ABC123"; height := 42;
              rawLog := None |}
    | RefundPayment _ _ => ok tt
    | CapturePayment _ _ => ok tt
    | WaitForRetirement _ => ok (Some {| nodeId := "WyCert1" |})
    end.

Definition examplePow10 (k : Z) : float :=
  PrimFloat.of_uint63 (Uint63.of_Z (10 ^ k)).

Definition exampleRun : list Event * Result RetirementResult :=
  run exampleWorld
    (executeRetirement (fun _ _ => EmptyString) (fun _ => EmptyString)
       OrderSelector.parseFloatDecimal examplePow10 Js.toString
       exampleConfig exampleParams) [].

(** The same run with a broadcast that throws, and with one that the chain
    rejects with code 5. *)
Definition throwingWorld : World :=
  fun X history c =>
    match c in Call X return Result X with
    | SignAndBroadcast _ => throw (Error "socket hang up")
    | other => exampleWorld history other
    end.

Definition rejectingWorld : World :=
  fun X history c =>
    match c in Call X return Result X with
    | SignAndBroadcast _ =>
        ok {| code := 5; transactionHash := "DEF456"; height := 0;
              rawLog := Some "insufficient funds" |}
    | other => exampleWorld history other
    end.

Definition exampleRunIn (w : World) : list Event * Result RetirementResult :=
  run w
    (executeRetirement (fun _ _ => EmptyString) (fun _ => EmptyString)
       OrderSelector.parseFloatDecimal examplePow10 Js.toString
       exampleConfig exampleParams) [].

End Retirement.

(** ** Prepaid balance store and webhook receiver (server/db.ts, routes.ts) *)

Module Webhook.

Inductive TransactionType : Type := topup | retirement.

Record User : Type := {
  id : Z;
  api_key : string;
  email : option string;
  balance_cents : Z;
  stripe_customer_id : option string
}.

Record Transaction : Type := {
  transaction_id : Z;
  user_id : Z;
  type : TransactionType;
  amount_cents : Z;
  description : option string;
  stripe_session_id : option string;
  retirement_tx_hash : option string;
  credit_class : option string;
  credits_retired : option float
}.

(** The two tables in row order, and the AUTOINCREMENT counters. *)
Record Db : Type := {
  users : list User;
  transactions : list Transaction;
  nextUserId : Z;
  nextTransactionId : Z
}.

Definition getUserByApiKey (db : Db) (apiKey : string) : option User :=
  find (fun u => String.eqb (api_key u) apiKey) (users db).

Definition getUserByEmail (db : Db) (emailText : string) : option User :=
  find (fun u => match email u with
                 | Some e => String.eqb e emailText
                 | None => false
                 end)
       (users db).

Definition getUserById (db : Db) (userId : Z) : option User :=
  find (fun u => id u =? userId) (users db).

(** [createUser]: [apiKey] is the key [generateApiKey] drew; the UNIQUE
    constraint on [api_key] rejects a key already in the table. *)
Definition createUser (db : Db) (apiKey : string) (emailText : option string)
    (stripeCustomerId : option string) : Result (Db * User) :=
  match getUserByApiKey db apiKey with
  | Some _ => throw (Error "UNIQUE constraint failed: users.api_key")
  | None =>
      let user := {| id := nextUserId db; api_key := apiKey;
                     email := emailText; balance_cents := 0;
                     stripe_customer_id := stripeCustomerId |} in
      ok ({| users := users db ++ [user];
             transactions := transactions db;
             nextUserId := nextUserId db + 1;
             nextTransactionId := nextTransactionId db |}, user)
  end.

Definition addToBalance (userId delta : Z) (u : User) : User :=
  if id u =? userId
  then {| id := id u; api_key := api_key u; email := email u;
          balance_cents := balance_cents u + delta;
          stripe_customer_id := stripe_customer_id u |}
  else u.

(** [creditBalance]: one database transaction; the foreign key of
    [transactions.user_id] rejects an unknown user and rolls it back. *)
Definition creditBalance (db : Db) (userId amountCents : Z)
    (stripeSessionId descriptionText : string) : Result Db :=
  match getUserById db userId with
  | None => throw (Error "FOREIGN KEY constraint failed")
  | Some _ =>
      ok {| users := map (addToBalance userId amountCents) (users db);
            transactions :=
              transactions db ++
              [{| transaction_id := nextTransactionId db;
                  user_id := userId; type := topup;
                  amount_cents := amountCents;
                  description := Some descriptionText;
                  stripe_session_id := Some stripeSessionId;
                  retirement_tx_hash := None; credit_class := None;
                  credits_retired := None |}];
            nextUserId := nextUserId db;
            nextTransactionId := nextTransactionId db + 1 |}
  end.

Record DebitOutcome : Type := {
  debitSuccess : bool;
  debitBalanceCents : Z
}.

Definition debitBalance (db : Db) (userId amountCents : Z)
    (descriptionText : string) (retirementTxHash creditClass : option string)
    (creditsRetired : option float) : Db * DebitOutcome :=
  match getUserById db userId with
  | None => (db, {| debitSuccess := false; debitBalanceCents := 0 |})
  | Some user =>
      if balance_cents user <? amountCents
      then (db, {| debitSuccess := false;
                   debitBalanceCents := balance_cents user |})
      else
        ({| users := map (addToBalance userId (- amountCents)) (users db);
            transactions :=
              transactions db ++
              [{| transaction_id := nextTransactionId db;
                  user_id := userId; type := retirement;
                  amount_cents := amountCents;
                  description := Some descriptionText;
                  stripe_session_id := None;
                  retirement_tx_hash := retirementTxHash;
                  credit_class := creditClass;
                  credits_retired := creditsRetired |}];
            nextUserId := nextUserId db;
            nextTransactionId := nextTransactionId db + 1 |},
         {| debitSuccess := true;
            debitBalanceCents := balance_cents user - amountCents |})
  end.

Record CheckoutSession : Type := {
  session_id : string;
  amount_total : option Z;
  customer_email : option string;
  customer_details_email : option string;
  customer : option string
}.

Record StripeEvent : Type := {
  event_id : string;
  event_type : string;
  session : CheckoutSession
}.

Record WebhookRequest : Type := {
  stripeSignature : option string;
  body : string
}.

Inductive ResponseBody : Type :=
| Received
| ErrorBody (errorText : string).

Record HttpResponse : Type := {
  statusCode : Z;
  json : ResponseBody
}.

Section Receiver.

(** [stripe.webhooks.constructEvent(body, sig, secret)], the event that
    [JSON.parse(body)] denotes, and [(cents / 100).toFixed(2)]. *)
Variable constructEvent : string -> string -> string -> Result StripeEvent.
Variable parseEvent : string -> Result StripeEvent.
Variable centsToFixed2 : Z -> string.

(** [a ?? b]. *)
Definition orNullish (A : Type) (a b : option A) : option A :=
  match a with Some _ => a | None => b end.

Definition handleCheckoutCompleted (db : Db) (apiKey : string)
    (checkout : CheckoutSession) : Result Db :=
  let amountCents := match amount_total checkout with
                     | Some a => a
                     | None => 0
                     end in
  let emailText :=
    orNullish (customer_email checkout) (customer_details_email checkout) in
  let stripeCustomerId := customer checkout in
  let found :=
    if Js.truthy emailText
    then getUserByEmail db (match emailText with
                            | Some e => e
                            | None => EmptyString
                            end)
    else None in
  do located <-
    match found with
    | Some user => ok (db, user)
    | None => createUser db apiKey emailText stripeCustomerId
    end ;;
  creditBalance (fst located) (id (snd located)) amountCents
    (session_id checkout)
    (String.append "Stripe top-up: $" (centsToFixed2 amountCents)).

(** The handler of [POST /webhook]: [secret] is STRIPE_WEBHOOK_SECRET and
    [apiKey] the key a new user would be given.  An exception is a rejected
    handler, for which no response is sent. *)
Definition postWebhook (secret : option string) (apiKey : string) (db : Db)
    (req : WebhookRequest) : Result (Db * HttpResponse) :=
  let verified :=
    if Js.truthy secret && Js.truthy (stripeSignature req)
    then
      match constructEvent (body req)
              (match stripeSignature req with
               | Some s => s
               | None => EmptyString
               end)
              (match secret with Some s => s | None => EmptyString end) with
      | inl err =>
          inl {| statusCode := 400;
                 json := ErrorBody (String.append "Webhook Error: "
                                      (Js.messageOf err)) |}
      | inr event => inr (ok event)
      end
    else inr (parseEvent (body req)) in
  match verified with
  | inl rejection => ok (db, rejection)
  | inr parsed =>
      do event <- parsed ;;
      do db' <-
        (if String.eqb (event_type event) "checkout.session.completed"
         then handleCheckoutCompleted db apiKey (session event)
         else ok db) ;;
      ok (db', {| statusCode := 200; json := Received |})
  end.

End Receiver.

Definition balanceOf (db : Db) (userId : Z) : option Z :=
  option_map balance_cents (getUserById db userId).

(** What the schema guarantees of the tables: [users.id] is a key, and the
    AUTOINCREMENT counter is above every id in use. *)
Definition consistent (db : Db) : Prop :=
  NoDup (map id (users db))
  /\ Forall (fun u => id u < nextUserId db) (users db).

(** The event the handler goes on with, when the request is not rejected. *)
Definition admitted (constructEvent : string -> string -> string -> Result StripeEvent)
    (parseEvent : string -> Result StripeEvent) (secret : option string)
    (req : WebhookRequest) (event : StripeEvent) : Prop :=
  match secret, stripeSignature req with
  | Some s, Some sig =>
      if negb (Js.isEmpty s) && negb (Js.isEmpty sig)
      then constructEvent (body req) sig s = ok event
      else parseEvent (body req) = ok event
  | _, _ => parseEvent (body req) = ok event
  end.

(** [session.customer_email ?? session.customer_details?.email] and
    [session.amount_total ?? 0]. *)
Definition emailOf (checkout : CheckoutSession) : option string :=
  orNullish (customer_email checkout) (customer_details_email checkout).

Definition amountOf (checkout : CheckoutSession) : Z :=
  match amount_total checkout with Some a => a | None => 0 end.

(** The top-up row a delivery writes. *)
Definition topupRow (rowId userId amountCents : Z)
    (stripeSessionId descriptionText : string) : Transaction :=
  {| transaction_id := rowId; user_id := userId; type := topup;
     amount_cents := amountCents; description := Some descriptionText;
     stripe_session_id := Some stripeSessionId;
     retirement_tx_hash := None; credit_class := None;
     credits_retired := None |}.

Definition emptyDb : Db :=
  {| users := []; transactions := []; nextUserId := 1;
     nextTransactionId := 1 |}.

Definition exampleEvent : StripeEvent :=
  {| event_id := "evt_1";
     event_type := "checkout.session.completed";
     session := {| session_id := "cs_test_1"; amount_total := Some 1000;
                   customer_email := Some "alice@example.com";
                   customer_details_email := None;
                   customer := Some "cus_1" |} |}.

(** A gateway library that refuses every signature, and a body that parses
    to [exampleEvent]. *)
Definition refuseAll (payload sig secret : string) : Result StripeEvent :=
  throw (Error "No signatures found matching the expected signature for payload").

Definition parseExample (payload : string) : Result StripeEvent :=
  ok exampleEvent.

Definition showCents (cents : Z) : string := Js.toString cents.

Definition accepted200 : HttpResponse :=
  {| statusCode := 200; json := Received |}.

Definition unsignedRequest : WebhookRequest :=
  {| stripeSignature := None; body := "checkout.session.completed evt_1" |}.

(** The store after [exampleEvent] has been credited [deliveries] times to
    the user it created. *)
Definition creditedDb (deliveries : list Z) : Db :=
  {| users :=
       [{| id := 1; api_key := "rfa_key1";
           email := Some "alice@example.com";
           balance_cents := 1000 * Z.of_nat (List.length deliveries);
           stripe_customer_id := Some "cus_1" |}];
     transactions :=
       map (fun rowId =>
              topupRow rowId 1 1000 "cs_test_1" "Stripe top-up: $1000")
           deliveries;
     nextUserId := 2;
     nextTransactionId := 1 + Z.of_nat (List.length deliveries) |}.

End Webhook.

(** ** Subscription invoices: paging and pool sync
       (services/subscription/stripe.ts, pool-sync.ts) *)

Module Subscription.

Record StripeInvoice : Type := {
  id : string;
  customer : option string;
  customer_email : option string;
  subscription : option string;
  amount_paid : option Z;
  currency : option string;
  paid_at : option Z;
  linePriceId : option string
}.

Record StripeCustomer : Type := {
  customerIdOf : string;
  customerEmailOf : option string
}.

(** [StripeListResponse<StripeInvoice>]; [has_more] already through
    [Boolean(...)]. *)
Record StripeList : Type := {
  data : list StripeInvoice;
  has_more : bool
}.

Record PaidInvoice : Type := {
  invoiceId : string;
  customerId : string;
  customerEmail : option string;
  subscriptionId : option string;
  priceId : option string;
  amountPaidCents : Z;
  paidAt : string
}.

Record PaidInvoiceAcrossCustomersResult : Type := {
  invoices : list PaidInvoice;
  truncated : bool;
  hasMore : bool;
  pageCount : Z;
  maxPages : Z
}.

Section Gateway.

(** Left open: [String.prototype.toLowerCase], [localeCompare],
    [new Date(ms).toISOString()] (a RangeError outside the range of dates),
    and the gateway's answer to the [page]-th [GET /invoices] with the given
    [limit] and [starting_after]. *)
Variable toLowerCase : string -> string.
Variable localeCompare : string -> string -> Z.
Variable toISOString : Z -> Result string.
Variable getInvoices : nat -> Z -> option string -> Result StripeList.

(** An integer argument is clamped; anything else takes the default. *)
Definition clampInvoiceFetchLimit (rawLimit : option Z) : Z :=
  match rawLimit with
  | Some l => Z.min 100 (Z.max 1 l)
  | None => 100
  end.

Definition clampMaxPages (rawMaxPages : option Z) : Z :=
  match rawMaxPages with
  | Some m => Z.min 50 (Z.max 1 m)
  | None => 10
  end.

(** [a || b] on optional strings. *)
Definition orOption (a b : option string) : option string :=
  if Js.truthy a then a else b.

Definition normalizePaidInvoice (invoice : StripeInvoice)
    (fallbackCustomer : option StripeCustomer) : Result (option PaidInvoice) :=
  let currencyText :=
    toLowerCase (Js.orDefault (currency invoice) EmptyString) in
  let customerIdText :=
    orOption (customer invoice) (option_map customerIdOf fallbackCustomer) in
  match customerIdText, paid_at invoice, amount_paid invoice with
  | Some cid, Some paidAtEpoch, Some amount =>
      if Js.isEmpty cid || (paidAtEpoch =? 0) || (amount =? 0)
         || (amount <=? 0) || negb (String.eqb currencyText "usd")
      then ok None
      else
        do paidAtIso <- toISOString (paidAtEpoch * 1000) ;;
        ok (Some {| invoiceId := id invoice;
                    customerId := cid;
                    customerEmail :=
                      orOption (customer_email invoice)
                        (match fallbackCustomer with
                         | Some c => customerEmailOf c
                         | None => None
                         end);
                    subscriptionId := subscription invoice;
                    priceId := linePriceId invoice;
                    amountPaidCents := amount;
                    paidAt := paidAtIso |})
  | _, _, _ => ok None
  end.

Fixpoint keepSome (A : Type) (l : list (option A)) : list A :=
  match l with
  | [] => []
  | Some a :: r => a :: keepSome r
  | None :: r => keepSome r
  end.

(** [data.map(normalize).filter(Boolean)]. *)
Definition normalizePage (invoicesPage : list StripeInvoice)
    (fallbackCustomer : option StripeCustomer) : Result (list PaidInvoice) :=
  do normalized <-
    Js.mapR (fun invoice => normalizePaidInvoice invoice fallbackCustomer)
            invoicesPage ;;
  ok (keepSome normalized).

Definition byPaidAt (a b : PaidInvoice) : Z :=
  localeCompare (paidAt a) (paidAt b).

Record Walk : Type := {
  results : list PaidInvoice;
  walkPageCount : Z;
  walkHasMore : bool;
  reachedEnd : bool
}.

(** The [for (page = 0; page < maxPages; page += 1)] loop, [remaining] pages
    before the bound. *)
Fixpoint walkPages (remaining : nat) (page : nat) (limit : Z)
    (startingAfter : option string) (st : Walk) : Result Walk :=
  match remaining with
  | O => ok st
  | S r =>
      do invoicesPage <- getInvoices page limit startingAfter ;;
      do normalized <- normalizePage (data invoicesPage) None ;;
      let lastId := option_map id (last (map Some (data invoicesPage)) None) in
      let st' := {| results := results st ++ normalized;
                    walkPageCount := walkPageCount st + 1;
                    walkHasMore := has_more invoicesPage;
                    reachedEnd := reachedEnd st |} in
      if negb (has_more invoicesPage)
      then ok {| results := results st'; walkPageCount := walkPageCount st';
                 walkHasMore := walkHasMore st'; reachedEnd := true |}
      else if negb (Js.truthy lastId) then ok st'
      else walkPages r (S page) limit lastId st'
  end.

Definition listPaidInvoicesAcrossCustomers (rawLimit rawMaxPages : option Z)
    : Result PaidInvoiceAcrossCustomersResult :=
  let limit := clampInvoiceFetchLimit rawLimit in
  let pagesBound := clampMaxPages rawMaxPages in
  do final <- walkPages (Z.to_nat pagesBound) 0 limit None
                {| results := []; walkPageCount := 0; walkHasMore := false;
                   reachedEnd := false |} ;;
  ok {| invoices := Js.sort byPaidAt (results final);
        truncated := negb (reachedEnd final);
        hasMore := walkHasMore final;
        pageCount := walkPageCount final;
        maxPages := pagesBound |}.

End Gateway.

(** *** Pool sync *)

Record SubscriptionPoolSyncInput : Type := {
  inputCustomerId : option string;
  inputEmail : option string;
  inputUserId : option string;
  inputMonth : option string;
  inputLimit : option Z;
  inputMaxPages : option Z;
  allCustomers : bool
}.

Record ContributionInput : Type := {
  contributionUserId : option string;
  contributionEmail : option string;
  contributionCustomerId : option string;
  contributionSubscriptionId : option string;
  externalEventId : string;
  amountUsdCents : Z;
  contributedAt : string;
  tierId : option string;
  stripeInvoiceIdTag : string;
  stripePriceIdTag : string;
  syncedBy : string
}.

Record ContributionReceipt : Type := {
  recordId : string;
  recordAmountUsdCents : Z;
  recordContributedAt : string;
  duplicate : bool
}.

Record SyncedSubscriptionContribution : Type := {
  syncedInvoiceId : string;
  contributionId : string;
  duplicated : bool;
  syncedAmountUsdCents : Z;
  syncedPaidAt : string
}.

Inductive Scope : Type := customerScope | allCustomersScope.

Record SubscriptionPoolSyncResult : Type := {
  scope : Scope;
  resultCustomerId : option string;
  resultEmail : option string;
  resultMonth : option string;
  fetchedInvoiceCount : Z;
  processedInvoiceCount : Z;
  syncedCount : Z;
  duplicateCount : Z;
  skippedCount : Z;
  records : list SyncedSubscriptionContribution
}.

(** What [fetched] holds at run time: the array the single-customer listing
    returns, or the object the all-customer listing returns. *)
Inductive Fetched : Type :=
| InvoiceArray (items : list PaidInvoice)
| PagedObject (paged : PaidInvoiceAcrossCustomersResult).

Section Sync.

(** The collaborators: lower-casing, the two listings of the subscription
    service, the tier of a price, and pool accounting over its state. *)
Variable PoolState : Type.
Variable toLowerCase : string -> string.
Variable listPaidInvoices :
  option string -> option string -> option Z -> Result (list PaidInvoice).
Variable listAcrossCustomers :
  option Z -> option Z -> Result PaidInvoiceAcrossCustomersResult.
Variable getTierIdForStripePrice : option string -> option string.
Variable recordContribution :
  PoolState -> ContributionInput -> Result (PoolState * ContributionReceipt).

Definition normalize (value : option string) : option string :=
  match value with
  | Some v =>
      if Js.isEmpty v then None
      else if Js.isEmpty (Js.trim v) then None else Some (Js.trim v)
  | None => None
  end.

Definition normalizeEmail (value : option string) : option string :=
  option_map toLowerCase (normalize value).

Definition isDigit (c : ascii) : bool :=
  match Js.digitVal c with Some _ => true | None => false end.

(** [/^\d{4}-\d{2}$/.test(month)]. *)
Definition monthRegexTest (month : string) : bool :=
  match month with
  | String a (String b (String c (String d (String "-"
      (String e (String f EmptyString)))))) =>
      isDigit a && isDigit b && isDigit c && isDigit d && isDigit e
      && isDigit f
  | _ => false
  end.

Definition syncInvoice (identityEmail identityCustomerId userIdText : option string)
    (everyCustomer : bool)
    (acc : PoolState * (Z * Z * list SyncedSubscriptionContribution))
    (invoice : PaidInvoice)
    : Result (PoolState * (Z * Z * list SyncedSubscriptionContribution)) :=
  let '(pool, (synced, duplicates, recs)) := acc in
  do receipt <-
    recordContribution pool
      {| contributionUserId := userIdText;
         contributionEmail := orOption (customerEmail invoice) identityEmail;
         contributionCustomerId :=
           orOption (Some (customerId invoice)) identityCustomerId;
         contributionSubscriptionId := subscriptionId invoice;
         externalEventId := String.append "stripe_invoice:" (invoiceId invoice);
         amountUsdCents := amountPaidCents invoice;
         contributedAt := paidAt invoice;
         tierId := getTierIdForStripePrice (priceId invoice);
         stripeInvoiceIdTag := invoiceId invoice;
         stripePriceIdTag := Js.orDefault (priceId invoice) EmptyString;
         syncedBy := if everyCustomer
                     then "sync_all_subscription_pool_contributions"
                     else "sync_subscription_pool_contributions" |} ;;
  let '(pool', r) := receipt in
  ok (pool',
      (if duplicate r then synced else synced + 1,
       if duplicate r then duplicates + 1 else duplicates,
       recs ++ [{| syncedInvoiceId := invoiceId invoice;
                   contributionId := recordId r;
                   duplicated := duplicate r;
                   syncedAmountUsdCents := recordAmountUsdCents r;
                   syncedPaidAt := recordContributedAt r |}])).

(** [syncPaidInvoices]: the pool state it leaves and its outcome.  A pool
    write made before an exception stays written. *)
Definition syncPaidInvoices (pool : PoolState)
    (input : SubscriptionPoolSyncInput)
    : PoolState * Result SubscriptionPoolSyncResult :=
  let identityCustomerId := normalize (inputCustomerId input) in
  let identityEmail := normalizeEmail (inputEmail input) in
  let userIdText := normalize (inputUserId input) in
  let month := normalize (inputMonth input) in
  let everyCustomer := allCustomers input in
  if negb everyCustomer && negb (Js.truthy identityCustomerId)
     && negb (Js.truthy identityEmail)
  then (pool, throw (Error "Provide at least one of customerId or email"))
  else if match month with
          | Some m => negb (monthRegexTest m)
          | None => false
          end
  then (pool, throw (Error "month must be in YYYY-MM format"))
  else
    match (if everyCustomer
           then do r <- listAcrossCustomers (inputLimit input)
                          (inputMaxPages input) ;;
                ok (PagedObject r)
           else do l <- listPaidInvoices identityCustomerId identityEmail
                          (inputLimit input) ;;
                ok (InvoiceArray l)) with
    | inl err => (pool, inl err)
    | inr fetched =>
        (* [fetched.filter] exists on arrays only, and so does iteration *)
        match fetched with
        | PagedObject _ => (pool, throw TypeError)
        | InvoiceArray fetchedItems =>
            let selectedInvoices :=
              match month with
              | Some m =>
                  filter (fun invoice =>
                            String.eqb (Js.sliceTo 7 (paidAt invoice)) m)
                         fetchedItems
              | None => fetchedItems
              end in
            let fix loop (l : list PaidInvoice)
                  (acc : PoolState
                         * (Z * Z * list SyncedSubscriptionContribution))
                  : PoolState
                    * Result (Z * Z * list SyncedSubscriptionContribution) :=
              match l with
              | [] => (fst acc, ok (snd acc))
              | invoice :: rest =>
                  match syncInvoice identityEmail identityCustomerId
                          userIdText everyCustomer acc invoice with
                  | inl err => (fst acc, inl err)
                  | inr acc' => loop rest acc'
                  end
              end in
            let '(pool', outcome) := loop selectedInvoices (pool, (0, 0, [])) in
            (pool',
             do counts <- outcome ;;
             let '(synced, duplicates, recs) := counts in
             ok {| scope := if everyCustomer then allCustomersScope
                            else customerScope;
                   resultCustomerId :=
                     orOption
                       (orOption
                          (option_map customerId (hd_error selectedInvoices))
                          (option_map customerId (hd_error fetchedItems)))
                       identityCustomerId;
                   resultEmail :=
                     orOption
                       (orOption identityEmail
                          (match hd_error selectedInvoices with
                           | Some i => customerEmail i
                           | None => None
                           end))
                       (match hd_error fetchedItems with
                        | Some i => customerEmail i
                        | None => None
                        end);
                   resultMonth := month;
                   fetchedInvoiceCount := Z.of_nat (List.length fetchedItems);
                   processedInvoiceCount :=
                     Z.of_nat (List.length selectedInvoices);
                   syncedCount := synced;
                   duplicateCount := duplicates;
                   skippedCount :=
                     Z.of_nat (List.length fetchedItems)
                     - Z.of_nat (List.length selectedInvoices);
                   records := recs |})
        end
    end.

End Sync.

(** A gateway whose every page holds one paid invoice and announces more, the
    listing of the service over it, and pool accounting stubs for running the
    sync over that listing. *)
Definition endlessPage (page : nat) (limit : Z) (startingAfter : option string)
    : Result StripeList :=
  ok {| data := [{| id := "in_1"; customer := Some "cus_a";
                    customer_email := Some "a@example.com";
                    subscription := Some "sub_a"; amount_paid := Some 100;
                    currency := Some "usd"; paid_at := Some 1772323200;
                    linePriceId := Some "price_starter" |}];
        has_more := true |}.

Definition isoStub (ms : Z) : Result string := ok "2026-03-01T00:00:00.000Z".

Definition endlessListing (rawLimit rawMaxPages : option Z)
    : Result PaidInvoiceAcrossCustomersResult :=
  listPaidInvoicesAcrossCustomers (fun s => s) (fun _ _ => 0) isoStub
    endlessPage rawLimit rawMaxPages.

Definition noCustomerListing (customerIdText emailText : option string)
    (rawLimit : option Z) : Result (list PaidInvoice) := ok [].

Definition recordStub (pool : unit) (input : ContributionInput)
    : Result (unit * ContributionReceipt) :=
  ok (tt, {| recordId := "contrib_1";
             recordAmountUsdCents := amountUsdCents input;
             recordContributedAt := contributedAt input;
             duplicate := false |}).

Definition allCustomersInput : SubscriptionPoolSyncInput :=
  {| inputCustomerId := None; inputEmail := None; inputUserId := None;
     inputMonth := Some "2026-03"; inputLimit := None;
     inputMaxPages := Some 3; allCustomers := true |}.

Definition examplePaidInvoice (paidAtText : string) : PaidInvoice :=
  {| invoiceId := "in_1"; customerId := "cus_a";
     customerEmail := Some "a@example.com"; subscriptionId := Some "sub_a";
     priceId := Some "price_starter"; amountPaidCents := 100;
     paidAt := paidAtText |}.

(** What [endlessListing] answers when bounded to three pages. *)
Definition endlessResult : PaidInvoiceAcrossCustomersResult :=
  {| invoices := [examplePaidInvoice "2026-03-01T00:00:00.000Z";
                  examplePaidInvoice "2026-03-01T00:00:00.000Z";
                  examplePaidInvoice "2026-03-01T00:00:00.000Z"];
     truncated := true; hasMore := true; pageCount := 3; maxPages := 3 |}.

(** A customer with one invoice paid in March and one paid in April, and the
    sync of that customer for March. *)
Definition twoMonthListing (customerIdText emailText : option string)
    (rawLimit : option Z) : Result (list PaidInvoice) :=
  ok [examplePaidInvoice "2026-03-01T00:00:00.000Z";
      examplePaidInvoice "2026-04-01T00:00:00.000Z"].

Definition marchInput : SubscriptionPoolSyncInput :=
  {| inputCustomerId := Some "cus_a"; inputEmail := None;
     inputUserId := None; inputMonth := Some "2026-03"; inputLimit := None;
     inputMaxPages := None; allCustomers := false |}.

Definition marchResult : SubscriptionPoolSyncResult :=
  {| scope := customerScope; resultCustomerId := Some "cus_a";
     resultEmail := Some "a@example.com"; resultMonth := Some "2026-03";
     fetchedInvoiceCount := 2; processedInvoiceCount := 1;
     syncedCount := 1; duplicateCount := 0; skippedCount := 1;
     records := [{| syncedInvoiceId := "in_1"; contributionId := "contrib_1";
                    duplicated := false; syncedAmountUsdCents := 100;
                    syncedPaidAt := "2026-03-01T00:00:00.000Z" |}] |}.

End Subscription.

(** ** Auth sessions and recovery (services/auth/service.ts) *)

Module Auth.

Inductive Method : Type := email | oauth.

Inductive SessionStatus : Type := pending | verified | expired | locked.

(** Instants are time values in milliseconds; the store writes them as ISO
    strings, which order and read back as the same instants. *)
Record AuthSessionRecord : Type := {
  id : string;
  method : Method;
  status : SessionStatus;
  createdAt : Z;
  expiresAt : Z;
  verifiedAt : option Z;
  beneficiaryName : option string;
  beneficiaryEmail : option string;
  authProvider : option string;
  authSubject : option string;
  emailCodeHash : option string;
  oauthStateToken : option string;
  verificationAttempts : Z;
  maxVerificationAttempts : Z
}.

Record IdentityLinkRecord : Type := {
  linkUserId : string;
  linkSessionId : string;
  linkMethod : Method;
  linkBeneficiaryEmail : option string;
  linkAuthProvider : option string;
  linkAuthSubject : option string;
  linkedAt : Z
}.

Record RecoveryTokenRecord : Type := {
  recoveryId : string;
  tokenHash : string;
  sessionId : string;
  recoveryEmail : string;
  recoveryCreatedAt : Z;
  recoveryExpiresAt : Z;
  consumedAt : option Z
}.

Record AuthState : Type := {
  sessions : list AuthSessionRecord;
  links : list IdentityLinkRecord;
  recoveries : list RecoveryTokenRecord
}.

Record AuthSessionPublic : Type := {
  publicId : string;
  publicMethod : Method;
  publicStatus : SessionStatus;
  publicCreatedAt : Z;
  publicExpiresAt : Z;
  publicVerifiedAt : option Z;
  publicBeneficiaryName : option string;
  publicBeneficiaryEmail : option string;
  publicAuthProvider : option string;
  publicAuthSubject : option string;
  publicVerificationAttempts : Z;
  publicMaxVerificationAttempts : Z
}.

Record AuthServiceDeps : Type := {
  secret : string;
  sessionTtlSeconds : Z;
  recoveryTtlSeconds : Z;
  maxAttempts : Z;
  allowedOauthProviders : list string
}.

Record IdentityInput : Type := {
  inputName : option string;
  inputEmail : option string;
  inputProvider : option string;
  inputSubject : option string
}.

Definition stripSession (session : AuthSessionRecord) : AuthSessionPublic :=
  {| publicId := id session;
     publicMethod := method session;
     publicStatus := status session;
     publicCreatedAt := createdAt session;
     publicExpiresAt := expiresAt session;
     publicVerifiedAt := verifiedAt session;
     publicBeneficiaryName := beneficiaryName session;
     publicBeneficiaryEmail := beneficiaryEmail session;
     publicAuthProvider := authProvider session;
     publicAuthSubject := authSubject session;
     publicVerificationAttempts := verificationAttempts session;
     publicMaxVerificationAttempts := maxVerificationAttempts session |}.

Definition setStatus (s : SessionStatus) (session : AuthSessionRecord)
    : AuthSessionRecord :=
  {| id := id session; method := method session; status := s;
     createdAt := createdAt session; expiresAt := expiresAt session;
     verifiedAt := verifiedAt session;
     beneficiaryName := beneficiaryName session;
     beneficiaryEmail := beneficiaryEmail session;
     authProvider := authProvider session;
     authSubject := authSubject session;
     emailCodeHash := emailCodeHash session;
     oauthStateToken := oauthStateToken session;
     verificationAttempts := verificationAttempts session;
     maxVerificationAttempts := maxVerificationAttempts session |}.

Definition statusEqb (a b : SessionStatus) : bool :=
  match a, b with
  | pending, pending | verified, verified | expired, expired
  | locked, locked => true
  | _, _ => false
  end.

Definition methodEqb (a b : Method) : bool :=
  match a, b with
  | email, email | oauth, oauth => true
  | _, _ => false
  end.

(** The first element satisfying [p] replaced by its image: what mutating the
    object [find] returned does to the array. *)
Fixpoint updateFirst (A : Type) (p : A -> bool) (f : A -> A) (l : list A)
    : list A :=
  match l with
  | [] => []
  | a :: r => if p a then f a :: r else a :: updateFirst p f r
  end.

Section Service.

(** Left open: SHA-256 in hex, HMAC-SHA-256 in base64url, lower-casing, the
    email pattern, identity capture (services/identity.ts), and the oauth
    state payload with its reading ([sid], [exp]). *)
Variable sha256hex : string -> string.
Variable hmac : string -> string -> string.
Variable toLowerCase : string -> string.
Variable emailPattern : string -> bool.
Variable Identity : Type.
Variable captureIdentity : IdentityInput -> Result Identity.
Variable identityIsNone : Identity -> bool.
Variable encodeStatePayload : string -> Z -> string.
Variable decodeStatePayload : string -> Result (option string * option Z).

Variable deps : AuthServiceDeps.

Definition normalize (value : option string) : option string :=
  match value with
  | Some v =>
      if Js.isEmpty v then None
      else if Js.isEmpty (Js.trim v) then None else Some (Js.trim v)
  | None => None
  end.

(** [normalize(value)?.toLowerCase()], empty results dropped. *)
Definition normalizeEmail (value : option string) : option string :=
  match normalize value with
  | Some v => if Js.isEmpty (toLowerCase v) then None else Some (toLowerCase v)
  | None => None
  end.

Definition isExpired (now expires : Z) : bool := expires <=? now.

Definition safeEquals (a b : string) : bool := String.eqb a b.

Definition hash (value : string) : string :=
  sha256hex (String.append (secret deps) (String.append ":" value)).

Definition sign (payload : string) : string := hmac (secret deps) payload.

Definition issueOauthStateToken (sessionIdText : string) (expires : Z)
    : string :=
  let payload := encodeStatePayload sessionIdText expires in
  String.append payload (String.append "." (sign payload)).

Definition requireSession (state : AuthState) (sessionIdText : string)
    : Result AuthSessionRecord :=
  match find (fun item => String.eqb (id item) sessionIdText)
             (sessions state) with
  | Some session => ok session
  | None =>
      throw (Error (String.append "Unknown auth session: " sessionIdText))
  end.

Definition mutateSessionStatusForTime (now : Z) (session : AuthSessionRecord)
    : AuthSessionRecord :=
  if statusEqb (status session) pending && isExpired now (expiresAt session)
  then setStatus expired session
  else session.

(** The state with the session [requireSession] found replaced. *)
Definition putSession (state : AuthState) (sessionIdText : string)
    (session : AuthSessionRecord) : AuthState :=
  {| sessions := updateFirst (fun item => String.eqb (id item) sessionIdText)
                             (fun _ => session) (sessions state);
     links := links state;
     recoveries := recoveries state |}.

Definition ensureVerifiableSession (now : Z) (session : AuthSessionRecord)
    (expected : Method) : Result AuthSessionRecord :=
  let session' := mutateSessionStatusForTime now session in
  if negb (methodEqb (method session') expected)
  then throw (Error (String.append "Auth session method mismatch. Expected "
                       (String.append
                          (match expected with
                           | email => "email"
                           | oauth => "oauth"
                           end) ".")))
  else
    match status session' with
    | locked =>
        throw (Error "Auth session is locked after too many failed attempts")
    | expired => throw (Error "Auth session is expired")
    | verified => throw (Error "Auth session is already verified")
    | pending => ok session'
    end.

Definition buildIdentityFromSession (session : AuthSessionRecord)
    : Result Identity :=
  do identity <-
    captureIdentity {| inputName := beneficiaryName session;
                       inputEmail := beneficiaryEmail session;
                       inputProvider := authProvider session;
                       inputSubject := authSubject session |} ;;
  if identityIsNone identity
  then throw (Error "Verified auth session has no identity payload")
  else ok identity.

Definition pushSession (state : AuthState) (session : AuthSessionRecord)
    : AuthState :=
  {| sessions := sessions state ++ [session];
     links := links state;
     recoveries := recoveries state |}.

(** [startEmailAuth]: [freshId] and [code] are what [randomUUID] and
    [randomInt] drew. *)
Definition startEmailAuth (state : AuthState) (now : Z)
    (freshId code : string) (emailInput : string) (nameInput : option string)
    : AuthState * Result (AuthSessionPublic * string) :=
  match normalizeEmail (Some emailInput) with
  | None => (state, throw (Error "beneficiary_email must be a valid email"))
  | Some mail =>
      if negb (emailPattern mail)
      then (state, throw (Error "beneficiary_email must be a valid email"))
      else
        let session :=
          {| id := String.append "auth_" freshId; method := email;
             status := pending; createdAt := now;
             expiresAt := now + sessionTtlSeconds deps * 1000;
             verifiedAt := None;
             beneficiaryName := normalize nameInput;
             beneficiaryEmail := Some mail;
             authProvider := None; authSubject := None;
             emailCodeHash :=
               Some (hash (String.append code (String.append ":" mail)));
             oauthStateToken := None;
             verificationAttempts := 0;
             maxVerificationAttempts := maxAttempts deps |} in
        (pushSession state session, ok (stripSession session, code))
  end.

Definition isSixDigits (s : string) : bool :=
  (String.length s =? 6)%nat
  && forallb (fun c => match Js.digitVal c with
                       | Some _ => true
                       | None => false
                       end)
             (list_ascii_of_string s).

Definition withAttempt (session : AuthSessionRecord) : AuthSessionRecord :=
  let attempts := verificationAttempts session + 1 in
  {| id := id session; method := method session;
     status := if maxVerificationAttempts session <=? attempts then locked
               else status session;
     createdAt := createdAt session; expiresAt := expiresAt session;
     verifiedAt := verifiedAt session;
     beneficiaryName := beneficiaryName session;
     beneficiaryEmail := beneficiaryEmail session;
     authProvider := authProvider session;
     authSubject := authSubject session;
     emailCodeHash := emailCodeHash session;
     oauthStateToken := oauthStateToken session;
     verificationAttempts := attempts;
     maxVerificationAttempts := maxVerificationAttempts session |}.

Definition markVerified (now : Z) (subject mail : option string)
    (session : AuthSessionRecord) : AuthSessionRecord :=
  {| id := id session; method := method session; status := verified;
     createdAt := createdAt session; expiresAt := expiresAt session;
     verifiedAt := Some now;
     beneficiaryName := beneficiaryName session;
     beneficiaryEmail := match mail with
                         | Some m => Some m
                         | None => beneficiaryEmail session
                         end;
     authProvider := authProvider session;
     authSubject := match subject with
                    | Some s => Some s
                    | None => authSubject session
                    end;
     emailCodeHash := emailCodeHash session;
     oauthStateToken := oauthStateToken session;
     verificationAttempts := verificationAttempts session;
     maxVerificationAttempts := maxVerificationAttempts session |}.

Definition verifyEmailAuth (state : AuthState) (now : Z)
    (sessionIdText verificationCode : string)
    : AuthState * Result (AuthSessionPublic * Identity) :=
  match normalize (Some verificationCode) with
  | None => (state, throw (Error "verification_code must be a 6-digit code"))
  | Some code =>
      if negb (isSixDigits code)
      then (state, throw (Error "verification_code must be a 6-digit code"))
      else
        match requireSession state sessionIdText with
        | inl err => (state, inl err)
        | inr found =>
            match ensureVerifiableSession now found email with
            | inl err => (state, inl err)
            | inr session =>
                match beneficiaryEmail session, emailCodeHash session with
                | Some mail, Some stored =>
                    if Js.isEmpty mail || Js.isEmpty stored
                    then (state,
                          throw (Error
                            "Email auth session is missing challenge data"))
                    else
                      let actual :=
                        hash (String.append code (String.append ":" mail)) in
                      if negb (safeEquals actual stored)
                      then
                        (putSession state sessionIdText (withAttempt session),
                         throw (Error "Invalid verification_code"))
                      else
                        let session' := markVerified now None None session in
                        (putSession state sessionIdText session',
                         do identity <- buildIdentityFromSession session' ;;
                         ok (stripSession session', identity))
                | _, _ =>
                    (state,
                     throw (Error
                       "Email auth session is missing challenge data"))
                end
            end
        end
  end.

Definition startOAuthAuth (state : AuthState) (now : Z) (freshId : string)
    (providerInput : string) (nameInput emailInput : option string)
    : AuthState * Result (AuthSessionPublic * string) :=
  match option_map toLowerCase (normalize (Some providerInput)) with
  | None => (state, throw (Error "auth_provider is required"))
  | Some provider =>
      if Js.isEmpty provider
      then (state, throw (Error "auth_provider is required"))
      else if negb (existsb (String.eqb provider) (allowedOauthProviders deps))
      then (state,
            throw (Error
              (String.append "Unsupported auth_provider '"
                 (String.append provider
                    (String.append "'. Allowed providers: "
                       (String.concat ", " (allowedOauthProviders deps)))))))
      else
        let mail := normalizeEmail emailInput in
        if match mail with Some m => negb (emailPattern m) | None => false end
        then (state, throw (Error "beneficiary_email must be a valid email"))
        else
          let sessionIdText := String.append "auth_" freshId in
          let expires := now + sessionTtlSeconds deps * 1000 in
          let token := issueOauthStateToken sessionIdText expires in
          let session :=
            {| id := sessionIdText; method := oauth; status := pending;
               createdAt := now; expiresAt := expires; verifiedAt := None;
               beneficiaryName := normalize nameInput;
               beneficiaryEmail := mail;
               authProvider := Some provider; authSubject := None;
               emailCodeHash := None; oauthStateToken := Some token;
               verificationAttempts := 0;
               maxVerificationAttempts := maxAttempts deps |} in
          (pushSession state session, ok (stripSession session, token))
  end.

(** [token.split(".")] into its first two parts. *)
Definition validateOauthStateToken (now : Z) (session : AuthSessionRecord)
    (token : string) : Result unit :=
  let parts := Js.split "." token in
  let payload := nth 0 parts EmptyString in
  let sig := nth 1 parts EmptyString in
  if Js.isEmpty payload || Js.isEmpty sig
  then throw (Error "Invalid oauth_state_token format")
  else if negb (safeEquals sig (sign payload))
  then throw (Error "Invalid oauth_state_token signature")
  else
    do decoded <- decodeStatePayload payload ;;
    match fst decoded with
    | Some sid =>
        if Js.isEmpty sid || negb (String.eqb sid (id session))
        then throw (Error "oauth_state_token session mismatch")
        else
          match snd decoded with
          | Some exp =>
              if isExpired now exp
              then throw (Error "oauth_state_token is expired")
              else ok tt
          | None => throw (Error "oauth_state_token is expired")
          end
    | None => throw (Error "oauth_state_token session mismatch")
    end.

Definition verifyOAuthAuth (state : AuthState) (now : Z)
    (sessionIdText token providerInput subjectInput : string)
    (emailInput : option string)
    : AuthState * Result (AuthSessionPublic * Identity) :=
  let provider := option_map toLowerCase (normalize (Some providerInput)) in
  let subject := normalize (Some subjectInput) in
  let mail := normalizeEmail emailInput in
  if negb (Js.truthy provider)
  then (state, throw (Error "auth_provider is required"))
  else if negb (Js.truthy subject)
  then (state, throw (Error "auth_subject is required"))
  else if match mail with Some m => negb (emailPattern m) | None => false end
  then (state, throw (Error "beneficiary_email must be a valid email"))
  else
    match requireSession state sessionIdText with
    | inl err => (state, inl err)
    | inr found =>
        match ensureVerifiableSession now found oauth with
        | inl err => (state, inl err)
        | inr session =>
            if negb (match authProvider session, provider with
                     | Some a, Some b => String.eqb a b
                     | _, _ => false
                     end)
            then (state,
                  throw (Error
                    (String.append "OAuth provider mismatch: expected "
                       (Js.orDefault (authProvider session) "unknown"))))
            else if negb (Js.truthy (oauthStateToken session))
            then (state,
                  throw (Error "OAuth session is missing oauth_state_token"))
            else
              match validateOauthStateToken now session token with
              | inl err => (state, inl err)
              | inr _ =>
                  let session' := markVerified now subject mail session in
                  (putSession state sessionIdText session',
                   do identity <- buildIdentityFromSession session' ;;
                   ok (stripSession session', identity))
              end
        end
    end.

Definition getSession (state : AuthState) (now : Z) (sessionIdText : string)
    : AuthState * option AuthSessionPublic :=
  match find (fun item => String.eqb (id item) sessionIdText)
             (sessions state) with
  | None => (state, None)
  | Some found =>
      let session := mutateSessionStatusForTime now found in
      (putSession state sessionIdText session, Some (stripSession session))
  end.

Definition linkSessionToUser (state : AuthState) (now : Z)
    (sessionIdText userIdInput : string)
    : AuthState * Result IdentityLinkRecord :=
  match normalize (Some userIdInput) with
  | None => (state, throw (Error "user_id is required"))
  | Some userIdText =>
      match requireSession state sessionIdText with
      | inl err => (state, inl err)
      | inr found =>
          let session := mutateSessionStatusForTime now found in
          if negb (statusEqb (status session) verified)
          then (state,
                throw (Error "Auth session must be verified before linking"))
          else
            let linked :=
              {| linkUserId := userIdText;
                 linkSessionId := id session;
                 linkMethod := method session;
                 linkBeneficiaryEmail := beneficiaryEmail session;
                 linkAuthProvider := authProvider session;
                 linkAuthSubject := authSubject session;
                 linkedAt := now |} in
            let sameUser item := String.eqb (linkUserId item) userIdText in
            ({| sessions := sessions (putSession state sessionIdText session);
                links := if existsb sameUser (links state)
                         then updateFirst sameUser (fun _ => linked)
                                (links state)
                         else links state ++ [linked];
                recoveries := recoveries state |},
             ok linked)
      end
  end.

(** [b.createdAt.localeCompare(a.createdAt)]: later sessions first. *)
Definition newestFirst (a b : AuthSessionRecord) : Z :=
  if createdAt a <? createdAt b then 1
  else if createdAt b <? createdAt a then -1
  else 0.

Record StartRecoveryResult : Type := {
  recoveryToken : string;
  resultExpiresAt : Z;
  resultSessionId : string
}.

(** [startRecovery]: [freshId] and [nonce] are the two UUIDs drawn, the
    second with its dashes removed. *)
Definition startRecovery (state : AuthState) (now : Z)
    (freshId nonce : string) (emailInput : string)
    : AuthState * Result StartRecoveryResult :=
  match normalizeEmail (Some emailInput) with
  | None => (state, throw (Error "beneficiary_email must be a valid email"))
  | Some mail =>
      if negb (emailPattern mail)
      then (state, throw (Error "beneficiary_email must be a valid email"))
      else
        let verifiedSessions :=
          Js.sort newestFirst
            (filter (fun item =>
                       statusEqb (status item) verified
                       && match beneficiaryEmail item with
                          | Some e => String.eqb (toLowerCase e) mail
                          | None => false
                          end)
                    (sessions state)) in
        match verifiedSessions with
        | [] =>
            (state,
             throw (Error "No verified auth session found for this email"))
        | source :: _ =>
            let token := String.append "recover_" nonce in
            let record :=
              {| recoveryId := String.append "recovery_" freshId;
                 tokenHash := hash token;
                 sessionId := id source;
                 recoveryEmail := mail;
                 recoveryCreatedAt := now;
                 recoveryExpiresAt := now + recoveryTtlSeconds deps * 1000;
                 consumedAt := None |} in
            ({| sessions := sessions state; links := links state;
                recoveries := recoveries state ++ [record] |},
             ok {| recoveryToken := token;
                   resultExpiresAt := recoveryExpiresAt record;
                   resultSessionId := id source |})
        end
  end.

Definition consume (now : Z) (record : RecoveryTokenRecord)
    : RecoveryTokenRecord :=
  {| recoveryId := recoveryId record; tokenHash := tokenHash record;
     sessionId := sessionId record; recoveryEmail := recoveryEmail record;
     recoveryCreatedAt := recoveryCreatedAt record;
     recoveryExpiresAt := recoveryExpiresAt record;
     consumedAt := Some now |}.

Definition matchesToken (token : string) (item : RecoveryTokenRecord) : bool :=
  safeEquals (tokenHash item) (hash token).

Definition recoveredSession (now : Z) (freshId : string)
    (source : AuthSessionRecord) : AuthSessionRecord :=
  {| id := String.append "auth_" freshId;
     method := method source;
     status := verified;
     createdAt := now;
     expiresAt := now + sessionTtlSeconds deps * 1000;
     verifiedAt := Some now;
     beneficiaryName := beneficiaryName source;
     beneficiaryEmail := beneficiaryEmail source;
     authProvider := authProvider source;
     authSubject := authSubject source;
     emailCodeHash := None;
     oauthStateToken := None;
     verificationAttempts := 0;
     maxVerificationAttempts := maxAttempts deps |}.

Definition recoverWithToken (state : AuthState) (now : Z) (freshId : string)
    (tokenInput : string) : AuthState * Result AuthSessionPublic :=
  match normalize (Some tokenInput) with
  | None => (state, throw (Error "recovery_token is required"))
  | Some token =>
      match find (matchesToken token) (recoveries state) with
      | None => (state, throw (Error "Invalid recovery_token"))
      | Some recovery =>
          match consumedAt recovery with
          | Some _ =>
              (state, throw (Error "recovery_token has already been used"))
          | None =>
              if isExpired now (recoveryExpiresAt recovery)
              then (state, throw (Error "recovery_token is expired"))
              else
                match requireSession state (sessionId recovery) with
                | inl err => (state, inl err)
                | inr source =>
                    if negb (statusEqb (status source) verified)
                    then (state,
                          throw (Error
                            "Recovery source session is not verified"))
                    else
                      let recovered := recoveredSession now freshId source in
                      ({| sessions := sessions state ++ [recovered];
                          links := links state;
                          recoveries :=
                            updateFirst (matchesToken token) (consume now)
                              (recoveries state) |},
                       ok (stripSession recovered))
                end
          end
      end
  end.

Definition resolveVerifiedIdentity (state : AuthState) (now : Z)
    (sessionIdText : string) : AuthState * Result Identity :=
  match requireSession state sessionIdText with
  | inl err => (state, inl err)
  | inr found =>
      let session := mutateSessionStatusForTime now found in
      (putSession state sessionIdText session,
       if negb (statusEqb (status session) verified)
       then throw (Error "auth_session_id is not verified")
       else buildIdentityFromSession session)
  end.

(** The requests of the service, and the state each leaves behind. *)
Inductive Request : Type :=
| StartEmailAuth (freshId code emailInput : string) (nameInput : option string)
| VerifyEmailAuth (sessionIdText verificationCode : string)
| StartOAuthAuth (freshId providerInput : string)
    (nameInput emailInput : option string)
| VerifyOAuthAuth (sessionIdText token providerInput subjectInput : string)
    (emailInput : option string)
| GetSession (sessionIdText : string)
| LinkSessionToUser (sessionIdText userIdInput : string)
| StartRecovery (freshId nonce emailInput : string)
| RecoverWithToken (freshId tokenInput : string)
| ResolveVerifiedIdentity (sessionIdText : string).

Definition serve (state : AuthState) (now : Z) (request : Request)
    : AuthState :=
  match request with
  | StartEmailAuth freshId code e n =>
      fst (startEmailAuth state now freshId code e n)
  | VerifyEmailAuth s c => fst (verifyEmailAuth state now s c)
  | StartOAuthAuth freshId p n e => fst (startOAuthAuth state now freshId p n e)
  | VerifyOAuthAuth s t p sub e => fst (verifyOAuthAuth state now s t p sub e)
  | GetSession s => fst (getSession state now s)
  | LinkSessionToUser s u => fst (linkSessionToUser state now s u)
  | StartRecovery freshId nonce e => fst (startRecovery state now freshId nonce e)
  | RecoverWithToken freshId t => fst (recoverWithToken state now freshId t)
  | ResolveVerifiedIdentity s => fst (resolveVerifiedIdentity state now s)
  end.

(** The state after a sequence of requests, each at its own instant. *)
Fixpoint serveAll (state : AuthState) (requests : list (Z * Request))
    : AuthState :=
  match requests with
  | [] => state
  | (now, request) :: rest => serveAll (serve state now request) rest
  end.

End Service.

(** The first record carrying the hash has been consumed. *)
Definition spentIn (p : RecoveryTokenRecord -> bool)
    (records : list RecoveryTokenRecord) : Prop :=
  exists record, find p records = Some record /\ consumedAt record <> None.

(** A store with one verified email session and a token minted for it, under
    a stand-in for the hash. *)
Definition exampleDeps : AuthServiceDeps :=
  {| secret := "unit-test-auth-secret"; sessionTtlSeconds := 60;
     recoveryTtlSeconds := 300; maxAttempts := 2;
     allowedOauthProviders := ["google"; "github"] |}.

Definition plainHash (text : string) : string := text.

Definition exampleSession : AuthSessionRecord :=
  {| id := "auth_1"; method := email; status := verified;
     createdAt := 0; expiresAt := 60000; verifiedAt := Some 1000;
     beneficiaryName := Some "Alice";
     beneficiaryEmail := Some "alice@example.com";
     authProvider := None; authSubject := None;
     emailCodeHash := Some "h"; oauthStateToken := None;
     verificationAttempts := 1; maxVerificationAttempts := 2 |}.

Definition exampleState : AuthState :=
  fst (startRecovery plainHash (fun s => s) (fun _ => true) exampleDeps
         {| sessions := [exampleSession]; links := []; recoveries := [] |}
         2000 "r1" "abc123" "alice@example.com").

(** The session found under an id is verified. *)
Definition verifiedIn (sessionIdText : string)
    (records : list AuthSessionRecord) : Prop :=
  exists session,
    find (fun item => String.eqb (id item) sessionIdText) records
    = Some session
    /\ status session = verified.

(** A store with one pending email session whose code is 123456. *)
Definition pendingState : AuthState :=
  fst (startEmailAuth plainHash (fun s => s) (fun _ => true) exampleDeps
         {| sessions := []; links := []; recoveries := [] |}
         0 "1" "123456" "alice@example.com" None).

Definition pendingSession : AuthSessionRecord :=
  {| id := "auth_1"; method := email; status := pending;
     createdAt := 0; expiresAt := 60000; verifiedAt := None;
     beneficiaryName := None;
     beneficiaryEmail := Some "alice@example.com";
     authProvider := None; authSubject := None;
     emailCodeHash :=
       Some "unit-test-auth-secret:123456:alice@example.com";
     oauthStateToken := None;
     verificationAttempts := 0; maxVerificationAttempts := 2 |}.

(** The store [exampleState] was minted from, and what was issued. *)
Definition verifiedState : AuthState :=
  {| sessions := [exampleSession]; links := []; recoveries := [] |}.

Definition exampleIssued : StartRecoveryResult :=
  {| recoveryToken := "recover_abc123"; resultExpiresAt := 302000;
     resultSessionId := "auth_1" |}.

(** Stand-ins for the HMAC and the state payload, a store with one pending
    oauth session started under them, the token that was issued, and what
    verifying with that token answers. *)
Definition hmacStub (key payload : string) : string := "sig".

Definition encodeStub (sessionIdText : string) (expires : Z) : string :=
  sessionIdText.

Definition decodeStub (payload : string)
    : Result (option string * option Z) :=
  ok (Some payload, Some 60000).

Definition oauthState : AuthState :=
  fst (startOAuthAuth hmacStub (fun s => s) (fun _ => true) encodeStub
         exampleDeps {| sessions := []; links := []; recoveries := [] |}
         0 "1" "google" None None).

Definition oauthVerified
    : AuthState * Result (AuthSessionPublic * unit) :=
  verifyOAuthAuth hmacStub (fun s => s) (fun _ => true)
    (fun _ : IdentityInput => ok tt) (fun _ => false) decodeStub exampleDeps
    oauthState 1000 "auth_1" "auth_1.sig" " google" "sub-123" None.

Definition oauthVerifiedSession : AuthSessionPublic :=
  match snd oauthVerified with
  | inr (session, _) => session
  | inl _ => stripSession exampleSession
  end.

Definition exampleLink : IdentityLinkRecord :=
  {| linkUserId := "user-1"; linkSessionId := "auth_1"; linkMethod := email;
     linkBeneficiaryEmail := Some "alice@example.com";
     linkAuthProvider := None; linkAuthSubject := None; linkedAt := 3000 |}.

End Auth.

(** ** Identity tags in retirement reasons (services/identity.ts) *)

Module Identity.

(** The text of a reason or of an identity field: its Unicode code points. *)
Definition Text : Type := list Z.

Definition txt (s : string) : Text :=
  map (fun c => Z.of_nat (nat_of_ascii c)) (list_ascii_of_string s).

Fixpoint textEqb (a b : Text) : bool :=
  match a, b with
  | [], [] => true
  | x :: a', y :: b' => (x =? y) && textEqb a' b'
  | _, _ => false
  end.

(** White space of [trim] and of [\s]. *)
Definition isWhiteSpace (c : Z) : bool :=
  ((9 <=? c) && (c <=? 13)) || (c =? 32) || (c =? 160) || (c =? 5760)
  || ((8192 <=? c) && (c <=? 8202)) || (c =? 8232) || (c =? 8233)
  || (c =? 8239) || (c =? 8287) || (c =? 12288) || (c =? 65279).

Fixpoint trimStart (t : Text) : Text :=
  match t with
  | [] => []
  | c :: r => if isWhiteSpace c then trimStart r else t
  end.

Definition trimEnd (t : Text) : Text := rev (trimStart (rev t)).

Definition trim (t : Text) : Text := trimEnd (trimStart t).

Definition isEmptyText (t : Text) : bool :=
  match t with [] => true | _ => false end.

Definition truthyText (o : option Text) : bool :=
  match o with Some t => negb (isEmptyText t) | None => false end.

Definition normalize (value : option Text) : option Text :=
  match value with
  | Some v =>
      if isEmptyText v then None
      else if isEmptyText (trim v) then None else Some (trim v)
  | None => None
  end.

Definition isHighSurrogate (c : Z) : bool := (55296 <=? c) && (c <? 56320).

Definition isLowSurrogate (c : Z) : bool := (56320 <=? c) && (c <? 57344).

(** A scalar value: a code point that is not a surrogate. *)
Definition isScalar (c : Z) : bool :=
  ((0 <=? c) && (c <? 55296)) || ((57344 <=? c) && (c <? 1114112)).

(** The code points of a string: each in range, a surrogate only where the
    string has an unpaired one (a high one followed by a low one is the one
    code point they encode). *)
Fixpoint isString (t : Text) : bool :=
  match t with
  | [] => true
  | c :: r =>
      (0 <=? c) && (c <? 1114112)
      && negb (isHighSurrogate c
               && match r with d :: _ => isLowSurrogate d | [] => false end)
      && isString r
  end.

(** *** UTF-8 *)

(** [Buffer.from(text, "utf8")]; an unpaired surrogate becomes U+FFFD. *)
Definition utf8EncodeChar (c : Z) : list Z :=
  let c := if isScalar c then c else 65533 in
  if c <? 128 then [c]
  else if c <? 2048 then [192 + c / 64; 128 + c mod 64]
  else if c <? 65536
  then [224 + c / 4096; 128 + (c / 64) mod 64; 128 + c mod 64]
  else [240 + c / 262144; 128 + (c / 4096) mod 64; 128 + (c / 64) mod 64;
        128 + c mod 64].

Definition utf8Encode (t : Text) : list Z := flat_map utf8EncodeChar t.

Definition isContinuation (b : Z) : bool := (128 <=? b) && (b <=? 191).

(** [buffer.toString("utf8")]: every maximal ill-formed part becomes one
    U+FFFD. *)
Fixpoint utf8Decode (bytes : list Z) : Text :=
  match bytes with
  | [] => []
  | b :: r =>
      if b <? 128 then b :: utf8Decode r
      else if (194 <=? b) && (b <=? 223)
      then
        match r with
        | b1 :: r1 =>
            if isContinuation b1
            then ((b - 192) * 64 + (b1 - 128)) :: utf8Decode r1
            else 65533 :: utf8Decode r
        | [] => [65533]
        end
      else if (224 <=? b) && (b <=? 239)
      then
        match r with
        | b1 :: r1 =>
            if ((if b =? 224 then 160 else 128) <=? b1)
               && (b1 <=? (if b =? 237 then 159 else 191))
            then
              match r1 with
              | b2 :: r2 =>
                  if isContinuation b2
                  then ((b - 224) * 4096 + (b1 - 128) * 64 + (b2 - 128))
                       :: utf8Decode r2
                  else 65533 :: utf8Decode r1
              | [] => [65533]
              end
            else 65533 :: utf8Decode r
        | [] => [65533]
        end
      else if (240 <=? b) && (b <=? 244)
      then
        match r with
        | b1 :: r1 =>
            if ((if b =? 240 then 144 else 128) <=? b1)
               && (b1 <=? (if b =? 244 then 143 else 191))
            then
              match r1 with
              | b2 :: r2 =>
                  if isContinuation b2
                  then
                    match r2 with
                    | b3 :: r3 =>
                        if isContinuation b3
                        then ((b - 240) * 262144 + (b1 - 128) * 4096
                              + (b2 - 128) * 64 + (b3 - 128))
                             :: utf8Decode r3
                        else 65533 :: utf8Decode r2
                    | [] => [65533]
                    end
                  else 65533 :: utf8Decode r1
              | [] => [65533]
              end
            else 65533 :: utf8Decode r
        | [] => [65533]
        end
      else 65533 :: utf8Decode r
  end.

(** *** Base64url *)

Definition base64urlChar (v : Z) : Z :=
  if v <? 26 then 65 + v
  else if v <? 52 then 97 + (v - 26)
  else if v <? 62 then 48 + (v - 52)
  else if v =? 62 then 45
  else 95.

Definition base64urlValue (c : Z) : option Z :=
  if (65 <=? c) && (c <=? 90) then Some (c - 65)
  else if (97 <=? c) && (c <=? 122) then Some (c - 97 + 26)
  else if (48 <=? c) && (c <=? 57) then Some (c - 48 + 52)
  else if c =? 45 then Some 62
  else if c =? 95 then Some 63
  else None.

(** [buffer.toString("base64url")]: no padding. *)
Fixpoint base64urlEncode (bytes : list Z) : Text :=
  match bytes with
  | [] => []
  | [a] => [base64urlChar (a / 4); base64urlChar ((a mod 4) * 16)]
  | [a; b] =>
      [base64urlChar (a / 4);
       base64urlChar ((a mod 4) * 16 + b / 16);
       base64urlChar ((b mod 16) * 4)]
  | a :: b :: c :: r =>
      base64urlChar (a / 4)
      :: base64urlChar ((a mod 4) * 16 + b / 16)
      :: base64urlChar ((b mod 16) * 4 + c / 64)
      :: base64urlChar (c mod 64)
      :: base64urlEncode r
  end.

(** The sextets of the characters of the alphabet, up to the first
    character outside it. *)
Fixpoint sextets (t : Text) : list Z :=
  match t with
  | [] => []
  | c :: r =>
      match base64urlValue c with
      | Some v => v :: sextets r
      | None => []
      end
  end.

(** [Buffer.from(text, "base64url")] on the characters of the alphabet:
    whole bytes only, leftover bits dropped. *)
Fixpoint bytesOfSextets (s : list Z) : list Z :=
  match s with
  | a :: b :: c :: d :: r =>
      (a * 4 + b / 16) :: ((b mod 16) * 16 + c / 4) :: ((c mod 4) * 64 + d)
      :: bytesOfSextets r
  | [a; b; c] => [a * 4 + b / 16; (b mod 16) * 16 + c / 4]
  | [a; b] => [a * 4 + b / 16]
  | _ => []
  end.

Definition base64urlDecode (t : Text) : list Z := bytesOfSextets (sextets t).

(** *** JSON *)

(** A number literal: sign, the digits of integer and fraction read as one
    integer, and the power of ten that scales it. *)
Record JNumber : Type := {
  negative : bool;
  mantissa : Z;
  exponent10 : Z
}.

#[warnings="-register-all"]
Inductive JValue : Type :=
| JNull
| JBool (b : bool)
| JNum (n : JNumber)
| JStr (s : Text)
| JArr (items : list JValue)
| JObj (members : list (Text * JValue)).

(** Whether the literal denotes a Number equal to [1]: its value rounds to
    1 in binary64 exactly when it lies between 1 - 2^-54 and 1 + 2^-53. *)
Definition numberIsOne (n : JNumber) : bool :=
  negb (negative n)
  && (if 0 <=? exponent10 n
      then mantissa n * 10 ^ exponent10 n =? 1
      else
        let scale := 10 ^ (- exponent10 n) in
        ((2 ^ 54 - 1) * scale <=? mantissa n * 2 ^ 54)
        && (mantissa n * 2 ^ 53 <=? (2 ^ 53 + 1) * scale)).

(** Whether the literal denotes zero: at most 2^-1075 in magnitude. *)
Definition numberIsZero (n : JNumber) : bool :=
  (mantissa n =? 0)
  || ((exponent10 n <? 0)
      && (mantissa n * 2 ^ 1075 <=? 10 ^ (- exponent10 n))).

Definition hexChar (v : Z) : Z := if v <? 10 then 48 + v else 97 + (v - 10).

Definition hexValue (c : Z) : option Z :=
  if (48 <=? c) && (c <=? 57) then Some (c - 48)
  else if (97 <=? c) && (c <=? 102) then Some (c - 97 + 10)
  else if (65 <=? c) && (c <=? 70) then Some (c - 65 + 10)
  else None.

Definition hex4 (a b c d : Z) : option Z :=
  match hexValue a, hexValue b, hexValue c, hexValue d with
  | Some x, Some y, Some z, Some w => Some (x * 4096 + y * 256 + z * 16 + w)
  | _, _, _, _ => None
  end.

(** The escape [JSON.stringify] writes for a character of a string. *)
Definition escapeChar (c : Z) : Text :=
  if c =? 34 then [92; 34]
  else if c =? 92 then [92; 92]
  else if c =? 8 then [92; 98]
  else if c =? 12 then [92; 102]
  else if c =? 10 then [92; 110]
  else if c =? 13 then [92; 114]
  else if c =? 9 then [92; 116]
  else if (c <? 32) || ((55296 <=? c) && (c <? 57344))
  then [92; 117; hexChar (c / 4096); hexChar ((c / 256) mod 16);
        hexChar ((c / 16) mod 16); hexChar (c mod 16)]
  else [c].

Definition quote (s : Text) : Text := 34 :: flat_map escapeChar s ++ [34].

Definition simpleEscape (e : Z) : option Z :=
  if e =? 34 then Some 34
  else if e =? 92 then Some 92
  else if e =? 47 then Some 47
  else if e =? 98 then Some 8
  else if e =? 102 then Some 12
  else if e =? 110 then Some 10
  else if e =? 114 then Some 13
  else if e =? 116 then Some 9
  else None.

Definition consChar (c : Z) (r : option (Text * Text)) : option (Text * Text) :=
  match r with
  | Some (s, rest) => Some (c :: s, rest)
  | None => None
  end.

(** The characters of a string literal after its opening quote, and what
    follows the closing quote.  An escaped surrogate pair is one character. *)
Fixpoint parseStringBody (t : Text) : option (Text * Text) :=
  match t with
  | [] => None
  | c :: r =>
      if c =? 34 then Some ([], r)
      else if c =? 92
      then
        match r with
        | [] => None
        | e :: r1 =>
            if e =? 117
            then
              match r1 with
              | h1 :: h2 :: h3 :: h4 :: r2 =>
                  match hex4 h1 h2 h3 h4 with
                  | None => None
                  | Some u =>
                      match r2 with
                      | b :: e' :: l1 :: l2 :: l3 :: l4 :: r3 =>
                          match hex4 l1 l2 l3 l4 with
                          | Some lo =>
                              if (b =? 92) && (e' =? 117)
                                 && isHighSurrogate u && isLowSurrogate lo
                              then consChar
                                     (65536 + (u - 55296) * 1024 + (lo - 56320))
                                     (parseStringBody r3)
                              else consChar u (parseStringBody r2)
                          | None => consChar u (parseStringBody r2)
                          end
                      | _ => consChar u (parseStringBody r2)
                      end
                  end
              | _ => None
              end
            else
              match simpleEscape e with
              | Some ch => consChar ch (parseStringBody r1)
              | None => None
              end
        end
      else if c <? 32 then None
      else consChar c (parseStringBody r)
  end.

Definition isJsonSpace (c : Z) : bool :=
  (c =? 32) || (c =? 9) || (c =? 10) || (c =? 13).

Fixpoint skipSpace (t : Text) : Text :=
  match t with
  | [] => []
  | c :: r => if isJsonSpace c then skipSpace r else t
  end.

Definition digitOf (c : Z) : option Z :=
  if (48 <=? c) && (c <=? 57) then Some (c - 48) else None.

(** The digits at the head of [t]: their value on top of [acc], how many
    there are, and the rest. *)
Fixpoint spanDigits (t : Text) (acc : Z) (count : Z) : Z * Z * Text :=
  match t with
  | [] => (acc, count, [])
  | c :: r =>
      match digitOf c with
      | Some d => spanDigits r (10 * acc + d) (count + 1)
      | None => (acc, count, t)
      end
  end.

(** A number literal of the JSON grammar at the head of [t]. *)
Definition parseNumber (t : Text) : option (JNumber * Text) :=
  let (neg, t1) :=
    match t with
    | 45 :: r => (true, r)
    | _ => (false, t)
    end in
  let '(intValue, intCount, t2) := spanDigits t1 0 0 in
  if (intCount =? 0)
     || ((1 <? intCount) && match t1 with 48 :: _ => true | _ => false end)
  then None
  else
    let fracPart :=
      match t2 with
      | 46 :: r =>
          let '(m, fracCount, t3) := spanDigits r intValue 0 in
          if fracCount =? 0 then None else Some (m, fracCount, t3)
      | _ => Some (intValue, 0, t2)
      end in
    match fracPart with
    | None => None
    | Some (m, fracCount, t3) =>
        match t3 with
        | e :: r =>
            if (e =? 101) || (e =? 69)
            then
              let (expNeg, r1) :=
                match r with
                | 45 :: r' => (true, r')
                | 43 :: r' => (false, r')
                | _ => (false, r)
                end in
              let '(expValue, expCount, t4) := spanDigits r1 0 0 in
              if expCount =? 0 then None
              else Some ({| negative := neg; mantissa := m;
                            exponent10 :=
                              (if expNeg then - expValue else expValue)
                              - fracCount |}, t4)
            else Some ({| negative := neg; mantissa := m;
                          exponent10 := - fracCount |}, t3)
        | [] => Some ({| negative := neg; mantissa := m;
                         exponent10 := - fracCount |}, [])
        end
    end.

Fixpoint stripPrefix (p t : Text) : option Text :=
  match p, t with
  | [], _ => Some t
  | x :: p', y :: t' => if x =? y then stripPrefix p' t' else None
  | _ :: _, [] => None
  end.

(** A value of the JSON grammar at the head of [t], white space skipped;
    [fuel] bounds the nesting and the number of members. *)
Fixpoint parseValue (fuel : nat) (t : Text) : option (JValue * Text) :=
  match fuel with
  | O => None
  | S f =>
      match skipSpace t with
      | [] => None
      | c :: r =>
          if c =? 34
          then match parseStringBody r with
               | Some (s, rest) => Some (JStr s, rest)
               | None => None
               end
          else if c =? 123
          then match skipSpace r with
               | 125 :: rest => Some (JObj [], rest)
               | _ => match parseMembers f r with
                      | Some (ms, rest) => Some (JObj ms, rest)
                      | None => None
                      end
               end
          else if c =? 91
          then match skipSpace r with
               | 93 :: rest => Some (JArr [], rest)
               | _ => match parseElements f r with
                      | Some (items, rest) => Some (JArr items, rest)
                      | None => None
                      end
               end
          else
            match stripPrefix (txt "true") (c :: r) with
            | Some rest => Some (JBool true, rest)
            | None =>
                match stripPrefix (txt "false") (c :: r) with
                | Some rest => Some (JBool false, rest)
                | None =>
                    match stripPrefix (txt "null") (c :: r) with
                    | Some rest => Some (JNull, rest)
                    | None =>
                        match parseNumber (c :: r) with
                        | Some (n, rest) => Some (JNum n, rest)
                        | None => None
                        end
                    end
                end
            end
      end
  end

with parseMembers (fuel : nat) (t : Text)
    : option (list (Text * JValue) * Text) :=
  match fuel with
  | O => None
  | S f =>
      match skipSpace t with
      | 34 :: r =>
          match parseStringBody r with
          | Some (key, r1) =>
              match skipSpace r1 with
              | 58 :: r2 =>
                  match parseValue f r2 with
                  | Some (v, r3) =>
                      match skipSpace r3 with
                      | 44 :: r4 =>
                          match parseMembers f r4 with
                          | Some (ms, rest) => Some ((key, v) :: ms, rest)
                          | None => None
                          end
                      | 125 :: rest => Some ([(key, v)], rest)
                      | _ => None
                      end
                  | None => None
                  end
              | _ => None
              end
          | None => None
          end
      | _ => None
      end
  end

with parseElements (fuel : nat) (t : Text) : option (list JValue * Text) :=
  match fuel with
  | O => None
  | S f =>
      match parseValue f t with
      | Some (v, r1) =>
          match skipSpace r1 with
          | 44 :: r2 =>
              match parseElements f r2 with
              | Some (items, rest) => Some (v :: items, rest)
              | None => None
              end
          | 93 :: rest => Some ([v], rest)
          | _ => None
          end
      | None => None
      end
  end.

(** [JSON.parse(text)]: [None] is a SyntaxError. *)
Definition jsonParse (t : Text) : option JValue :=
  match parseValue (S (List.length t)) t with
  | Some (v, rest) =>
      match skipSpace rest with
      | [] => Some v
      | _ => None
      end
  | None => None
  end.

(** [object[key]]: the last member with the key wins. *)
Fixpoint getMember (key : Text) (members : list (Text * JValue))
    : option JValue :=
  match members with
  | [] => None
  | (k, v) :: r =>
      match getMember key r with
      | Some v' => Some v'
      | None => if textEqb k key then Some v else None
      end
  end.

(** *** Attribution and its tag *)

Inductive AuthMethod : Type := none | manual | email | oauth.

Record IdentityInput : Type := {
  inputBeneficiaryName : option Text;
  inputBeneficiaryEmail : option Text;
  inputAuthProvider : option Text;
  inputAuthSubject : option Text
}.

Record IdentityAttribution : Type := {
  authMethod : AuthMethod;
  beneficiaryName : option Text;
  beneficiaryEmail : option Text;
  authProvider : option Text;
  authSubject : option Text
}.

(** [EncodedIdentityV1]; its [v] is always 1. *)
Record EncodedIdentity : Type := {
  method : AuthMethod;
  name : option Text;
  encodedEmail : option Text;
  provider : option Text;
  subject : option Text
}.

Record ParsedAttributedReason : Type := {
  reasonText : Text;
  identity : option EncodedIdentity
}.

Definition notSpaceNorAt (c : Z) : bool :=
  negb (isWhiteSpace c) && negb (c =? 64).

(** [[^\s@]+\.[^\s@]+$] at the head of [t]: some dot with a character before
    it and one after it, and no white space or [@] anywhere. *)
Fixpoint domainMatches (seenBefore : bool) (t : Text) : bool :=
  match t with
  | [] => false
  | c :: r =>
      notSpaceNorAt c
      && ((seenBefore && (c =? 46) && negb (isEmptyText r)
           && forallb notSpaceNorAt r)
          || domainMatches true r)
  end.

(** [EMAIL_PATTERN.test(t)]. *)
Fixpoint emailPatternFrom (seenLocal : bool) (t : Text) : bool :=
  match t with
  | [] => false
  | c :: r =>
      if c =? 64 then seenLocal && domainMatches false r
      else negb (isWhiteSpace c) && emailPatternFrom true r
  end.

Definition emailPattern (t : Text) : bool := emailPatternFrom false t.

Section Attribution.

Variable toLowerCase : Text -> Text.

Definition normalizeEmail (value : option Text) : option Text :=
  option_map toLowerCase (normalize value).

Definition captureIdentity (input : IdentityInput) : Result IdentityAttribution :=
  let nameValue := normalize (inputBeneficiaryName input) in
  let emailValue := normalizeEmail (inputBeneficiaryEmail input) in
  let providerValue := normalize (inputAuthProvider input) in
  let subjectValue := normalize (inputAuthSubject input) in
  if match emailValue with
     | Some e => negb (isEmptyText e) && negb (emailPattern e)
     | None => false
     end
  then throw (Error "Invalid beneficiary_email format")
  else if xorb (truthyText providerValue) (truthyText subjectValue)
  then throw (Error "auth_provider and auth_subject must be provided together")
  else if truthyText providerValue && truthyText subjectValue
  then ok {| authMethod := oauth; beneficiaryName := nameValue;
             beneficiaryEmail := emailValue; authProvider := providerValue;
             authSubject := subjectValue |}
  else if truthyText emailValue
  then ok {| authMethod := email; beneficiaryName := nameValue;
             beneficiaryEmail := emailValue; authProvider := None;
             authSubject := None |}
  else if truthyText nameValue
  then ok {| authMethod := manual; beneficiaryName := nameValue;
             beneficiaryEmail := None; authProvider := None;
             authSubject := None |}
  else ok {| authMethod := none; beneficiaryName := None;
             beneficiaryEmail := None; authProvider := None;
             authSubject := None |}.

Definition methodText (m : AuthMethod) : Text :=
  match m with
  | none => txt "none"
  | manual => txt "manual"
  | email => txt "email"
  | oauth => txt "oauth"
  end.

Definition memberText (key : string) (value : option Text) : Text :=
  match value with
  | Some v =>
      if isEmptyText v then []
      else 44 :: quote (txt key) ++ 58 :: quote v
  | None => []
  end.

(** [JSON.stringify(payload)]: the members in the order they were set. *)
Definition stringifyPayload (id : IdentityAttribution) : Text :=
  123 :: quote (txt "v") ++ 58 :: 49
  :: 44 :: quote (txt "method") ++ 58 :: quote (methodText (authMethod id))
  ++ memberText "name" (beneficiaryName id)
  ++ memberText "email" (beneficiaryEmail id)
  ++ memberText "provider" (authProvider id)
  ++ memberText "subject" (authSubject id)
  ++ [125].

Definition appendIdentityToReason (baseReason : Text)
    (id : IdentityAttribution) : Text :=
  match authMethod id with
  | none => baseReason
  | _ =>
      let encoded := base64urlEncode (utf8Encode (stringifyPayload id)) in
      baseReason ++ txt " [identity:" ++ encoded ++ txt "]"
  end.

Definition isTagChar (c : Z) : bool :=
  match base64urlValue c with Some _ => true | None => false end.

(** The longest run of tag characters at the head of [t], and the rest. *)
Fixpoint spanTag (t : Text) : Text * Text :=
  match t with
  | [] => ([], [])
  | c :: r =>
      if isTagChar c then let (run, rest) := spanTag r in (c :: run, rest)
      else ([], t)
  end.

(** IDENTITY_TAG_PATTERN tried at the head of [t]: the captured group. *)
Definition matchTagAt (t : Text) : option Text :=
  match stripPrefix (txt "[identity:") (trimStart t) with
  | Some r =>
      match spanTag r with
      | (c :: run, closing :: rest) =>
          if (closing =? 93) && isEmptyText (trimStart rest)
          then Some (c :: run)
          else None
      | _ => None
      end
  | None => None
  end.

(** [text.match(IDENTITY_TAG_PATTERN)]: the leftmost match, as the text
    before it and its captured group. *)
Fixpoint matchIdentityTag (t : Text) : option (Text * Text) :=
  match matchTagAt t with
  | Some encoded => Some ([], encoded)
  | None =>
      match t with
      | [] => None
      | c :: r =>
          match matchIdentityTag r with
          | Some (before, encoded) => Some (c :: before, encoded)
          | None => None
          end
      end
  end.

Definition plainReason (rawReason : Text) : ParsedAttributedReason :=
  {| reasonText := rawReason; identity := None |}.

(** [normalize(value)] on a member of the parsed object; a truthy value
    without [trim] raises a TypeError. *)
Definition normalizeMember (value : option JValue) : Result (option Text) :=
  match value with
  | None | Some JNull | Some (JBool false) => ok None
  | Some (JStr s) => ok (normalize (Some s))
  | Some (JNum n) => if numberIsZero n then ok None else throw TypeError
  | Some (JBool true) | Some (JArr _) | Some (JObj _) => throw TypeError
  end.

Definition methodOfText (t : Text) : option AuthMethod :=
  if textEqb t (txt "manual") then Some manual
  else if textEqb t (txt "email") then Some email
  else if textEqb t (txt "oauth") then Some oauth
  else None.

Definition defaultReason : Text := txt "Ecological regeneration".

Definition parseAttributedReason (reason : option Text)
    : ParsedAttributedReason :=
  let rawReason := match normalize reason with
                   | Some r => r
                   | None => defaultReason
                   end in
  match matchIdentityTag rawReason with
  | None => plainReason rawReason
  | Some (before, encoded) =>
      match jsonParse (utf8Decode (base64urlDecode encoded)) with
      | Some (JObj members) =>
          match getMember (txt "v") members,
                getMember (txt "method") members with
          | Some (JNum v), Some (JStr m) =>
              match numberIsOne v, methodOfText m with
              | true, Some parsedMethod =>
                  match
                    (do n <- normalizeMember (getMember (txt "name") members) ;;
                     do e <- normalizeMember (getMember (txt "email") members) ;;
                     do p <- normalizeMember
                               (getMember (txt "provider") members) ;;
                     do s <- normalizeMember
                               (getMember (txt "subject") members) ;;
                     ok {| method := parsedMethod; name := n;
                           encodedEmail := option_map toLowerCase e;
                           provider := p; subject := s |})
                  with
                  | inr parsedIdentity =>
                      {| reasonText := if isEmptyText before
                                       then defaultReason else before;
                         identity := Some parsedIdentity |}
                  | inl _ => plainReason rawReason
                  end
              | _, _ => plainReason rawReason
              end
          | _, _ => plainReason rawReason
          end
      | _ => plainReason rawReason
      end
  end.

(** The identity an attribution encodes to. *)
Definition encodedOf (id : IdentityAttribution) : EncodedIdentity :=
  {| method := authMethod id; name := beneficiaryName id;
     encodedEmail := beneficiaryEmail id; provider := authProvider id;
     subject := authSubject id |}.

End Attribution.

(** *** Vocabulary of the round trip *)

(** A trimmed text that is not empty ends with a character that is not
    white space. *)
Definition endsVisibly (t : Text) : Prop :=
  exists front last, t = front ++ [last] /\ isWhiteSpace last = false.

(** The text appended after the reason. *)
Definition tagSuffix (enc : Text) : Text :=
  32 :: (txt "[identity" ++ 58 :: enc) ++ [93].

Definition isByte (b : Z) : Prop := 0 <= b < 256.

(** Whether [t] starts with the escape of a low surrogate. *)
Definition lowEscapeAhead (t : Text) : bool :=
  match t with
  | b :: e' :: l1 :: l2 :: l3 :: l4 :: _ =>
      match hex4 l1 l2 l3 l4 with
      | Some lo => (b =? 92) && (e' =? 117) && isLowSurrogate lo
      | None => false
      end
  | _ => false
  end.

Definition strings (ms : list (Text * Text)) : list (Text * JValue) :=
  map (fun m => (fst m, JStr (snd m))) ms.

Definition memberOf (m : Text * Text) : Text :=
  44 :: quote (fst m) ++ 58 :: quote (snd m).

Definition membersText (ms : list (Text * Text)) : Text :=
  flat_map memberOf ms.

Definition isStringPair (m : Text * Text) : bool :=
  isString (fst m) && isString (snd m).

Definition one : JNumber :=
  {| negative := false; mantissa := 1; exponent10 := 0 |}.

Definition optional (key : string) (value : option Text)
    : list (Text * Text) :=
  match value with
  | Some v => [(txt key, v)]
  | None => []
  end.

Definition present (id : IdentityAttribution) : list (Text * Text) :=
  optional "name" (beneficiaryName id)
  ++ optional "email" (beneficiaryEmail id)
  ++ optional "provider" (authProvider id)
  ++ optional "subject" (authSubject id).

(** A field as [captureIdentity] leaves it: absent, or the text of a
    string, trimmed and not empty. *)
Definition normalized (value : option Text) : Prop :=
  match value with
  | Some v => isString v = true /\ normalize (Some v) = Some v
  | None => True
  end.

(** Lower-casing of the letters A to Z, for running examples. *)
Definition lowerAscii (t : Text) : Text :=
  map (fun c => if (65 <=? c) && (c <=? 90) then c + 32 else c) t.

Definition exampleIdentity : IdentityAttribution :=
  {| authMethod := oauth;
     beneficiaryName := Some (txt "Alice");
     beneficiaryEmail := Some (txt "alice@example.com");
     authProvider := Some (txt "google");
     authSubject := Some (txt "sub-123") |}.

End Identity.

(** ** Charges of the card provider (services/payment/stripe.ts) *)

Module StripeCharge.

Record StripeChargeSpec : Type := {
  amountMinor : Z;
  currency : string
}.

Definition ceilDiv (dividend divisor : Z) : Result Z :=
  Js.bigDiv (dividend + divisor - 1) divisor.

(** [Number(value)] is the same integer for the values that pass. *)
Definition assertSafeNumber (value : Z) (label : string) : Result Z :=
  if Attribution.MAX_SAFE_INTEGER <? value
  then throw (Error (String.append label
                       " is too large for Stripe API numeric limits"))
  else ok value.

Section Charge.

Variable toLowerCase : string -> string.

Definition toStripeCharge (amountMicro : Z) (denom : string)
    : Result StripeChargeSpec :=
  if amountMicro <=? 0
  then throw (Error "Payment amount must be greater than zero")
  else
    let normalized := toLowerCase denom in
    if String.eqb normalized "uusdc"
    then
      do amountCents <- ceilDiv amountMicro 10000 ;;
      do minor <- assertSafeNumber amountCents "Stripe amount" ;;
      ok {| amountMinor := minor; currency := "usd" |}
    else
      throw (Error (String.append
                      "Stripe supports only uusdc-denominated retirements; received "
                      denom)).

(** [amountMinor] is an integer number, as the amounts of the provider
    are. *)
Definition fromStripeCharge (minor : Z) (currencyText : string)
    : Z * string :=
  if String.eqb (toLowerCase currencyText) "usd"
  then (minor * 10000, "uusdc")
  else (0, EmptyString).

End Charge.

End StripeCharge.

(** ** Subscription tiers (services/subscription/tiers.ts) *)

Module Tiers.

Inductive SubscriptionTierId : Type := starter | growth | impact.

Record SubscriptionTier : Type := {
  id : SubscriptionTierId;
  name : string;
  monthlyUsd : Z;
  description : string;
  stripePriceIdEnv : string
}.

Definition SUBSCRIPTION_TIERS : list SubscriptionTier :=
  [{| id := starter; name := "Starter"; monthlyUsd := 1;
      description := "Entry tier for monthly ecological contributions.";
      stripePriceIdEnv := "STRIPE_PRICE_ID_STARTER" |};
   {| id := growth; name := "Growth"; monthlyUsd := 3;
      description := "Balanced recurring contribution tier.";
      stripePriceIdEnv := "STRIPE_PRICE_ID_GROWTH" |};
   {| id := impact; name := "Impact"; monthlyUsd := 5;
      description := "Highest monthly contribution tier.";
      stripePriceIdEnv := "STRIPE_PRICE_ID_IMPACT" |}].

Definition tierEqb (a b : SubscriptionTierId) : bool :=
  match a, b with
  | starter, starter | growth, growth | impact, impact => true
  | _, _ => false
  end.

Section Environment.

(** [process.env]. *)
Variable env : string -> option string.

Definition listSubscriptionTiers : list SubscriptionTier := SUBSCRIPTION_TIERS.

Definition getSubscriptionTier (tierId : SubscriptionTierId)
    : option SubscriptionTier :=
  find (fun tier => tierEqb (id tier) tierId) SUBSCRIPTION_TIERS.

(** [process.env[name]?.trim()], kept when it is not empty. *)
Definition configuredPrice (tier : SubscriptionTier) : option string :=
  match option_map Js.trim (env (stripePriceIdEnv tier)) with
  | Some value => if Js.isEmpty value then None else Some value
  | None => None
  end.

Definition getStripePriceIdForTier (tierId : SubscriptionTierId)
    : option string :=
  match getSubscriptionTier tierId with
  | None => None
  | Some tier => configuredPrice tier
  end.

Definition getTierIdForStripePrice (priceId : option string)
    : option SubscriptionTierId :=
  match priceId with
  | None => None
  | Some p =>
      if Js.isEmpty p then None
      else
        option_map id
          (find (fun tier =>
                   match configuredPrice tier with
                   | Some configured => String.eqb configured p
                   | None => false
                   end)
                SUBSCRIPTION_TIERS)
  end.

End Environment.

(** An environment that configures the three prices. *)
Definition exampleEnv (name : string) : option string :=
  if String.eqb name "STRIPE_PRICE_ID_STARTER" then Some " price_starter "
  else if String.eqb name "STRIPE_PRICE_ID_GROWTH" then Some "price_growth"
  else if String.eqb name "STRIPE_PRICE_ID_IMPACT" then Some "price_impact"
  else None.

End Tiers.

(** ** Authenticated routes of the payment service (server/routes.ts) *)

Module PaymentApi.

Import Webhook.

(** The body of [POST /debit]: [bodyAmountCents] is [None] for a missing
    amount or one that is not a number, and an integer otherwise (amounts
    with a fraction are outside this model); the other fields are [None] when
    missing or null. *)
Record DebitBody : Type := {
  bodyAmountCents : option Z;
  bodyDescription : option string;
  bodyRetirementTxHash : option string;
  bodyCreditClass : option string;
  bodyCreditsRetired : option float
}.

Record ApiRequest : Type := {
  authorization : option string;
  debit : DebitBody
}.

Inductive ApiBody : Type :=
| ErrorJson (errorText : string)
| BalanceJson (balanceCents : Z) (balanceDollars : string)
    (emailText : option string) (topupUrl : string)
| InsufficientJson (errorText : string) (balanceCents : Z)
    (balanceDollars topupUrl : string)
| DebitedJson (balanceCents : Z) (balanceDollars : string).

Record ApiResponse : Type := {
  apiStatus : Z;
  apiJson : ApiBody
}.

(** [auth.slice(7)]. *)
Definition sliceFrom (n : nat) (s : string) : string :=
  substring n (String.length s - n) s.

(** [authenticateRequest]: the response it sends and [null], or the user. *)
Definition authenticateRequest (db : Db) (auth : option string)
    : ApiResponse + User :=
  match auth with
  | None =>
      inl {| apiStatus := 401;
             apiJson := ErrorJson
                          "Missing Authorization header. Use: Bearer <api_key>" |}
  | Some a =>
      if Js.isEmpty a || negb (Js.startsWith "Bearer " a)
      then inl {| apiStatus := 401;
                  apiJson := ErrorJson
                               "Missing Authorization header. Use: Bearer <api_key>" |}
      else
        let apiKey := Js.trim (sliceFrom 7 a) in
        match getUserByApiKey db apiKey with
        | None => inl {| apiStatus := 401;
                         apiJson := ErrorJson "Invalid API key" |}
        | Some user => inr user
        end
  end.

Section Routes.

(** [(cents / 100).toFixed(2)] and the base URL of the service. *)
Variable centsToFixed2 : Z -> string.
Variable baseUrl : string.

Definition getBalance (db : Db) (req : ApiRequest) : ApiResponse :=
  match authenticateRequest db (authorization req) with
  | inl response => response
  | inr user =>
      {| apiStatus := 200;
         apiJson := BalanceJson (balance_cents user)
                      (centsToFixed2 (balance_cents user)) (email user)
                      (String.append baseUrl "/checkout-page") |}
  end.

Definition postDebit (db : Db) (req : ApiRequest) : Db * ApiResponse :=
  match authenticateRequest db (authorization req) with
  | inl response => (db, response)
  | inr user =>
      match bodyAmountCents (debit req) with
      | None =>
          (db, {| apiStatus := 400;
                  apiJson := ErrorJson "amount_cents must be a positive number" |})
      | Some amountCents =>
          if (amountCents =? 0) || (amountCents <=? 0)
          then (db, {| apiStatus := 400;
                       apiJson := ErrorJson
                                    "amount_cents must be a positive number" |})
          else
            let '(db', result) :=
              debitBalance db (id user) amountCents
                (match bodyDescription (debit req) with
                 | Some d => d
                 | None => "Credit retirement"
                 end)
                (bodyRetirementTxHash (debit req))
                (bodyCreditClass (debit req))
                (bodyCreditsRetired (debit req)) in
            if negb (debitSuccess result)
            then (db', {| apiStatus := 402;
                          apiJson :=
                            InsufficientJson "Insufficient balance"
                              (debitBalanceCents result)
                              (centsToFixed2 (debitBalanceCents result))
                              (String.append baseUrl "/checkout-page") |})
            else (db', {| apiStatus := 200;
                          apiJson :=
                            DebitedJson (debitBalanceCents result)
                              (centsToFixed2 (debitBalanceCents result)) |})
      end
  end.

End Routes.

End PaymentApi.

(** * Properties *)

(** ** Sums, sorting and indexed updates *)

Arguments Js.sum : simpl never.
Arguments Js.digitChar : simpl never.
Arguments Js.digitVal : simpl never.
Arguments Js.isWhiteSpace : simpl never.

Lemma fold_add_shift (l : list Z) (a : Z) :
  fold_left Z.add l a = a + Js.sum l.
Proof.
  unfold Js.sum. revert a.
  induction l as [|x l IH]; intros a; simpl.
  - lia.
  - rewrite (IH (a + x)), (IH x). lia.
Qed.

Lemma sum_nil : Js.sum [] = 0.
Proof. reflexivity. Qed.

Lemma sum_cons (x : Z) (l : list Z) : Js.sum (x :: l) = x + Js.sum l.
Proof. unfold Js.sum at 1. cbn [fold_left]. rewrite fold_add_shift. lia. Qed.

Lemma sum_app (l1 l2 : list Z) : Js.sum (l1 ++ l2) = Js.sum l1 + Js.sum l2.
Proof.
  induction l1 as [|x l1 IH]; cbn [app].
  - rewrite sum_nil. lia.
  - rewrite !sum_cons, IH. lia.
Qed.

Lemma sum_permutation (l1 l2 : list Z) :
  Permutation l1 l2 -> Js.sum l1 = Js.sum l2.
Proof.
  induction 1; rewrite ?sum_cons in *; try lia.
Qed.

Lemma sum_repeat_zero (n : nat) : Js.sum (repeat 0 n) = 0.
Proof. induction n; cbn [repeat]; rewrite ?sum_nil, ?sum_cons; lia. Qed.

Lemma fold_field_sum (A : Type) (f : A -> Z) (l : list A) (a : Z) :
  fold_left (fun acc item => acc + f item) l a = a + Js.sum (map f l).
Proof.
  revert a. induction l as [|x l IH]; intros a; cbn [fold_left map].
  - rewrite sum_nil. lia.
  - rewrite IH, sum_cons. lia.
Qed.

Lemma insertSorted_permutation (A : Type) (cmp : A -> A -> Z) (x : A) (l : list A) :
  Permutation (Js.insertSorted cmp x l) (x :: l).
Proof.
  induction l as [|y l IH]; simpl.
  - apply Permutation_refl.
  - destruct (cmp x y <=? 0).
    + apply Permutation_refl.
    + eapply Permutation_trans; [apply perm_skip, IH | apply perm_swap].
Qed.

Lemma sort_permutation (A : Type) (cmp : A -> A -> Z) (l : list A) :
  Permutation (Js.sort cmp l) l.
Proof.
  induction l as [|x l IH]; simpl.
  - apply perm_nil.
  - eapply Permutation_trans; [apply insertSorted_permutation|].
    apply perm_skip, IH.
Qed.

Lemma mapiFrom_length (A B : Type) (f : A -> nat -> B) (l : list A) (k : nat) :
  List.length (Js.mapiFrom f k l) = List.length l.
Proof. revert k. induction l; intros k; simpl; auto. Qed.

Lemma mapiFrom_map (A B C : Type) (f : A -> nat -> B) (g : B -> C)
    (h : A -> C) (l : list A) (k : nat) :
  (forall a i, g (f a i) = h a) ->
  map g (Js.mapiFrom f k l) = map h l.
Proof.
  intros H. revert k. induction l as [|a l IH]; intros k; simpl.
  - reflexivity.
  - rewrite H, IH. reflexivity.
Qed.

Lemma mapiFrom_index (A B : Type) (f : A -> nat -> B) (g : B -> nat)
    (l : list A) (k : nat) :
  (forall a i, g (f a i) = i) ->
  map g (Js.mapiFrom f k l) = seq k (List.length l).
Proof.
  intros H. revert k. induction l as [|a l IH]; intros k; simpl.
  - reflexivity.
  - rewrite H, IH. reflexivity.
Qed.

Lemma setAt_length (i : nat) (v : Z) (l : list Z) :
  List.length (Js.setAt i v l) = List.length l.
Proof.
  revert i. induction l as [|x l IH]; intros [|i]; simpl; auto.
Qed.

Lemma setAt_sum (i : nat) (v : Z) (l : list Z) :
  (i < List.length l)%nat ->
  Js.sum (Js.setAt i v l) = Js.sum l - nth i l 0 + v.
Proof.
  revert i. induction l as [|x l IH]; intros [|i] Hi;
    cbn [Js.setAt nth List.length] in *; try lia.
  - rewrite !sum_cons. lia.
  - rewrite !sum_cons, IH by lia. lia.
Qed.

Lemma setAt_nth_other (i j : nat) (v : Z) (l : list Z) :
  i <> j -> nth j (Js.setAt i v l) 0 = nth j l 0.
Proof.
  revert i j. induction l as [|x l IH]; intros [|i] [|j] Hne; simpl; auto.
  congruence.
Qed.

(** ** Decimal numerals: printing and reading back *)

Lemma digitVal_digitChar (d : Z) :
  0 <= d <= 9 -> Js.digitVal (Js.digitChar d) = Some d.
Proof.
  intros H.
  assert (d = 0 \/ d = 1 \/ d = 2 \/ d = 3 \/ d = 4 \/ d = 5 \/ d = 6 \/
          d = 7 \/ d = 8 \/ d = 9) as Hd by lia.
  repeat (destruct Hd as [Hd|Hd]; [subst d; reflexivity|]).
  subst d; reflexivity.
Qed.

Lemma digitChar_not_space (d : Z) :
  0 <= d <= 9 -> Js.isWhiteSpace (Js.digitChar d) = false.
Proof.
  intros H.
  assert (d = 0 \/ d = 1 \/ d = 2 \/ d = 3 \/ d = 4 \/ d = 5 \/ d = 6 \/
          d = 7 \/ d = 8 \/ d = 9) as Hd by lia.
  repeat (destruct Hd as [Hd|Hd]; [subst d; reflexivity|]).
  subst d; reflexivity.
Qed.

Lemma digitChar_plain (d : Z) :
  0 <= d <= 9 ->
  Js.digitChar d <> "-"%char /\ Js.digitChar d <> "+"%char /\
  Js.digitChar d <> "."%char.
Proof.
  intros H.
  assert (d = 0 \/ d = 1 \/ d = 2 \/ d = 3 \/ d = 4 \/ d = 5 \/ d = 6 \/
          d = 7 \/ d = 8 \/ d = 9) as Hd by lia.
  repeat (destruct Hd as [Hd|Hd]; [subst d; repeat split; discriminate|]).
  subst d; repeat split; discriminate.
Qed.

Lemma lsdDigits_range (fuel : nat) (n : Z) :
  0 <= n -> Js.isDigits (Js.lsdDigits fuel n).
Proof.
  revert n. induction fuel as [|f IH]; intros n Hn; simpl.
  - constructor; [|constructor]. pose proof (Z.mod_pos_bound n 10). lia.
  - destruct (Z.ltb_spec n 10).
    + constructor; [lia|constructor].
    + constructor.
      * pose proof (Z.mod_pos_bound n 10). lia.
      * apply IH. apply Z.div_pos; lia.
Qed.

Lemma lsdDigits_nonempty (fuel : nat) (n : Z) : Js.lsdDigits fuel n <> [].
Proof. destruct fuel; simpl; [|destruct (n <? 10)]; discriminate. Qed.

Lemma lsdDigits_eval (fuel : nat) (n : Z) :
  0 <= n < 2 ^ Z.of_nat fuel -> Js.evalLsd (Js.lsdDigits fuel n) = n.
Proof.
  revert n. induction fuel as [|f IH]; intros n Hn.
  - simpl in *. assert (n = 0) by lia. subst. reflexivity.
  - cbn [Js.lsdDigits]. destruct (Z.ltb_spec n 10); cbn [Js.evalLsd].
    + lia.
    + rewrite IH.
      * pose proof (Z.div_mod n 10). lia.
      * rewrite Nat2Z.inj_succ, Z.pow_succ_r in Hn by lia.
        split; [apply Z.div_pos; lia|].
        apply Z.div_lt_upper_bound; lia.
Qed.

Lemma lsdDigits_length (fuel : nat) (n : Z) (k : nat) :
  0 <= n < 10 ^ Z.of_nat (S k) ->
  (List.length (Js.lsdDigits fuel n) <= S k)%nat.
Proof.
  revert n k. induction fuel as [|f IH]; intros n k Hn.
  - simpl. lia.
  - cbn [Js.lsdDigits]. destruct (Z.ltb_spec n 10); cbn [List.length].
    + lia.
    + destruct k as [|k].
      * simpl in Hn. lia.
      * apply le_n_S. apply IH.
        rewrite (Nat2Z.inj_succ (S k)), Z.pow_succ_r in Hn by lia.
        split; [apply Z.div_pos; lia|].
        apply Z.div_lt_upper_bound; lia.
Qed.

Lemma log2_fuel (n : Z) : 0 <= n -> n < 2 ^ Z.of_nat (Z.to_nat (Z.log2 n) + 1).
Proof.
  intros Hn.
  rewrite Nat2Z.inj_add, Z2Nat.id by apply Z.log2_nonneg.
  change (Z.of_nat 1) with 1.
  destruct (Z.eq_dec n 0) as [->|Hne].
  - reflexivity.
  - pose proof (Z.log2_spec n). rewrite <- Z.add_1_r in *. lia.
Qed.

Lemma parseDigits_digits (ds : list Z) (acc : Z) :
  Js.isDigits ds ->
  Js.parseDigits (Js.stringOfDigits ds) acc
  = Some (fold_left (fun a d => 10 * a + d) ds acc).
Proof.
  intros H. revert acc. induction H as [|d ds Hd _ IH]; intros acc.
  - reflexivity.
  - cbn [Js.stringOfDigits Js.parseDigits fold_left].
    rewrite (digitVal_digitChar Hd). apply IH.
Qed.

Lemma fold_digits_app (l1 l2 : list Z) (acc : Z) :
  fold_left (fun a d => 10 * a + d) (l1 ++ l2) acc
  = fold_left (fun a d => 10 * a + d) l2
      (fold_left (fun a d => 10 * a + d) l1 acc).
Proof. apply fold_left_app. Qed.

Lemma fold_digits_rev (ds : list Z) :
  fold_left (fun a d => 10 * a + d) (rev ds) 0 = Js.evalLsd ds.
Proof.
  induction ds as [|d ds IH]; cbn [rev Js.evalLsd].
  - reflexivity.
  - rewrite fold_left_app. cbn [fold_left]. rewrite IH. lia.
Qed.

Lemma stringOfDigits_app (l1 l2 : list Z) :
  Js.stringOfDigits (l1 ++ l2)
  = String.append (Js.stringOfDigits l1) (Js.stringOfDigits l2).
Proof. induction l1; simpl; congruence. Qed.

Lemma stringOfDigits_length (ds : list Z) :
  String.length (Js.stringOfDigits ds) = List.length ds.
Proof. induction ds; simpl; congruence. Qed.

Lemma isDigits_rev (ds : list Z) : Js.isDigits ds -> Js.isDigits (rev ds).
Proof. apply Forall_rev. Qed.

(** [natToString n] is the string of a non-empty list of digits whose value
    is [n]. *)
Lemma natToString_digits (n : Z) :
  0 <= n ->
  exists ds, Js.natToString n = Js.stringOfDigits ds /\ Js.isDigits ds /\
             ds <> [] /\ fold_left (fun a d => 10 * a + d) ds 0 = n.
Proof.
  intros Hn. unfold Js.natToString.
  set (fuel := (Z.to_nat (Z.log2 n) + 1)%nat).
  exists (rev (Js.lsdDigits fuel n)). repeat split.
  - apply isDigits_rev, lsdDigits_range, Hn.
  - intros Hr. apply (lsdDigits_nonempty fuel n).
    rewrite <- (rev_involutive (Js.lsdDigits fuel n)), Hr. reflexivity.
  - rewrite fold_digits_rev. apply lsdDigits_eval.
    split; [exact Hn|]. apply log2_fuel, Hn.
Qed.

Lemma natToString_length (n : Z) (k : nat) :
  0 <= n < 10 ^ Z.of_nat (S k) -> (String.length (Js.natToString n) <= S k)%nat.
Proof.
  intros Hn. unfold Js.natToString.
  rewrite stringOfDigits_length, length_rev.
  apply lsdDigits_length, Hn.
Qed.

(** Strings of digits are left alone by [trim]. *)
Lemma trimEnd_digits (ds : list Z) :
  Js.isDigits ds -> Js.trimEnd (Js.stringOfDigits ds) = Js.stringOfDigits ds.
Proof.
  induction 1 as [|d ds Hd _ IH].
  - reflexivity.
  - cbn [Js.stringOfDigits Js.trimEnd]. rewrite IH.
    destruct (Js.stringOfDigits ds) eqn:E.
    + rewrite (digitChar_not_space Hd). reflexivity.
    + reflexivity.
Qed.

Lemma trim_digits (ds : list Z) :
  Js.isDigits ds -> Js.trim (Js.stringOfDigits ds) = Js.stringOfDigits ds.
Proof.
  intros H. unfold Js.trim.
  assert (Js.trimStart (Js.stringOfDigits ds) = Js.stringOfDigits ds) as ->.
  { destruct H as [|d ds Hd _]; [reflexivity|].
    cbn [Js.stringOfDigits Js.trimStart].
    rewrite (digitChar_not_space Hd). reflexivity. }
  apply trimEnd_digits, H.
Qed.

Lemma BigInt_digits (ds : list Z) :
  Js.isDigits ds -> ds <> [] ->
  Js.BigInt (Js.stringOfDigits ds)
  = ok (fold_left (fun a d => 10 * a + d) ds 0).
Proof.
  intros H Hne. unfold Js.BigInt. rewrite (trim_digits H).
  destruct H as [|d ds Hd Hds]; [congruence|].
  pose proof (parseDigits_digits 0 (Forall_cons d Hd Hds)) as Hp.
  cbn [Js.stringOfDigits] in *.
  destruct (digitChar_plain Hd) as (Hm & Hp' & _).
  assert (Js.parseNumeral (String (Js.digitChar d) (Js.stringOfDigits ds))
          = Some (fold_left (fun a d => 10 * a + d) (d :: ds) 0)) as Hn
    by exact Hp.
  clear Hp. revert Hm Hp' Hn.
  generalize (fold_left (fun a d => 10 * a + d) (d :: ds) 0).
  generalize (Js.stringOfDigits ds). generalize (Js.digitChar d).
  intros c rest v Hm Hp' Hn.
  destruct c as [[] [] [] [] [] [] [] []];
    try (rewrite Hn; reflexivity); congruence.
Qed.

Lemma BigInt_natToString (n : Z) :
  0 <= n -> Js.BigInt (Js.natToString n) = ok n.
Proof.
  intros Hn. destruct (natToString_digits Hn) as (ds & -> & Hd & Hne & Hv).
  rewrite (BigInt_digits Hd Hne). rewrite Hv. reflexivity.
Qed.

Lemma toString_nonneg (n : Z) : 0 <= n -> Js.toString n = Js.natToString n.
Proof.
  intros Hn. unfold Js.toString. destruct (Z.ltb_spec n 0); [lia|reflexivity].
Qed.

(** Reading back what [toString] prints gives the number again. *)
Lemma BigInt_toString (z : Z) : Js.BigInt (Js.toString z) = ok z.
Proof.
  unfold Js.toString. destruct (Z.ltb_spec z 0) as [Hneg|Hpos].
  - assert (0 <= - z) as Hn by lia.
    destruct (natToString_digits Hn) as (ds & E & Hd & Hne & Hv).
    rewrite E. unfold Js.BigInt, Js.trim.
    change (Js.trimStart (String "-" (Js.stringOfDigits ds)))
      with (String "-" (Js.stringOfDigits ds)).
    cbn [Js.trimEnd]. rewrite (trimEnd_digits Hd).
    assert (Js.parseNumeral (Js.stringOfDigits ds) = Some (- z)) as Hp.
    { destruct ds as [|d ds]; [congruence|].
      unfold Js.parseNumeral. cbn [Js.stringOfDigits].
      change (String (Js.digitChar d) (Js.stringOfDigits ds))
        with (Js.stringOfDigits (d :: ds)).
      rewrite (parseDigits_digits 0 Hd), Hv. reflexivity. }
    destruct (Js.stringOfDigits ds) eqn:Es.
    + destruct ds; [congruence|discriminate].
    + rewrite Hp. unfold ok. f_equal. lia.
  - apply BigInt_natToString, Hpos.
Qed.

Lemma repeatChar_zero (k : nat) :
  Js.repeatChar k "0" = Js.stringOfDigits (repeat 0 k).
Proof.
  induction k; cbn [Js.repeatChar repeat Js.stringOfDigits].
  - reflexivity.
  - rewrite IHk. reflexivity.
Qed.

Lemma isDigits_repeat_zero (k : nat) : Js.isDigits (repeat 0 k).
Proof. induction k; constructor; [lia|assumption]. Qed.

Lemma fold_digits_leading_zeros (k : nat) (ds : list Z) :
  fold_left (fun a d => 10 * a + d) (repeat 0 k ++ ds) 0
  = fold_left (fun a d => 10 * a + d) ds 0.
Proof. induction k; cbn [repeat app fold_left]; auto. Qed.

Lemma substring_all (s : string) : substring 0 (String.length s) s = s.
Proof. induction s; cbn [String.length substring]; congruence. Qed.

Lemma append_empty_r (s : string) : String.append s EmptyString = s.
Proof. induction s; cbn [String.append]; congruence. Qed.

Lemma split_digits (ds : list Z) :
  Js.isDigits ds -> Js.split "." (Js.stringOfDigits ds) = [Js.stringOfDigits ds].
Proof.
  induction 1 as [|d ds Hd _ IH]; cbn [Js.stringOfDigits Js.split].
  - reflexivity.
  - destruct (digitChar_plain Hd) as (_ & _ & Hdot).
    destruct (Ascii.eqb_spec (Js.digitChar d) ".") as [E|_]; [contradiction|].
    rewrite IH. reflexivity.
Qed.

Lemma split_digits_dot (ds : list Z) (rest : string) :
  Js.isDigits ds ->
  Js.split "." (String.append (Js.stringOfDigits ds) (String "." rest))
  = Js.stringOfDigits ds :: Js.split "." rest.
Proof.
  induction 1 as [|d ds Hd _ IH]; cbn [Js.stringOfDigits String.append Js.split].
  - reflexivity.
  - destruct (digitChar_plain Hd) as (_ & _ & Hdot).
    destruct (Ascii.eqb_spec (Js.digitChar d) ".") as [E|_]; [contradiction|].
    rewrite IH. reflexivity.
Qed.

(** The six-digit fraction printed for a number below one million. *)
Lemma padStart_fraction (f : Z) :
  0 <= f < 1000000 ->
  exists ds, Js.padStart 6 "0" (Js.toString f) = Js.stringOfDigits ds /\
             Js.isDigits ds /\ List.length ds = 6%nat /\
             fold_left (fun a d => 10 * a + d) ds 0 = f.
Proof.
  intros Hf. rewrite toString_nonneg by lia.
  assert (0 <= f) as Hn by lia.
  destruct (natToString_digits Hn) as (ds & E & Hd & Hne & Hv).
  pose proof (@natToString_length f 5) as Hlen.
  rewrite E, stringOfDigits_length in Hlen.
  specialize (Hlen ltac:(change (10 ^ Z.of_nat 6) with 1000000; lia)).
  exists (repeat 0 (6 - List.length ds) ++ ds).
  unfold Js.padStart. rewrite E, stringOfDigits_length, repeatChar_zero.
  rewrite <- stringOfDigits_app. repeat split.
  - apply Forall_app. split; [apply isDigits_repeat_zero|exact Hd].
  - rewrite length_app, repeat_length. lia.
  - rewrite fold_digits_leading_zeros. exact Hv.
Qed.

Lemma quantity_string_parts (micro : Z) :
  0 <= micro ->
  exists ws fs,
    Attribution.microToQuantity micro
    = String.append (Js.stringOfDigits ws) (String "." (Js.stringOfDigits fs))
    /\ Js.isDigits ws /\ ws <> [] /\ Js.isDigits fs /\ List.length fs = 6%nat
    /\ fold_left (fun a d => 10 * a + d) ws 0 = micro / 1000000
    /\ fold_left (fun a d => 10 * a + d) fs 0 = micro mod 1000000.
Proof.
  intros Hm. unfold Attribution.microToQuantity, Attribution.MICRO_FACTOR.
  rewrite Z.quot_div_nonneg, Z.rem_mod_nonneg by lia.
  assert (0 <= micro / 1000000) as Hw by (apply Z.div_pos; lia).
  pose proof (Z.mod_pos_bound micro 1000000 ltac:(lia)) as Hf.
  destruct (natToString_digits Hw) as (ws & Ew & Hdw & Hnew & Hvw).
  destruct (padStart_fraction Hf) as (fs & Ef & Hdf & Hlf & Hvf).
  exists ws, fs. rewrite toString_nonneg by exact Hw. rewrite Ew, Ef.
  repeat split; assumption.
Qed.

(** [parseQuantityToMicro] inverts [microToQuantity] on non-negative
    amounts. *)
Lemma parseQuantityToMicro_microToQuantity (micro : Z) :
  0 <= micro ->
  Attribution.parseQuantityToMicro (Attribution.microToQuantity micro) = ok micro.
Proof.
  intros Hm.
  destruct (quantity_string_parts Hm)
    as (ws & fs & E & Hdw & Hnew & Hdf & Hlf & Hvw & Hvf).
  unfold Attribution.parseQuantityToMicro. rewrite E.
  rewrite (split_digits_dot _ Hdw), (split_digits Hdf).
  cbn [nth].
  assert (Js.orElse (Js.stringOfDigits ws) "0" = Js.stringOfDigits ws) as ->.
  { destruct ws; [congruence|reflexivity]. }
  rewrite (BigInt_digits Hdw Hnew). cbn [bindR].
  assert (Js.padEnd 6 "0" (Js.stringOfDigits fs) = Js.stringOfDigits fs) as ->.
  { unfold Js.padEnd. rewrite stringOfDigits_length, Hlf.
    cbn [Nat.sub Js.repeatChar]. apply append_empty_r. }
  assert (Js.sliceTo 6 (Js.stringOfDigits fs) = Js.stringOfDigits fs) as ->.
  { unfold Js.sliceTo. rewrite <- Hlf, <- stringOfDigits_length.
    apply substring_all. }
  assert (fs <> []) as Hnef by (destruct fs; [discriminate|congruence]).
  assert (Js.orElse (Js.stringOfDigits fs) "0" = Js.stringOfDigits fs) as ->.
  { destruct fs; [congruence|reflexivity]. }
  rewrite (BigInt_digits Hdf Hnef). cbn [bindR].
  rewrite Hvw, Hvf. unfold ok, Attribution.MICRO_FACTOR.
  cbn [bindR].
  rewrite (Z.mul_comm (micro / 1000000)), <- Z.div_mod by lia. reflexivity.
Qed.

(** ** Proportional allocation *)

Import Attribution.

Lemma makeEntries_index (total sumWeights : Z) (weights : list Z) :
  map index (makeEntries total sumWeights weights)
  = seq 0 (List.length weights).
Proof.
  unfold makeEntries, Js.mapi. apply mapiFrom_index. reflexivity.
Qed.

Lemma makeEntries_base (total sumWeights : Z) (weights : list Z) :
  map base (makeEntries total sumWeights weights)
  = map (fun w => Z.quot (total * w) sumWeights) weights.
Proof.
  unfold makeEntries, Js.mapi. apply mapiFrom_map. reflexivity.
Qed.

(** The floors fall short of the total by less than one unit per weight. *)
Lemma floors_shortfall (total sumWeights : Z) (weights : list Z) :
  0 <= total -> 0 < sumWeights -> Forall (fun w => 0 <= w) weights ->
  exists R,
    total * Js.sum weights
    = sumWeights * Js.sum (map (fun w => Z.quot (total * w) sumWeights) weights)
      + R
    /\ 0 <= R <= Z.of_nat (List.length weights) * (sumWeights - 1).
Proof.
  intros Ht Hs H. induction H as [|w ws Hw _ IH].
  - exists 0. cbn [map List.length]. rewrite sum_nil. lia.
  - destruct IH as (R & E & HR).
    exists (R + Z.rem (total * w) sumWeights).
    cbn [map List.length]. rewrite !sum_cons.
    assert (0 <= total * w) as Hraw by lia.
    pose proof (Z.quot_rem' (total * w) sumWeights) as Hqr.
    pose proof (Z.rem_bound_pos (total * w) sumWeights Hraw Hs) as Hb.
    rewrite Nat2Z.inj_succ. split; nia.
Qed.

Lemma distribute_index (es : list Entry) (k : Z) :
  map index (distribute es k) = map index es.
Proof.
  revert k. induction es as [|e es IH]; intros k; cbn [distribute map].
  - reflexivity.
  - destruct (0 <? k); cbn [map bump index]; [rewrite IH|]; reflexivity.
Qed.

Lemma distribute_base_sum (es : list Entry) (k : Z) :
  0 <= k <= Z.of_nat (List.length es) ->
  Js.sum (map base (distribute es k)) = Js.sum (map base es) + k.
Proof.
  revert k. induction es as [|e es IH]; intros k Hk; cbn [distribute map].
  - cbn [List.length] in Hk. rewrite sum_nil. lia.
  - destruct (Z.ltb_spec 0 k).
    + cbn [map bump base]. rewrite !sum_cons, IH.
      * lia.
      * cbn [List.length] in Hk. rewrite Nat2Z.inj_succ in Hk. lia.
    + cbn [map]. lia.
Qed.

Lemma distribute_base_nonneg (es : list Entry) (k : Z) :
  Forall (fun e => 0 <= base e) es ->
  Forall (fun e => 0 <= base e) (distribute es k).
Proof.
  intros H. revert k. induction H as [|e es He Hes IH]; intros k;
    cbn [distribute].
  - constructor.
  - destruct (0 <? k).
    + constructor; [cbn [bump base]; lia|apply IH].
    + constructor; [exact He|exact Hes].
Qed.

Lemma fold_setAt_length (es : list Entry) (res : list Z) :
  List.length
    (fold_left (fun r item => Js.setAt (index item) (base item) r) es res)
  = List.length res.
Proof.
  revert res. induction es as [|e es IH]; intros res; cbn [fold_left].
  - reflexivity.
  - rewrite IH. apply setAt_length.
Qed.

(** Writing every base at its own index of a zeroed array stores each of
    them exactly once. *)
Lemma fold_setAt_sum (es : list Entry) (res : list Z) :
  NoDup (map index es) ->
  (forall e, In e es -> (index e < List.length res)%nat) ->
  (forall e, In e es -> nth (index e) res 0 = 0) ->
  Js.sum (fold_left (fun r item => Js.setAt (index item) (base item) r) es res)
  = Js.sum res + Js.sum (map base es).
Proof.
  revert res. induction es as [|e es IH]; intros res Hnd Hlt Hz;
    cbn [fold_left map].
  - rewrite sum_nil. lia.
  - cbn [map] in Hnd. inversion Hnd as [|i l Hni Hnd']; subst.
    rewrite IH.
    + rewrite setAt_sum by (apply Hlt; left; reflexivity).
      rewrite (Hz e) by (left; reflexivity). rewrite sum_cons. lia.
    + exact Hnd'.
    + intros e' He'. rewrite setAt_length. apply Hlt. right. exact He'.
    + intros e' He'. rewrite setAt_nth_other.
      * apply Hz. right. exact He'.
      * intros Heq. apply Hni. rewrite Heq. apply in_map. exact He'.
Qed.

Lemma setAt_forall (P : Z -> Prop) (i : nat) (v : Z) (l : list Z) :
  P v -> Forall P l -> Forall P (Js.setAt i v l).
Proof.
  intros Hv H. revert i. induction H as [|x l Hx Hl IH]; intros [|i];
    cbn [Js.setAt]; constructor; auto.
Qed.

Lemma fold_setAt_forall (P : Z -> Prop) (es : list Entry) (res : list Z) :
  Forall (fun e => P (base e)) es -> Forall P res ->
  Forall P (fold_left (fun r item => Js.setAt (index item) (base item) r) es res).
Proof.
  intros H. revert res. induction H as [|e es He _ IH]; intros res Hres;
    cbn [fold_left].
  - exact Hres.
  - apply IH. apply setAt_forall; assumption.
Qed.

Lemma nth_zero_repeat (i n : nat) : nth i (repeat 0 n) 0 = 0.
Proof.
  revert i. induction n; intros [|i]; cbn [repeat nth]; auto.
Qed.

Lemma nonneg_le_sum (l : list Z) (x : Z) :
  Forall (fun y => 0 <= y) l -> In x l -> 0 <= x <= Js.sum l.
Proof.
  induction 1 as [|y l Hy Hl IH]; intros Hin; [contradiction|].
  rewrite sum_cons.
  assert (0 <= Js.sum l) as Hs.
  { clear IH Hin. induction Hl; rewrite ?sum_nil, ?sum_cons; lia. }
  destruct Hin as [->|Hin]; [lia|]. specialize (IH Hin). lia.
Qed.

(** The allocation returns, and hands out exactly the total. *)
Lemma allocate_exact (total : Z) (weights : list Z) :
  0 <= total -> Forall (fun w => 0 <= w) weights -> 0 < Js.sum weights ->
  exists allocations,
    allocateProportionally total weights = ok allocations
    /\ Js.sum allocations = total
    /\ List.length allocations = List.length weights
    /\ Forall (fun a => 0 <= a) allocations.
Proof.
  intros Ht Hw Hs. unfold allocateProportionally.
  assert (weights <> []) as Hne.
  { intros ->. rewrite sum_nil in Hs. lia. }
  destruct (Z.leb_spec total 0) as [Hle|Hpos].
  { assert (total = 0) by lia. subst total. cbn [orb].
    exists (map (fun _ => 0) weights). repeat split.
    - clear. induction weights; cbn [map]; rewrite ?sum_nil, ?sum_cons; lia.
    - apply length_map.
    - clear. induction weights; constructor; auto; lia. }
  destruct (Nat.eqb_spec (List.length weights) 0) as [Hl|_].
  { destruct weights; [congruence|discriminate]. }
  cbn [orb]. destruct (Z.leb_spec (Js.sum weights) 0) as [Hle|_]; [lia|].
  set (W := Js.sum weights).
  set (entries := makeEntries total W weights).
  rewrite (fold_field_sum base entries 0), Z.add_0_l.
  set (ru := total - Js.sum (map base entries)).
  set (bumped := distribute (Js.sort compareEntries entries) ru).
  assert (List.length entries = List.length weights) as Hlen.
  { unfold entries, makeEntries, Js.mapi. apply mapiFrom_length. }
  assert (Permutation (Js.sort compareEntries entries) entries) as Hperm
    by apply sort_permutation.
  assert (0 <= ru <= Z.of_nat (List.length weights)) as Hru.
  { destruct (@floors_shortfall total W weights) as (R & E & HR);
      [lia|lia|exact Hw|].
    unfold ru, entries. rewrite makeEntries_base.
    fold W in E. split; [nia|].
    assert (0 < Z.of_nat (List.length weights)).
    { destruct weights; [congruence|]. cbn [List.length]. lia. }
    nia. }
  assert (Js.sum (map base bumped) = total) as Hsum.
  { unfold bumped. rewrite distribute_base_sum.
    - rewrite (sum_permutation (Permutation_map base Hperm)). unfold ru. lia.
    - rewrite (Permutation_length Hperm), Hlen. exact Hru. }
  assert (Permutation (map index bumped) (seq 0 (List.length weights)))
    as Hidx.
  { unfold bumped. rewrite distribute_index.
    rewrite <- (makeEntries_index total W weights).
    apply Permutation_map, Hperm. }
  assert (Forall (fun e => 0 <= base e) bumped) as Hnn.
  { unfold bumped. apply distribute_base_nonneg.
    apply (Permutation_Forall (Permutation_sym Hperm)).
    apply Forall_forall. intros e He.
    apply (in_map base) in He. unfold entries in He.
    rewrite makeEntries_base in He. apply in_map_iff in He.
    destruct He as (w & <- & Hin).
    rewrite Forall_forall in Hw. specialize (Hw w Hin).
    apply Z.quot_pos; nia. }
  set (result := fold_left _ bumped _).
  assert (Js.sum result = total) as Hres.
  { unfold result. rewrite fold_setAt_sum.
    - rewrite sum_repeat_zero, Hsum. lia.
    - apply (Permutation_NoDup (Permutation_sym Hidx)), seq_NoDup.
    - intros e He. rewrite repeat_length.
      apply (in_map index) in He.
      apply (Permutation_in _ Hidx) in He. apply in_seq in He. lia.
    - intros e _. apply nth_zero_repeat. }
  exists result. rewrite Hres, Z.eqb_refl. repeat split.
  - unfold result. rewrite fold_setAt_length. apply repeat_length.
  - unfold result. apply fold_setAt_forall; [exact Hnn|].
    clear. induction (List.length weights); constructor; auto; lia.
Qed.

Lemma map_nth_seq_from (pre l : list Z) :
  map (fun i => nth i (pre ++ l) 0) (seq (List.length pre) (List.length l)) = l.
Proof.
  revert pre. induction l as [|x l IH]; intros pre; cbn [List.length seq map].
  - reflexivity.
  - rewrite app_nth2, Nat.sub_diag by lia. cbn [nth]. f_equal.
    specialize (IH (pre ++ [x])).
    rewrite <- app_assoc, length_app in IH. cbn [List.length app] in IH.
    rewrite Nat.add_1_r in IH. exact IH.
Qed.

Lemma map_nth_seq (l : list Z) :
  map (fun i => nth i l 0) (seq 0 (List.length l)) = l.
Proof. apply (map_nth_seq_from [] l). Qed.

Lemma mapiFrom_seq (A B C : Type) (g : A -> nat -> B) (h : B -> C)
    (h' : nat -> C) (l : list A) (k : nat) :
  (forall a i, h (g a i) = h' i) ->
  map h (Js.mapiFrom g k l) = map h' (seq k (List.length l)).
Proof.
  intros H. revert k. induction l as [|a l IH]; intros k;
    cbn [Js.mapiFrom map List.length seq].
  - reflexivity.
  - rewrite H, IH. reflexivity.
Qed.

Lemma mapR_mapiFrom_ok (A B : Type) (f : A -> nat -> Result B)
    (g : A -> nat -> B) (l : list A) (k : nat) :
  (forall j a, nth_error l j = Some a -> f a (k + j)%nat = ok (g a (k + j)%nat)) ->
  Js.mapR (fun x => x) (Js.mapiFrom f k l) = ok (Js.mapiFrom g k l).
Proof.
  revert k. induction l as [|a l IH]; intros k H; cbn [Js.mapiFrom Js.mapR].
  - reflexivity.
  - pose proof (H 0%nat a eq_refl) as H0. rewrite Nat.add_0_r in H0.
    rewrite H0. unfold ok at 1. cbn [bindR]. rewrite (IH (S k)).
    + reflexivity.
    + intros j b Hj. specialize (H (S j) b Hj).
      rewrite Nat.add_succ_r in H. exact H.
Qed.

Lemma nth_nonneg_le_sum (l : list Z) (i : nat) :
  Forall (fun y => 0 <= y) l -> (i < List.length l)%nat ->
  0 <= nth i l 0 <= Js.sum l.
Proof. intros H Hi. apply nonneg_le_sum; [exact H|]. apply nth_In, Hi. Qed.

(** With every input in range the attribution list is built, one entry per
    contributor, and each of the three totals is split exactly. *)
Lemma build_exact (input : BuildAttributionsInput) (quantityMicro : Z) :
  Forall (fun c => 0 <= totalUsdCents c) (contributors input) ->
  0 < Js.sum (map totalUsdCents (contributors input)) ->
  0 < totalContributionUsdCents input ->
  0 <= appliedBudgetUsdCents input <= MAX_SAFE_INTEGER ->
  0 <= totalCostMicro input ->
  parseQuantityToMicro (retiredQuantity input) = ok quantityMicro ->
  0 <= quantityMicro ->
  exists attributions,
    buildContributorAttributions input = ok attributions
    /\ List.length attributions = List.length (contributors input)
    /\ Js.sum (map attributedBudgetUsdCents attributions)
       = appliedBudgetUsdCents input
    /\ (exists costs,
          map (fun a => Js.BigInt (attributedCostMicro a)) attributions
          = map ok costs
          /\ Js.sum costs = totalCostMicro input)
    /\ (exists quantities,
          map (fun a => parseQuantityToMicro (attributedQuantity a)) attributions
          = map ok quantities
          /\ Js.sum quantities = quantityMicro).
Proof.
  intros Hw Hs Htot Hbudget Hcost Hq Hqn.
  unfold buildContributorAttributions.
  set (weights := map totalUsdCents (contributors input)) in *.
  assert (Forall (fun w => 0 <= w) weights) as Hwn.
  { unfold weights. apply Forall_map. exact Hw. }
  assert (List.length weights = List.length (contributors input)) as Hlw
    by apply length_map.
  destruct (Nat.eqb_spec (List.length (contributors input)) 0) as [Hl|_].
  { destruct (contributors input); [|discriminate].
    unfold weights in Hs. cbn [map] in Hs. rewrite sum_nil in Hs. lia. }
  destruct (Z.leb_spec (totalContributionUsdCents input) 0); [lia|].
  destruct (Z.leb_spec (Js.sum weights) 0); [lia|].
  rewrite Hq. unfold ok at 1. cbn [bindR].
  destruct (allocate_exact (proj1 Hbudget) Hwn Hs)
    as (bs & -> & Hbs & Hbl & Hbn).
  destruct (allocate_exact Hcost Hwn Hs) as (cs & -> & Hcs & Hcl & Hcn).
  destruct (allocate_exact Hqn Hwn Hs) as (qs & -> & Hqs & Hql & Hqnn).
  unfold ok at 1 2 3. cbn [bindR].
  destruct (Z.ltb_spec 0 (Js.sum weights)); [|lia].
  set (g := fun (contributor : MonthlyContributorAggregate) (index : nat) =>
     {| attrUserId := userId contributor;
        attrEmail := email contributor;
        attrCustomerId := customerId contributor;
        sharePpm := Z.quot (nth index weights 0 * 1000000) (Js.sum weights);
        contributionUsdCents := totalUsdCents contributor;
        attributedBudgetUsdCents := nth index bs 0;
        attributedCostMicro := Js.toString (nth index cs 0);
        attributedQuantity := microToQuantity (nth index qs 0);
        attrPaymentDenom := paymentDenom input |}).
  exists (Js.mapiFrom g 0 (contributors input)).
  split; [|split; [|split; [|split]]].
  - unfold Js.mapi. apply mapR_mapiFrom_ok. intros j a Hj.
    cbn [Nat.add].
    assert (j < List.length weights)%nat as Hjl.
    { rewrite Hlw. apply nth_error_Some. congruence. }
    unfold assertSafeInteger.
    pose proof (nth_nonneg_le_sum Hwn Hjl) as Hwj.
    assert (Z.quot (nth j weights 0 * 1000000) (Js.sum weights) <= 1000000)
      as Hshare.
    { apply Z.quot_le_upper_bound; lia. }
    destruct (Z.ltb_spec MAX_SAFE_INTEGER
                (Z.quot (nth j weights 0 * 1000000) (Js.sum weights)))
      as [Hbad|_]; [unfold MAX_SAFE_INTEGER in Hbad; lia|].
    unfold ok at 1. cbn [bindR].
    assert (j < List.length bs)%nat as Hjb by lia.
    pose proof (nth_nonneg_le_sum Hbn Hjb) as Hbj.
    destruct (Z.ltb_spec MAX_SAFE_INTEGER (nth j bs 0)) as [Hbad|_]; [lia|].
    reflexivity.
  - apply mapiFrom_length.
  - rewrite (mapiFrom_seq g attributedBudgetUsdCents (fun i => nth i bs 0))
      by reflexivity.
    rewrite <- Hlw, <- Hbl, map_nth_seq. exact Hbs.
  - exists cs. split; [|exact Hcs].
    rewrite <- (map_map attributedCostMicro Js.BigInt).
    rewrite (mapiFrom_seq g attributedCostMicro
               (fun i => Js.toString (nth i cs 0))) by reflexivity.
    rewrite map_map.
    rewrite (map_ext _ (fun i => ok (nth i cs 0)))
      by (intros i; apply BigInt_toString).
    rewrite <- (map_map (fun i => nth i cs 0) ok).
    rewrite <- Hlw, <- Hcl, map_nth_seq. reflexivity.
  - exists qs. split; [|exact Hqs].
    rewrite <- (map_map attributedQuantity parseQuantityToMicro).
    rewrite (mapiFrom_seq g attributedQuantity
               (fun i => microToQuantity (nth i qs 0))) by reflexivity.
    rewrite map_map.
    rewrite <- (map_map (fun i => nth i qs 0)
                        (fun v => parseQuantityToMicro (microToQuantity v))).
    rewrite <- Hlw, <- Hql, map_nth_seq.
    clear - Hqnn. induction Hqnn as [|v vs Hv _ IH]; cbn [map].
    + reflexivity.
    + rewrite parseQuantityToMicro_microToQuantity by exact Hv.
      rewrite IH. reflexivity.
Qed.

(** C1. [allocateProportionally] returns allocations summing exactly to the
    total for every positive total and non-empty list of non-negative weights
    with positive sum; hence every attribution list that
    [buildContributorAttributions] builds for contributors with such weights
    splits the applied budget, the total cost and the retired quantity (in
    micro-units) exactly. *)
Theorem attribution_totals_exact :
  (forall (total : Z) (weights : list Z),
      0 < total -> weights <> [] ->
      Forall (fun w => 0 <= w) weights -> 0 < Js.sum weights ->
      exists allocations,
        allocateProportionally total weights = ok allocations
        /\ Js.sum allocations = total)
  /\
  (forall (input : BuildAttributionsInput) (quantityMicro : Z),
      Forall (fun c => 0 <= totalUsdCents c) (contributors input) ->
      0 < Js.sum (map totalUsdCents (contributors input)) ->
      0 < totalContributionUsdCents input ->
      0 <= appliedBudgetUsdCents input <= MAX_SAFE_INTEGER ->
      0 <= totalCostMicro input ->
      parseQuantityToMicro (retiredQuantity input) = ok quantityMicro ->
      0 <= quantityMicro ->
      exists attributions,
        buildContributorAttributions input = ok attributions
        /\ Js.sum (map attributedBudgetUsdCents attributions)
           = appliedBudgetUsdCents input
        /\ (exists costs,
              map (fun a => Js.BigInt (attributedCostMicro a)) attributions
              = map ok costs
              /\ Js.sum costs = totalCostMicro input)
        /\ (exists quantities,
              map (fun a => parseQuantityToMicro (attributedQuantity a))
                  attributions
              = map ok quantities
              /\ Js.sum quantities = quantityMicro)).
Proof.
  split.
  - intros total weights Ht _ Hw Hs.
    destruct (@allocate_exact total weights) as (a & E & Hsum & _);
      [lia|exact Hw|exact Hs|].
    exists a. split; assumption.
  - intros input q Hw Hs Htot Hb Hc Hq Hqn.
    destruct (@build_exact input q Hw Hs Htot Hb Hc Hq Hqn)
      as (attrs & E & _ & Hbs & Hcs & Hqs).
    exists attrs. repeat split; assumption.
Qed.

Lemma attribution_totals_exact_witness :
  (exists allocations,
      allocateProportionally 2 [1; 1; 1] = ok allocations
      /\ Js.sum allocations = 2)
  /\
  (exists attributions,
      buildContributorAttributions exampleInput = ok attributions
      /\ Js.sum (map attributedBudgetUsdCents attributions) = 400
      /\ (exists costs,
            map (fun a => Js.BigInt (attributedCostMicro a)) attributions
            = map ok costs
            /\ Js.sum costs = 4000000)
      /\ (exists quantities,
            map (fun a => parseQuantityToMicro (attributedQuantity a))
                attributions
            = map ok quantities
            /\ Js.sum quantities = 2000000)).
Proof.
  split.
  - apply (proj1 attribution_totals_exact 2 [1; 1; 1]).
    + lia.
    + discriminate.
    + repeat constructor; lia.
    + vm_compute. reflexivity.
  - apply (proj2 attribution_totals_exact exampleInput 2000000).
    + repeat constructor; cbn; lia.
    + vm_compute. reflexivity.
    + vm_compute. reflexivity.
    + split; vm_compute; discriminate.
    + vm_compute. discriminate.
    + vm_compute. reflexivity.
    + lia.
Defined.

(** ** Budget-bounded order selection *)

Section SelectorFacts.

Import OrderSelector.

Variable toLowerCase : string -> string.
Variable parseFloat : string -> float.
Variable dateValue : string -> option Z.
Variable now : Z.

Lemma withinRemaining_app (remaining : Z) (l1 l2 : list BudgetSelectedOrder) :
  withinRemaining remaining l1 ->
  withinRemaining (remaining - Js.sum (map costMicro l1)) l2 ->
  withinRemaining remaining (l1 ++ l2).
Proof.
  revert remaining. induction l1 as [|o l1 IH]; intros remaining H1 H2;
    cbn [app map withinRemaining] in *.
  - rewrite sum_nil, Z.sub_0_r in H2. exact H2.
  - destruct H1 as (Hq & Hc & Hrest). repeat split; try tauto.
    apply IH; [exact Hrest|].
    rewrite sum_cons in H2.
    replace (remaining - costMicro o - Js.sum (map costMicro l1))
      with (remaining - (costMicro o + Js.sum (map costMicro l1))) by lia.
    exact H2.
Qed.

(** One iteration either leaves the state alone or selects one more order,
    charged within what remained. *)
Lemma takeFromOrder_step (st st' : LoopState) (order : SellOrder) :
  takeFromOrder parseFloat st order = ok (Some st') ->
  exists o,
    selected st' = selected st ++ [o]
    /\ withinRemaining (remainingBudget st) [o]
    /\ remainingBudget st' = remainingBudget st - costMicro o
    /\ loopCostMicro st' = loopCostMicro st + costMicro o.
Proof.
  unfold takeFromOrder.
  destruct (negb _ || _); [discriminate|].
  destruct (Js.floorFloat _) as [availableMicro|]; [|discriminate].
  destruct (availableMicro <=? 0); [discriminate|].
  destruct (Js.BigInt (ask_amount order)) as [e|price] eqn:Eprice;
    [discriminate|].
  cbn [bindR].
  destruct (price <=? 0); [discriminate|].
  set (affordable := Z.quot (remainingBudget st * MICRO_CREDITS) price).
  destruct (affordable <=? 0); [discriminate|].
  set (takeMicro := if availableMicro <? affordable then availableMicro
                    else affordable).
  destruct (takeMicro <=? 0); [discriminate|].
  set (cost := Z.quot (price * takeMicro + MICRO_CREDITS - 1) MICRO_CREDITS).
  destruct (Z.leb_spec cost 0) as [|Hpos]; [discriminate|].
  destruct (Z.ltb_spec (remainingBudget st) cost) as [|Hle]; [discriminate|].
  cbn [orb]. intros H. injection H as <-.
  eexists. cbn [selected remainingBudget loopCostMicro].
  split; [reflexivity|]. cbn [withinRemaining costMicro askAmount selectedQuantity].
  repeat split; try lia.
  exists price, takeMicro. repeat split. exact Eprice.
Qed.

Lemma selectLoop_invariant (eligible : list SellOrder) (st final : LoopState) :
  selectLoop parseFloat eligible st = ok final ->
  exists added,
    selected final = selected st ++ added
    /\ withinRemaining (remainingBudget st) added
    /\ remainingBudget final
       = remainingBudget st - Js.sum (map costMicro added)
    /\ loopCostMicro final
       = loopCostMicro st + Js.sum (map costMicro added)
    /\ (0 <= remainingBudget st -> 0 <= remainingBudget final).
Proof.
  revert st. induction eligible as [|order rest IH]; intros st H;
    cbn [selectLoop] in H.
  - injection H as <-. exists []. rewrite app_nil_r. cbn [map withinRemaining].
    rewrite sum_nil. repeat split; lia.
  - destruct (remainingBudget st <=? 0).
    + injection H as <-. exists []. rewrite app_nil_r.
      cbn [map withinRemaining]. rewrite sum_nil. repeat split; lia.
    + destruct (takeFromOrder parseFloat st order) as [e|[st'|]] eqn:Estep;
        cbn [bindR] in H; [discriminate| |apply IH, H].
      destruct (takeFromOrder_step _ _ Estep) as (o & Hsel & Hw & Hrem & Hcost).
      destruct (IH _ H) as (added & Hsel' & Hw' & Hrem' & Hcost' & Hnn).
      exists (o :: added). cbn [map]. rewrite sum_cons.
      cbn [withinRemaining] in Hw |- *.
      destruct Hw as (Hq & Hc & _).
      repeat split; try tauto; try lia.
      * rewrite Hsel', Hsel, <- app_assoc. reflexivity.
      * rewrite <- Hrem. exact Hw'.
Qed.

(** C2. Whenever [selectOrdersForBudget] returns a selection, each selected
    order is charged [ceil(price * take / 1e6)], which is at most the budget
    left when that order is selected, and the selected costs add up to at
    most [budgetMicro]. *)
Theorem selectOrdersForBudget_within_budget (ledger : Ledger)
    (creditType : option CreditType) (budgetMicro : Z)
    (preferredDenom : option string) (calls : list LedgerCall)
    (selection : BudgetOrderSelection) :
  selectOrdersForBudget toLowerCase parseFloat dateValue now ledger creditType
    budgetMicro preferredDenom = (calls, ok selection) ->
  withinRemaining budgetMicro (orders selection)
  /\ Js.sum (map costMicro (orders selection)) <= budgetMicro
  /\ totalCostMicro selection = Js.sum (map costMicro (orders selection))
  /\ remainingBudgetMicro selection
     = budgetMicro - totalCostMicro selection.
Proof.
  unfold selectOrdersForBudget.
  destruct (Z.leb_spec budgetMicro 0) as [|Hpos]; [discriminate|].
  unfold readLedger. intros H. injection H as _ H.
  destruct (listSellOrders ledger) as [|sellOrders]; [discriminate|].
  destruct (listCreditClasses ledger) as [|classes]; [discriminate|].
  destruct (getAllowedDenoms ledger) as [|allowedDenoms]; [discriminate|].
  unfold ok in H. cbn [bindR] in H. unfold selectFromReads in H.
  destruct (sortEligible _) as [|sorted]; [discriminate|].
  cbn [bindR] in H.
  destruct (selectLoop parseFloat sorted _) as [|final] eqn:Eloop;
    [discriminate|].
  unfold ok in H. cbn [bindR] in H. injection H as <-.
  destruct (selectLoop_invariant _ _ Eloop)
    as (added & Hsel & Hw & Hrem & Hcost & Hnn).
  cbn [selected remainingBudget loopCostMicro app] in *.
  cbn [orders totalCostMicro remainingBudgetMicro].
  rewrite Hsel. repeat split; try assumption; lia.
Qed.

(** C10. For a budget of zero or less [selectOrdersForBudget] raises
    "budgetMicro must be greater than zero" and performs no ledger read. *)
Theorem selectOrdersForBudget_rejects_nonpositive_budget (ledger : Ledger)
    (creditType : option CreditType) (budgetMicro : Z)
    (preferredDenom : option string) :
  budgetMicro <= 0 ->
  selectOrdersForBudget toLowerCase parseFloat dateValue now ledger creditType
    budgetMicro preferredDenom
  = ([], throw (Error "budgetMicro must be greater than zero")).
Proof.
  intros H. unfold selectOrdersForBudget.
  destruct (Z.leb_spec budgetMicro 0); [reflexivity|lia].
Qed.

End SelectorFacts.

Import OrderSelector.

(** C7, as stated: with both orders offering five credits the claimed fill
    (1.0 at cost 1000, then 1.25 at cost 2500) is not what is returned. *)
Lemma budget_scenario_claimed_fill_refuted :
  ~ (exists calls selection,
        selectScenario [scenarioOrder "first" "5" "1000";
                        scenarioOrder "second" "5" "2000"] 3500
        = (calls, ok selection)
        /\ map selectedQuantity (orders selection) = ["1.000000"; "1.250000"]
        /\ map costMicro (orders selection) = [1000; 2500]
        /\ totalCostMicro selection = 3500
        /\ totalQuantity selection = "2.250000"
        /\ remainingBudgetMicro selection = 0).
Proof.
  intros (calls & selection & H & Hq & _).
  vm_compute in H. injection H as _ <-. discriminate Hq.
Qed.

(** C7, amended. With the first order offering one credit at 1000 and the
    second five credits at 2000, a budget of 3500 takes the first order whole
    (1.000000 at cost 1000) and 1.250000 from the second at cost 2500: total
    cost 3500, total quantity 2.250000, nothing left.  With five credits on
    the first order the whole budget goes to it: 3.500000 at cost 3500. *)
Theorem budget_scenario_fill :
  selectScenario [scenarioOrder "first" "1" "1000";
                  scenarioOrder "second" "5" "2000"] 3500
  = ([ListSellOrders; ListCreditClasses; GetAllowedDenoms],
     ok (scenarioSelection
           [scenarioSelected "first" "1.000000" "1000" 1000;
            scenarioSelected "second" "1.250000" "2000" 2500]
           "2.250000" 3500 0))
  /\
  selectScenario [scenarioOrder "first" "5" "1000";
                  scenarioOrder "second" "5" "2000"] 3500
  = ([ListSellOrders; ListCreditClasses; GetAllowedDenoms],
     ok (scenarioSelection
           [scenarioSelected "first" "3.500000" "1000" 3500]
           "3.500000" 3500 0)).
Proof. split; vm_compute; reflexivity. Qed.

Lemma selectOrdersForBudget_within_budget_witness :
  let selection :=
    scenarioSelection
      [scenarioSelected "first" "1.000000" "1000" 1000;
       scenarioSelected "second" "1.250000" "2000" 2500]
      "2.250000" 3500 0 in
  withinRemaining 3500 (orders selection)
  /\ Js.sum (map costMicro (orders selection)) <= 3500
  /\ totalCostMicro selection = Js.sum (map costMicro (orders selection))
  /\ remainingBudgetMicro selection = 3500 - totalCostMicro selection.
Proof.
  intros selection.
  apply (@selectOrdersForBudget_within_budget toLowerCaseAscii
           parseFloatDecimal (fun _ => None) 0
           (scenarioLedger [scenarioOrder "first" "1" "1000";
                            scenarioOrder "second" "5" "2000"])
           (Some carbon) 3500 None
           [ListSellOrders; ListCreditClasses; GetAllowedDenoms] selection).
  vm_compute. reflexivity.
Defined.

Lemma selectOrdersForBudget_rejects_nonpositive_budget_witness :
  selectScenario [scenarioOrder "first" "1" "1000"] 0
  = ([], throw (Error "budgetMicro must be greater than zero")).
Proof.
  apply (@selectOrdersForBudget_rejects_nonpositive_budget toLowerCaseAscii
           parseFloatDecimal (fun _ => None) 0
           (scenarioLedger [scenarioOrder "first" "1" "1000"])
           (Some carbon) 0 None).
  lia.
Defined.

(** ** Retirement: no exception escapes, holds are released *)

Section RetirementFacts.

Import Retirement.

Variable toFixed : nat -> float -> string.
Variable numberToString : float -> string.
Variable parseFloat : string -> float.
Variable pow10 : Z -> float.
Variable centsToFixed2 : Z -> string.

Ltac answer w :=
  match goal with
  | |- context [w ?X ?h ?c] =>
      let o := fresh "outcome" in
      let E := fresh "Ew" in
      destruct (w X h c) as [?|o] eqn:E
  end.

Ltac reduce :=
  cbn [run bindP tryCatch await liftR refundQuietly app fst snd negb
       resOk resJson bindR].

Ltac branch :=
  match goal with
  | |- context [bindR ?x _] => destruct x eqn:?
  | |- context [liftR ?x] => destruct x eqn:?
  | |- context [if ?b then _ else _] => destruct b eqn:?
  | |- context [match ?x with inl _ => _ | inr _ => _ end] => destruct x eqn:?
  | |- context [match ?x with Some _ => _ | None => _ end] => destruct x eqn:?
  | |- context [match ?x with authorized => _ | failed => _ end] =>
      destruct x eqn:?
  end.

Ltac leaf :=
  unfold faultTolerant; cbn [fst snd]; eexists; split; [reflexivity|];
  cbn [capturesGuarded failedBroadcastHandled isCapture acceptedBroadcast
       broadcastFailure authorizationOf existsb isRefundOf orb andb
       status message fallback authId];
  repeat match goal with
         | H : negb (?c =? 0) = _ |- _ =>
             apply (f_equal negb) in H; rewrite negb_involutive in H;
             cbn [negb] in H; rewrite H
         end;
  cbn [orb andb capturesGuarded failedBroadcastHandled existsb];
  rewrite ?String.eqb_refl; cbn [orb andb];
  repeat split; try reflexivity;
  unfold broadcastFailedMessage, rejectedMessage, thrownText, logText,
    Js.messageOf, Js.orDefault, Js.orElse;
  repeat match goal with
         | |- context [match ?x with Error _ => _ | _ => _ end] => destruct x
         | |- context [match rawLog ?tx with Some _ => _ | None => _ end] =>
             destruct (rawLog tx) as [[|? ?]|]
         end;
  reflexivity.


End RetirementFacts.

Import Retirement.


(** ** Webhook receiver and prepaid balances *)

Section WebhookFacts.

Import Webhook.

Variable constructEvent : string -> string -> string -> Result StripeEvent.
Variable parseEvent : string -> Result StripeEvent.
Variable centsToFixed2 : Z -> string.

Lemma addToBalance_id (userId delta : Z) (u : User) :
  id (addToBalance userId delta u) = id u.
Proof. unfold addToBalance. destruct (id u =? userId); reflexivity. Qed.

Lemma addToBalance_email (userId delta : Z) (u : User) :
  email (addToBalance userId delta u) = email u.
Proof. unfold addToBalance. destruct (id u =? userId); reflexivity. Qed.

Lemma addToBalance_api_key (userId delta : Z) (u : User) :
  api_key (addToBalance userId delta u) = api_key u.
Proof. unfold addToBalance. destruct (id u =? userId); reflexivity. Qed.

Lemma addToBalance_other (userId delta : Z) (u : User) :
  id u <> userId -> addToBalance userId delta u = u.
Proof.
  intros H. unfold addToBalance.
  destruct (Z.eqb_spec (id u) userId); [contradiction|reflexivity].
Qed.

Lemma getUserById_addToBalance (l : list User) (userId delta : Z) :
  find (fun u => id u =? userId) (map (addToBalance userId delta) l)
  = option_map (addToBalance userId delta) (find (fun u => id u =? userId) l).
Proof.
  induction l as [|u l IH]; cbn [map find option_map].
  - reflexivity.
  - rewrite addToBalance_id. destruct (id u =? userId).
    + reflexivity.
    + exact IH.
Qed.

Lemma getUserById_other (l : list User) (userId other delta : Z) :
  other <> userId ->
  find (fun u => id u =? other) (map (addToBalance userId delta) l)
  = find (fun u => id u =? other) l.
Proof.
  intros Hne. induction l as [|u l IH]; cbn [map find].
  - reflexivity.
  - rewrite addToBalance_id.
    destruct (Z.eqb_spec (id u) other) as [E|E].
    + rewrite addToBalance_other by lia. reflexivity.
    + exact IH.
Qed.

(** [creditBalance] on a known user adds the amount to that user's balance,
    leaves every other balance alone and appends one top-up row. *)
Lemma creditBalance_effect (db : Db) (user : User) (amountCents : Z)
    (stripeSessionId descriptionText : string) :
  getUserById db (id user) = Some user ->
  exists db',
    creditBalance db (id user) amountCents stripeSessionId descriptionText
    = ok db'
    /\ balanceOf db' (id user) = Some (balance_cents user + amountCents)
    /\ (forall other, other <> id user -> balanceOf db' other = balanceOf db other)
    /\ transactions db'
       = transactions db ++
         [topupRow (nextTransactionId db) (id user) amountCents
            stripeSessionId descriptionText]
    /\ map id (users db') = map id (users db)
    /\ map email (users db') = map email (users db)
    /\ map api_key (users db') = map api_key (users db)
    /\ nextUserId db' = nextUserId db
    /\ nextTransactionId db' = nextTransactionId db + 1.
Proof.
  intros Hu. unfold creditBalance. rewrite Hu.
  eexists. split; [reflexivity|].
  unfold balanceOf, getUserById in *. cbn [users transactions nextUserId
                                         nextTransactionId].
  repeat split.
  - rewrite getUserById_addToBalance, Hu. cbn [option_map].
    unfold addToBalance. rewrite Z.eqb_refl. reflexivity.
  - intros other Hne. rewrite getUserById_other by exact Hne. reflexivity.
  - rewrite map_map. apply map_ext. intros u. apply addToBalance_id.
  - rewrite map_map. apply map_ext. intros u. apply addToBalance_email.
  - rewrite map_map. apply map_ext. intros u. apply addToBalance_api_key.
Qed.

Lemma find_some_in_first (l : list User) (p : User -> bool) (u : User) :
  find p l = Some u -> In u l /\ p u = true.
Proof. apply find_some. Qed.

Lemma getUserById_unique (db : Db) (u : User) :
  NoDup (map id (users db)) -> In u (users db) ->
  getUserById db (id u) = Some u.
Proof.
  unfold getUserById. induction (users db) as [|v l IH]; intros Hnd Hin;
    cbn [find map] in *.
  - contradiction.
  - inversion Hnd as [|x xs Hni Hnd']; subst.
    destruct Hin as [->|Hin].
    + rewrite Z.eqb_refl. reflexivity.
    + destruct (Z.eqb_spec (id v) (id u)) as [E|_].
      * exfalso. apply Hni. rewrite E. apply in_map. exact Hin.
      * apply IH; assumption.
Qed.

Lemma getUserById_fresh (l : list User) (bound : Z) :
  Forall (fun u => id u < bound) l ->
  find (fun u => id u =? bound) l = None.
Proof.
  induction 1 as [|u l Hu _ IH]; cbn [find]; [reflexivity|].
  destruct (Z.eqb_spec (id u) bound); [lia|exact IH].
Qed.

Lemma find_app_none (A : Type) (p : A -> bool) (l1 l2 : list A) :
  find p l1 = None -> find p (l1 ++ l2) = find p l2.
Proof.
  induction l1 as [|a l1 IH]; cbn [app find]; [reflexivity|].
  destruct (p a); [discriminate|exact IH].
Qed.

(** One delivery of a checkout for a known email credits that user and
    appends one top-up row; the tables stay consistent. *)
Lemma handleCheckoutCompleted_known_user (db : Db) (apiKey emailText : string)
    (checkout : CheckoutSession) (user : User) :
  consistent db ->
  emailOf checkout = Some emailText -> Js.isEmpty emailText = false ->
  getUserByEmail db emailText = Some user ->
  exists db',
    handleCheckoutCompleted centsToFixed2 db apiKey checkout = ok db'
    /\ consistent db'
    /\ balanceOf db' (id user)
       = Some (balance_cents user + amountOf checkout)
    /\ transactions db'
       = transactions db ++
         [topupRow (nextTransactionId db) (id user) (amountOf checkout)
            (session_id checkout)
            (String.append "Stripe top-up: $"
               (centsToFixed2 (amountOf checkout)))]
    /\ (exists user', getUserByEmail db' emailText = Some user'
                      /\ id user' = id user
                      /\ balance_cents user'
                         = balance_cents user + amountOf checkout)
    /\ nextTransactionId db' = nextTransactionId db + 1.
Proof.
  intros (Hnd & Hlt) He Hne Hfound.
  unfold handleCheckoutCompleted. fold (emailOf checkout).
  fold (amountOf checkout). rewrite He. cbn [Js.truthy]. rewrite Hne.
  cbn [negb]. rewrite Hfound. unfold ok at 1. cbn [bindR fst snd].
  assert (In user (users db)) as Hin.
  { unfold getUserByEmail in Hfound. apply find_some in Hfound. tauto. }
  destruct (@creditBalance_effect db user (amountOf checkout)
              (session_id checkout)
              (String.append "Stripe top-up: $"
                 (centsToFixed2 (amountOf checkout))))
    as (db' & E & Hbal & Hother & Htx & Hids & Hemails & Hkeys & Hnext & Hnt).
  { apply getUserById_unique; assumption. }
  exists db'. split; [exact E|].
  split; [|split; [exact Hbal|split; [exact Htx|split; [|exact Hnt]]]].
  - split.
    + rewrite Hids. exact Hnd.
    + rewrite Hnext. apply Forall_forall. intros u Hu.
      apply (in_map id) in Hu. rewrite Hids in Hu. apply in_map_iff in Hu.
      destruct Hu as (v & Ev & Hv). rewrite <- Ev.
      rewrite Forall_forall in Hlt. apply Hlt, Hv.
  - unfold creditBalance in E.
    rewrite (getUserById_unique db user Hnd Hin) in E.
    injection E as <-. unfold getUserByEmail in *. cbn [users].
    clear - Hfound.
    induction (users db) as [|v l IH]; cbn [find map] in *; [discriminate|].
    rewrite addToBalance_email.
    destruct (match email v with Some e => (e =? emailText)%string | None => false end).
    + injection Hfound as ->. eexists. split; [reflexivity|].
      unfold addToBalance. rewrite Z.eqb_refl. split; reflexivity.
    + apply IH, Hfound.
Qed.

(** A first delivery for an unknown email creates the user with a zero
    balance and credits it. *)
Lemma handleCheckoutCompleted_new_user (db : Db) (apiKey emailText : string)
    (checkout : CheckoutSession) :
  consistent db ->
  emailOf checkout = Some emailText -> Js.isEmpty emailText = false ->
  getUserByEmail db emailText = None ->
  getUserByApiKey db apiKey = None ->
  exists db' user',
    handleCheckoutCompleted centsToFixed2 db apiKey checkout = ok db'
    /\ consistent db'
    /\ getUserByEmail db' emailText = Some user'
    /\ id user' = nextUserId db
    /\ balance_cents user' = amountOf checkout
    /\ transactions db'
       = transactions db ++
         [topupRow (nextTransactionId db) (nextUserId db) (amountOf checkout)
            (session_id checkout)
            (String.append "Stripe top-up: $"
               (centsToFixed2 (amountOf checkout)))]
    /\ nextTransactionId db' = nextTransactionId db + 1.
Proof.
  intros (Hnd & Hlt) He Hne Hnone Hkey.
  unfold handleCheckoutCompleted. fold (emailOf checkout).
  fold (amountOf checkout). rewrite He. cbn [Js.truthy]. rewrite Hne.
  cbn [negb]. rewrite Hnone. unfold createUser. rewrite Hkey.
  unfold ok at 1. cbn [bindR fst snd id].
  unfold creditBalance, getUserById. cbn [users transactions nextUserId
                                          nextTransactionId].
  rewrite find_app_none by (apply getUserById_fresh, Hlt).
  cbn [find id]. rewrite Z.eqb_refl.
  eexists. eexists. split; [reflexivity|].
  cbn [users transactions nextUserId nextTransactionId].
  rewrite map_app. cbn [map].
  assert (map (addToBalance (nextUserId db) (amountOf checkout)) (users db)
          = users db) as Hsame.
  { clear - Hlt. induction Hlt as [|u l Hu _ IH]; cbn [map]; [reflexivity|].
    rewrite IH. unfold addToBalance.
    destruct (Z.eqb_spec (id u) (nextUserId db)); [lia|reflexivity]. }
  rewrite Hsame. unfold addToBalance. cbn [id]. rewrite Z.eqb_refl.
  split; [|split; [|split; [|split; [|split; reflexivity]]]].
  - split; cbn [users nextUserId].
    + rewrite map_app. cbn [map id]. apply NoDup_app.
      * exact Hnd.
      * constructor; [intros []|constructor].
      * intros x Hx [<-|[]]. apply in_map_iff in Hx.
        destruct Hx as (u & Eu & Hu). rewrite Forall_forall in Hlt.
        specialize (Hlt u Hu). lia.
    + apply Forall_app. split.
      * eapply Forall_impl; [|exact Hlt]. cbn beta. intros u Hu. lia.
      * constructor; [cbn [id]; lia|constructor].
  - unfold getUserByEmail in *. cbn [users].
    rewrite find_app_none by exact Hnone. cbn [find email].
    rewrite String.eqb_refl. reflexivity.
  - reflexivity.
  - cbn [balance_cents]. lia.
Qed.

Lemma postWebhook_admitted (secret : option string) (apiKey : string)
    (db : Db) (req : WebhookRequest) (event : StripeEvent) :
  admitted constructEvent parseEvent secret req event ->
  postWebhook constructEvent parseEvent centsToFixed2 secret apiKey db req
  = (do db' <-
       (if String.eqb (event_type event) "checkout.session.completed"
        then handleCheckoutCompleted centsToFixed2 db apiKey (session event)
        else ok db) ;;
     ok (db', accepted200)).
Proof.
  unfold admitted, postWebhook, Js.truthy.
  destruct secret as [s|], (stripeSignature req) as [sig|]; cbn [andb negb];
    try (intros ->; reflexivity).
  - destruct (Js.isEmpty s), (Js.isEmpty sig); cbn [andb negb];
      intros ->; reflexivity.
  - destruct (negb (Js.isEmpty s)); cbn [andb]; intros ->; reflexivity.
Qed.

(** C5, where the code departs from it: with a secret configured, a request
    that carries no signature is not rejected; its body is parsed unverified
    and handled like a verified event. *)
Theorem webhook_missing_signature_is_processed (signingSecret : string)
    (apiKey : string) (db : Db) (req : WebhookRequest) (event : StripeEvent) :
  Js.isEmpty signingSecret = false ->
  Js.truthy (stripeSignature req) = false ->
  parseEvent (body req) = ok event ->
  postWebhook constructEvent parseEvent centsToFixed2 (Some signingSecret)
    apiKey db req
  = (do db' <-
       (if String.eqb (event_type event) "checkout.session.completed"
        then handleCheckoutCompleted centsToFixed2 db apiKey (session event)
        else ok db) ;;
     ok (db', accepted200)).
Proof.
  intros Hs Hsig Hparse. apply (@postWebhook_admitted (Some signingSecret)).
  unfold admitted. destruct (stripeSignature req) as [sig|]; [|exact Hparse].
  cbn [Js.truthy] in Hsig. rewrite Hs.
  destruct (Js.isEmpty sig); [exact Hparse|discriminate].
Qed.

(** C6, amended. Every admitted delivery of a checkout-completed event with
    an email finds or creates the user of that email, adds [amount_total] to
    the balance and appends one top-up row with the checkout session id; a
    second delivery of the same event does the same again. *)
Theorem webhook_each_delivery_credits (secret : option string)
    (apiKey1 apiKey2 emailText : string) (db : Db) (req : WebhookRequest)
    (event : StripeEvent) :
  consistent db ->
  admitted constructEvent parseEvent secret req event ->
  event_type event = "checkout.session.completed" ->
  emailOf (session event) = Some emailText -> Js.isEmpty emailText = false ->
  getUserByApiKey db apiKey1 = None ->
  exists db1 db2 userId before,
    postWebhook constructEvent parseEvent centsToFixed2 secret apiKey1 db req
    = ok (db1, accepted200)
    /\ postWebhook constructEvent parseEvent centsToFixed2 secret apiKey2 db1
         req
       = ok (db2, accepted200)
    /\ before = match getUserByEmail db emailText with
                | Some u => balance_cents u
                | None => 0
                end
    /\ balanceOf db1 userId = Some (before + amountOf (session event))
    /\ balanceOf db2 userId = Some (before + 2 * amountOf (session event))
    /\ transactions db1
       = transactions db ++
         [topupRow (nextTransactionId db) userId (amountOf (session event))
            (session_id (session event))
            (String.append "Stripe top-up: $"
               (centsToFixed2 (amountOf (session event))))]
    /\ transactions db2
       = transactions db1 ++
         [topupRow (nextTransactionId db + 1) userId
            (amountOf (session event)) (session_id (session event))
            (String.append "Stripe top-up: $"
               (centsToFixed2 (amountOf (session event))))].
Proof.
  intros Hc Hadm Htype He Hne Hkey.
  assert (exists db1 user1,
             handleCheckoutCompleted centsToFixed2 db apiKey1 (session event)
             = ok db1
             /\ consistent db1
             /\ getUserByEmail db1 emailText = Some user1
             /\ balance_cents user1
                = match getUserByEmail db emailText with
                  | Some u => balance_cents u
                  | None => 0
                  end + amountOf (session event)
             /\ nextTransactionId db1 = nextTransactionId db + 1
             /\ transactions db1
                = transactions db ++
                  [topupRow (nextTransactionId db) (id user1)
                     (amountOf (session event)) (session_id (session event))
                     (String.append "Stripe top-up: $"
                        (centsToFixed2 (amountOf (session event))))])
    as (db1 & user1 & E1 & Hc1 & Hu1 & Hb1 & Hn1 & Ht1).
  { destruct (getUserByEmail db emailText) as [user|] eqn:Hfound.
    - destruct (handleCheckoutCompleted_known_user apiKey1 (session event)
                  Hc He Hne Hfound)
        as (db1 & E1 & Hc1 & _ & Ht1 & (user' & Hu' & Hid' & Hb') & Hn1).
      exists db1, user'. rewrite Hid'.
      destruct Hc1 as (Hnd1 & Hlt1).
      repeat split; try assumption; try (rewrite Hb'; reflexivity).
    - destruct (@handleCheckoutCompleted_new_user db apiKey1 emailText
                  (session event) Hc He Hne Hfound Hkey)
        as (db1 & user' & E1 & Hc1 & Hu' & Hid' & Hb' & Ht1 & Hn1).
      exists db1, user'. rewrite Hid', Hb'.
      destruct Hc1 as (Hnd1 & Hlt1).
      repeat split; try assumption; try lia. }
  destruct (handleCheckoutCompleted_known_user apiKey2 (session event)
              Hc1 He Hne Hu1)
    as (db2 & E2 & _ & Hb2 & Ht2 & _ & _).
  exists db1, db2, (id user1), (match getUserByEmail db emailText with
                                | Some u => balance_cents u
                                | None => 0
                                end).
  rewrite (@postWebhook_admitted secret apiKey1 db req event Hadm).
  rewrite (@postWebhook_admitted secret apiKey2 db1 req event Hadm).
  rewrite Htype, String.eqb_refl, E1, E2. unfold ok. cbn [bindR].
  split; [reflexivity|]. split; [reflexivity|]. split; [reflexivity|].
  split; [|split; [|split; [exact Ht1|]]].
  - unfold balanceOf. destruct Hc1 as (Hnd1 & _).
    assert (In user1 (users db1)) as Hin.
    { unfold getUserByEmail in Hu1. apply find_some in Hu1. tauto. }
    rewrite (getUserById_unique db1 user1 Hnd1 Hin). cbn [option_map].
    rewrite Hb1. reflexivity.
  - rewrite Hb2, Hb1. f_equal. lia.
  - rewrite Ht2, Hn1. reflexivity.
Qed.

End WebhookFacts.

Import Webhook.

Lemma webhook_missing_signature_is_processed_witness :
  postWebhook refuseAll parseExample showCents (Some "whsec_live") "rfa_key1"
    emptyDb unsignedRequest
  = ok (creditedDb [1], accepted200).
Proof.
  rewrite (@webhook_missing_signature_is_processed refuseAll parseExample
             showCents "whsec_live" "rfa_key1" emptyDb
             unsignedRequest exampleEvent);
    reflexivity.
Defined.

(** C6, as stated: delivering the same checkout-completed event twice is not
    a no-op the second time; the balance is credited twice and a second
    record is added. *)
Lemma webhook_replay_credits_again :
  postWebhook refuseAll parseExample showCents None "rfa_key1" emptyDb
    unsignedRequest
  = ok (creditedDb [1], accepted200)
  /\ postWebhook refuseAll parseExample showCents None "rfa_key2"
       (creditedDb [1]) unsignedRequest
     = ok (creditedDb [1; 2], accepted200)
  /\ balanceOf (creditedDb [1]) 1 = Some 1000
  /\ balanceOf (creditedDb [1; 2]) 1 = Some 2000
  /\ creditedDb [1; 2] <> creditedDb [1].
Proof.
  repeat split; try reflexivity. discriminate.
Qed.

Lemma webhook_each_delivery_credits_witness :
  exists db1 db2 userId before,
    postWebhook refuseAll parseExample showCents None "rfa_key1" emptyDb
      unsignedRequest
    = ok (db1, accepted200)
    /\ postWebhook refuseAll parseExample showCents None "rfa_key2" db1
         unsignedRequest
       = ok (db2, accepted200)
    /\ before = 0
    /\ balanceOf db1 userId = Some (before + 1000)
    /\ balanceOf db2 userId = Some (before + 2 * 1000)
    /\ transactions db1
       = [topupRow 1 userId 1000 "cs_test_1" "Stripe top-up: $1000"]
    /\ transactions db2
       = transactions db1
         ++ [topupRow 2 userId 1000 "cs_test_1" "Stripe top-up: $1000"].
Proof.
  apply (@webhook_each_delivery_credits refuseAll parseExample showCents None
           "rfa_key1" "rfa_key2" "alice@example.com" emptyDb unsignedRequest
           exampleEvent).
  - split; [constructor|constructor].
  - reflexivity.
  - reflexivity.
  - reflexivity.
  - reflexivity.
  - reflexivity.
Defined.

(** ** Subscription sync *)

Section SyncFacts.

Import Subscription.

Variable PoolState : Type.
Variable toLowerCase : string -> string.
Variable listPaidInvoices :
  option string -> option string -> option Z -> Result (list PaidInvoice).
Variable listAcrossCustomers :
  option Z -> option Z -> Result PaidInvoiceAcrossCustomersResult.
Variable getTierIdForStripePrice : option string -> option string.
Variable recordContribution :
  PoolState -> ContributionInput -> Result (PoolState * ContributionReceipt).

(** C8, where the code departs from it: in all-customers mode
    [syncPaidInvoices] treats what the paged listing returns as an array of
    invoices, so it never returns a sync result (and so reports no
    [truncated] flag), and it leaves the pool as it was. *)
Theorem syncPaidInvoices_all_customers_reports_nothing (pool : PoolState)
    (input : SubscriptionPoolSyncInput) :
  allCustomers input = true ->
  exists err,
    syncPaidInvoices toLowerCase listPaidInvoices listAcrossCustomers
      getTierIdForStripePrice recordContribution pool input
    = (pool, inl err).
Proof.
  intros Hall. unfold syncPaidInvoices. rewrite Hall. cbn [negb andb].
  destruct (match normalize (inputMonth input) with
            | Some m => negb (monthRegexTest m)
            | None => false
            end).
  - eexists. reflexivity.
  - destruct (listAcrossCustomers (inputLimit input) (inputMaxPages input));
      cbn [bindR]; eexists; reflexivity.
Qed.

End SyncFacts.

Import Subscription.

Lemma syncPaidInvoices_all_customers_reports_nothing_witness :
  endlessListing None (Some 3)
  = ok {| invoices :=
            [{| invoiceId := "in_1"; customerId := "cus_a";
                customerEmail := Some "a@example.com";
                subscriptionId := Some "sub_a";
                priceId := Some "price_starter"; amountPaidCents := 100;
                paidAt := "2026-03-01T00:00:00.000Z" |};
             {| invoiceId := "in_1"; customerId := "cus_a";
                customerEmail := Some "a@example.com";
                subscriptionId := Some "sub_a";
                priceId := Some "price_starter"; amountPaidCents := 100;
                paidAt := "2026-03-01T00:00:00.000Z" |};
             {| invoiceId := "in_1"; customerId := "cus_a";
                customerEmail := Some "a@example.com";
                subscriptionId := Some "sub_a";
                priceId := Some "price_starter"; amountPaidCents := 100;
                paidAt := "2026-03-01T00:00:00.000Z" |}];
          truncated := true; hasMore := true; pageCount := 3;
          maxPages := 3 |}
  /\ exists err,
       syncPaidInvoices (fun s => s) noCustomerListing endlessListing
         (fun _ => None) recordStub tt allCustomersInput
       = (tt, inl err).
Proof.
  split.
  - vm_compute. reflexivity.
  - apply (@syncPaidInvoices_all_customers_reports_nothing unit (fun s => s)
             noCustomerListing endlessListing (fun _ => None) recordStub tt
             allCustomersInput).
    reflexivity.
Defined.

(** ** Auth recovery tokens are single-use *)

Section AuthFacts.

Import Auth.

Variable sha256hex : string -> string.
Variable hmac : string -> string -> string.
Variable toLowerCase : string -> string.
Variable emailPattern : string -> bool.
Variable Identity : Type.
Variable captureIdentity : IdentityInput -> Result Identity.
Variable identityIsNone : Identity -> bool.
Variable encodeStatePayload : string -> Z -> string.
Variable decodeStatePayload : string -> Result (option string * option Z).
Variable deps : AuthServiceDeps.

Abbreviation recover := (recoverWithToken sha256hex deps).
Abbreviation serving :=
  (serve sha256hex hmac toLowerCase emailPattern captureIdentity identityIsNone
         encodeStatePayload decodeStatePayload deps).
Abbreviation servingAll :=
  (serveAll sha256hex hmac toLowerCase emailPattern captureIdentity
            identityIsNone encodeStatePayload decodeStatePayload deps).

Lemma find_updateFirst_same (A : Type) (p : A -> bool) (f : A -> A)
    (l : list A) (a : A) :
  find p l = Some a -> p (f a) = true ->
  find p (updateFirst p f l) = Some (f a).
Proof.
  induction l as [|x l IH]; cbn [find updateFirst]; [discriminate|].
  destruct (p x) eqn:E; intros H Hf.
  - injection H as ->. cbn [find]. rewrite Hf. reflexivity.
  - cbn [find]. rewrite E. apply IH; assumption.
Qed.

Lemma matchesToken_consume (token : string) (now : Z)
    (record : RecoveryTokenRecord) :
  matchesToken sha256hex deps token (consume now record)
  = matchesToken sha256hex deps token record.
Proof. reflexivity. Qed.

(** Consuming the first record of some token keeps a spent hash spent. *)
Lemma spentIn_updateFirst (p q : RecoveryTokenRecord -> bool) (now : Z)
    (records : list RecoveryTokenRecord) :
  (forall r, p (consume now r) = p r) ->
  spentIn p records -> spentIn p (updateFirst q (consume now) records).
Proof.
  intros Hp (record & Hfind & Hc). unfold spentIn.
  induction records as [|x l IH]; cbn [find updateFirst] in *; [discriminate|].
  destruct (q x) eqn:Eq.
  - cbn [find]. rewrite Hp. destruct (p x) eqn:Ep.
    + exists (consume now x). split; [reflexivity|]. discriminate.
    + exists record. split; assumption.
  - cbn [find]. destruct (p x) eqn:Ep.
    + exists record. split; assumption.
    + apply IH. exact Hfind.
Qed.

Lemma spentIn_app (p : RecoveryTokenRecord -> bool)
    (records extra : list RecoveryTokenRecord) :
  spentIn p records -> spentIn p (records ++ extra).
Proof.
  intros (record & Hfind & Hc). exists record. split; [|exact Hc].
  clear Hc. induction records as [|x l IH]; cbn [find app] in *;
    [discriminate|].
  destruct (p x); [exact Hfind|apply IH, Hfind].
Qed.

(** No request un-spends a token: the recoveries are only appended to, or a
    record is marked consumed. *)
Lemma serve_keeps_spent (p : RecoveryTokenRecord -> bool) (state : AuthState)
    (now : Z) (request : Request) :
  (forall t r, p (consume t r) = p r) ->
  spentIn p (recoveries state) ->
  spentIn p (recoveries (serving state now request)).
Proof.
  intros Hp H. destruct request; cbn [serve].
  - unfold startEmailAuth.
    destruct (normalizeEmail toLowerCase _); [|exact H].
    destruct (negb _); exact H.
  - unfold verifyEmailAuth.
    destruct (normalize _); [|exact H].
    destruct (negb _); [exact H|].
    destruct (requireSession _ _); [exact H|].
    destruct (ensureVerifiableSession _ _ _); [exact H|].
    destruct (beneficiaryEmail _); [|exact H].
    destruct (emailCodeHash _); [|exact H].
    destruct (_ || _); [exact H|].
    destruct (negb _); exact H.
  - unfold startOAuthAuth.
    destruct (option_map _ _); [|exact H].
    destruct (Js.isEmpty _); [exact H|].
    destruct (negb _); [exact H|].
    destruct (match normalizeEmail toLowerCase emailInput with
              | Some m => negb (emailPattern m)
              | None => false
              end); exact H.
  - unfold verifyOAuthAuth.
    destruct (negb _); [exact H|].
    destruct (negb _); [exact H|].
    destruct (match normalizeEmail toLowerCase emailInput with
              | Some m => negb (emailPattern m)
              | None => false
              end); [exact H|].
    destruct (requireSession _ _); [exact H|].
    destruct (ensureVerifiableSession _ _ _); [exact H|].
    destruct (negb _); [exact H|].
    destruct (negb _); [exact H|].
    destruct (validateOauthStateToken _ _ _ _ _ _); exact H.
  - unfold getSession. destruct (find _ _); exact H.
  - unfold linkSessionToUser.
    destruct (normalize _); [|exact H].
    destruct (requireSession _ _); [exact H|].
    destruct (negb _); exact H.
  - unfold startRecovery.
    destruct (normalizeEmail toLowerCase _); [|exact H].
    destruct (negb _); [exact H|].
    destruct (Js.sort _ _); [exact H|].
    cbn [fst recoveries]. apply spentIn_app, H.
  - unfold recoverWithToken.
    destruct (normalize _); [|exact H].
    destruct (find _ _); [|exact H].
    destruct (consumedAt _); [exact H|].
    destruct (isExpired _ _); [exact H|].
    destruct (requireSession _ _); [exact H|].
    destruct (negb _); [exact H|].
    cbn [fst recoveries]. apply spentIn_updateFirst; [apply Hp|exact H].
  - unfold resolveVerifiedIdentity.
    destruct (requireSession _ _); exact H.
Qed.

Lemma serveAll_keeps_spent (p : RecoveryTokenRecord -> bool)
    (requests : list (Z * Request)) (state : AuthState) :
  (forall t r, p (consume t r) = p r) ->
  spentIn p (recoveries state) ->
  spentIn p (recoveries (servingAll state requests)).
Proof.
  intros Hp. revert state.
  induction requests as [|[now request] rest IH]; intros state H;
    cbn [serveAll].
  - exact H.
  - apply IH, serve_keeps_spent; assumption.
Qed.

(** A spent token is refused, and the state is left alone. *)
Lemma recover_spent_fails (state : AuthState) (now : Z)
    (freshId tokenInput token : string) :
  normalize (Some tokenInput) = Some token ->
  spentIn (matchesToken sha256hex deps token) (recoveries state) ->
  recover state now freshId tokenInput
  = (state, throw (Error "recovery_token has already been used")).
Proof.
  intros Hn (record & Hfind & Hc). unfold recoverWithToken.
  rewrite Hn, Hfind. destruct (consumedAt record); [reflexivity|congruence].
Qed.

(** Where [find] stops: the records before the one found do not match, and
    [updateFirst] rewrites that one record and nothing else. *)
Lemma find_updateFirst_split (A : Type) (p : A -> bool) (f : A -> A)
    (l : list A) (a : A) :
  find p l = Some a ->
  exists before after,
    l = before ++ a :: after
    /\ find p before = None
    /\ updateFirst p f l = before ++ f a :: after.
Proof.
  induction l as [|x l IH]; cbn [find updateFirst]; [discriminate|].
  destruct (p x) eqn:E; intros H.
  - injection H as ->. exists [], l. repeat split.
  - destruct (IH H) as (before & after & -> & Hnone & Hupd).
    exists (x :: before), after. cbn [app find]. rewrite E, Hupd.
    repeat split. exact Hnone.
Qed.


End AuthFacts.

Import Auth.


(** ** Identity tags: what is appended is what is parsed *)

Import Identity.

(** *** Trimming *)

Lemma id_trimStart_length (t : Text) :
  (List.length (trimStart t) <= List.length t)%nat.
Proof.
  induction t as [|c r IH]; cbn [trimStart]; [lia|].
  destruct (isWhiteSpace c); cbn [List.length]; lia.
Qed.

Lemma id_trimStart_same_length (t : Text) :
  List.length (trimStart t) = List.length t -> trimStart t = t.
Proof.
  destruct t as [|c r]; [reflexivity|].
  cbn [trimStart]. destruct (isWhiteSpace c); [|reflexivity].
  intros H. pose proof (id_trimStart_length r). cbn [List.length] in H. lia.
Qed.

Lemma id_trimStart_fixed_head (c : Z) (r : Text) :
  trimStart (c :: r) = c :: r -> isWhiteSpace c = false.
Proof.
  cbn [trimStart]. destruct (isWhiteSpace c); [|reflexivity].
  intros H. pose proof (id_trimStart_length r) as L.
  rewrite H in L. cbn [List.length] in L. lia.
Qed.

Lemma id_trimStart_head (c : Z) (r : Text) :
  isWhiteSpace c = false -> trimStart (c :: r) = c :: r.
Proof. intros H. cbn [trimStart]. rewrite H. reflexivity. Qed.

Lemma id_trim_fixed (t : Text) :
  trim t = t -> trimStart t = t /\ trimStart (rev t) = rev t.
Proof.
  intros H.
  assert (L : List.length (trimStart t) = List.length t).
  { pose proof (id_trimStart_length t).
    pose proof (id_trimStart_length (rev (trimStart t))) as L2.
    rewrite length_rev in L2.
    assert (E : List.length (trim t) = List.length t) by (rewrite H; reflexivity).
    unfold trim, trimEnd in E. rewrite length_rev in E. lia. }
  apply id_trimStart_same_length in L. split; [exact L|].
  unfold trim, trimEnd in H. rewrite L in H.
  rewrite <- H at 2. rewrite rev_involutive. reflexivity.
Qed.

Lemma id_trimStart_split (t : Text) :
  exists ws, t = ws ++ trimStart t /\ forallb isWhiteSpace ws = true.
Proof.
  induction t as [|c r [ws [E F]]].
  - exists []. split; reflexivity.
  - cbn [trimStart]. destruct (isWhiteSpace c) eqn:W.
    + exists (c :: ws). split.
      * cbn [app]. rewrite <- E. reflexivity.
      * cbn [forallb]. rewrite W, F. reflexivity.
    + exists []. split; reflexivity.
Qed.

Lemma id_trimStart_empty (t : Text) :
  isEmptyText (trimStart t) = true -> forallb isWhiteSpace t = true.
Proof.
  induction t as [|c r IH]; [reflexivity|].
  cbn [trimStart forallb]. destruct (isWhiteSpace c); [exact IH|].
  cbn [isEmptyText]. discriminate.
Qed.

Lemma id_trimmed_endsVisibly (t : Text) :
  t <> [] -> trim t = t -> endsVisibly t.
Proof.
  intros N H. destruct (id_trim_fixed H) as [_ R].
  destruct (rev t) as [|d back] eqn:E.
  - apply (f_equal (@rev Z)) in E. rewrite rev_involutive in E.
    cbn in E. contradiction.
  - exists (rev back), d. split.
    + apply (f_equal (@rev Z)) in E. rewrite rev_involutive in E.
      exact E.
    + exact (id_trimStart_fixed_head R).
Qed.

Lemma id_endsVisibly_tail (c : Z) (r : Text) :
  endsVisibly (c :: r) -> r <> [] -> endsVisibly r.
Proof.
  intros [front [last [E W]]] N. destruct front as [|f front].
  - cbn in E. injection E as _ E. contradiction.
  - cbn in E. injection E as _ E. exists front, last. split; assumption.
Qed.

(** *** The tag pattern *)

Lemma id_stripPrefix_app (p t : Text) : stripPrefix p (p ++ t) = Some t.
Proof.
  induction p as [|x p IH]; [destruct t; reflexivity|].
  cbn [app stripPrefix]. rewrite Z.eqb_refl. exact IH.
Qed.

Lemma id_stripPrefix_sound (p t r : Text) :
  stripPrefix p t = Some r -> t = p ++ r.
Proof.
  revert t. induction p as [|x p IH]; intros t H.
  - destruct t; cbn in H; injection H as H; subst; reflexivity.
  - destruct t as [|y t]; [discriminate|].
    cbn [stripPrefix] in H. destruct (x =? y) eqn:E; [|discriminate].
    apply Z.eqb_eq in E. subst y. cbn [app]. f_equal. apply IH, H.
Qed.

Lemma id_spanTag_sound (t run rest : Text) :
  spanTag t = (run, rest) ->
  t = run ++ rest /\ forallb isTagChar run = true.
Proof.
  revert run rest. induction t as [|c r IH]; intros run rest H.
  - cbn in H. injection H as <- <-. split; reflexivity.
  - cbn [spanTag] in H. destruct (isTagChar c) eqn:T.
    + destruct (spanTag r) as [run' rest'] eqn:S.
      injection H as <- <-. destruct (IH _ _ eq_refl) as [E F].
      split; [cbn [app]; f_equal; exact E|].
      cbn [forallb]. rewrite T, F. reflexivity.
    + injection H as <- <-. split; reflexivity.
Qed.

Lemma id_spanTag_app (run : Text) (c : Z) (rest : Text) :
  forallb isTagChar run = true -> isTagChar c = false ->
  spanTag (run ++ c :: rest) = (run, c :: rest).
Proof.
  intros F N. induction run as [|x run IH].
  - cbn [app spanTag]. rewrite N. reflexivity.
  - cbn [forallb] in F. apply andb_prop in F. destruct F as [Tx F].
    cbn [app spanTag]. rewrite Tx, (IH F). reflexivity.
Qed.

Lemma id_matchTagAt_sound (t enc : Text) :
  matchTagAt t = Some enc ->
  exists ws ws', t = ws ++ (txt "[identity" ++ 58 :: enc) ++ 93 :: ws'
    /\ forallb isWhiteSpace ws = true /\ forallb isWhiteSpace ws' = true
    /\ forallb isTagChar enc = true.
Proof.
  unfold matchTagAt. intros H.
  destruct (id_trimStart_split t) as [ws [E W]].
  destruct (stripPrefix (txt "[identity:") (trimStart t)) as [r|] eqn:P;
    [|discriminate].
  apply id_stripPrefix_sound in P.
  destruct (spanTag r) as [run rest] eqn:S.
  destruct (id_spanTag_sound _ S) as [R F].
  destruct run as [|c run]; [discriminate|].
  destruct rest as [|closing rest]; [discriminate|].
  destruct (closing =? 93) eqn:C; [|discriminate].
  apply Z.eqb_eq in C. subst closing.
  destruct (isEmptyText (trimStart rest)) eqn:T; [|discriminate].
  cbn [andb] in H. injection H as <-.
  exists ws, rest. repeat split; try assumption.
  - rewrite E at 1. rewrite P, R. reflexivity.
  - apply id_trimStart_empty, T.
Qed.

Lemma id_forallb_last (f : Z -> bool) (l : Text) (x : Z) :
  forallb f (l ++ [x]) = true -> f x = true.
Proof.
  rewrite forallb_app. intros H. apply andb_prop in H. destruct H as [_ H].
  cbn in H. rewrite andb_true_r in H. exact H.
Qed.

(** Two texts that end with a run of tag characters after a character that
    is none agree on that run. *)
Lemma id_tag_tail_unique (e1 : Text) :
  forall (e2 x y : Text) (c1 c2 : Z),
    x ++ c1 :: e1 = y ++ c2 :: e2 ->
    forallb isTagChar e1 = true -> forallb isTagChar e2 = true ->
    isTagChar c1 = false -> isTagChar c2 = false ->
    x = y /\ e1 = e2.
Proof.
  induction e1 as [|z e1 IH] using rev_ind; intros e2 x y c1 c2 E F1 F2 N1 N2.
  - destruct e2 as [|z2 e2] using rev_ind.
    + apply (@app_inj_tail Z x y c1 c2) in E. destruct E. split; auto.
    + clear IHe2. exfalso.
      change (y ++ c2 :: e2 ++ [z2]) with (y ++ (c2 :: e2) ++ [z2]) in E.
      rewrite app_assoc in E. apply app_inj_tail in E. destruct E as [_ E].
      apply id_forallb_last in F2. congruence.
  - destruct e2 as [|z2 e2] using rev_ind.
    + exfalso.
      change (x ++ c1 :: e1 ++ [z]) with (x ++ (c1 :: e1) ++ [z]) in E.
      rewrite app_assoc in E. apply app_inj_tail in E. destruct E as [_ E].
      apply id_forallb_last in F1. congruence.
    + clear IHe2.
      change (x ++ c1 :: e1 ++ [z]) with (x ++ (c1 :: e1) ++ [z]) in E.
      change (y ++ c2 :: e2 ++ [z2]) with (y ++ (c2 :: e2) ++ [z2]) in E.
      rewrite !app_assoc in E. apply app_inj_tail in E. destruct E as [E Z].
      rewrite forallb_app in F1, F2.
      apply andb_prop in F1. apply andb_prop in F2.
      destruct F1 as [F1 _]. destruct F2 as [F2 _].
      destruct (IH e2 x y c1 c2 E F1 F2 N1 N2) as [A B].
      subst. split; reflexivity.
Qed.

(** Inside the reason the pattern finds nothing: what it matches ends the
    text, so it would have to start with the white space before the tag. *)
Lemma id_matchTagAt_inside (s enc : Text) :
  endsVisibly s -> forallb isTagChar enc = true ->
  matchTagAt (s ++ tagSuffix enc) = None.
Proof.
  intros [front [last [S W]]] F.
  destruct (matchTagAt (s ++ tagSuffix enc)) as [e|] eqn:M; [|reflexivity].
  exfalso. apply id_matchTagAt_sound in M.
  destruct M as [ws [ws' [E [Wl [Wr Fe]]]]].
  unfold tagSuffix in E.
  assert (ws' = []) as ->.
  { destruct ws' as [|w ws'] using rev_ind; [reflexivity|]. exfalso.
    apply id_forallb_last in Wr.
    change (s ++ 32 :: (txt "[identity" ++ 58 :: enc) ++ [93])
      with (s ++ (32 :: txt "[identity" ++ 58 :: enc) ++ [93]) in E.
    change (ws ++ (txt "[identity" ++ 58 :: e) ++ 93 :: ws' ++ [w])
      with (ws ++ (txt "[identity" ++ 58 :: e) ++ (93 :: ws') ++ [w]) in E.
    rewrite !app_assoc in E. apply app_inj_tail in E. destruct E as [_ E].
    subst w. discriminate Wr. }
  change (s ++ 32 :: (txt "[identity" ++ 58 :: enc) ++ [93])
    with (s ++ (32 :: txt "[identity" ++ 58 :: enc) ++ [93]) in E.
  rewrite !app_assoc in E. apply app_inj_tail in E. destruct E as [E _].
  change (s ++ 32 :: txt "[identity" ++ 58 :: enc)
    with (s ++ (32 :: txt "[identity") ++ 58 :: enc) in E.
  rewrite <- app_assoc in E. rewrite (app_assoc s) in E.
  rewrite (app_assoc ws) in E.
  destruct (@id_tag_tail_unique enc e _ _ 58 58 E F Fe eq_refl eq_refl)
    as [A _].
  change (s ++ 32 :: txt "[identity") with (s ++ [32] ++ txt "[identity") in A.
  rewrite (app_assoc s) in A. apply app_inv_tail in A.
  rewrite S in A. rewrite <- A in Wl.
  rewrite <- app_assoc in Wl. cbn [app] in Wl.
  rewrite forallb_app in Wl. apply andb_prop in Wl. destruct Wl as [_ Wl].
  cbn [forallb] in Wl. rewrite W in Wl. discriminate Wl.
Qed.

Lemma id_matchTagAt_suffix (enc : Text) :
  enc <> [] -> forallb isTagChar enc = true ->
  matchTagAt (tagSuffix enc) = Some enc.
Proof.
  intros N F. unfold matchTagAt, tagSuffix.
  change (trimStart (32 :: (txt "[identity" ++ 58 :: enc) ++ [93]))
    with (txt "[identity:" ++ enc ++ [93]).
  rewrite id_stripPrefix_app.
  rewrite (@id_spanTag_app enc 93 [] F eq_refl).
  destruct enc as [|c run]; [contradiction|]. reflexivity.
Qed.

(** The leftmost match of the pattern in a reason followed by its tag is
    the tag. *)
Lemma id_matchIdentityTag_appended (r enc : Text) :
  r = [] \/ endsVisibly r ->
  enc <> [] -> forallb isTagChar enc = true ->
  matchIdentityTag (r ++ tagSuffix enc) = Some (r, enc).
Proof.
  intros V N F. induction r as [|c r IH].
  - cbn [app]. unfold tagSuffix at 1.
    cbn [matchIdentityTag]. fold (tagSuffix enc).
    rewrite (@id_matchTagAt_suffix _ N F). reflexivity.
  - destruct V as [V|V]; [discriminate|].
    assert (M : matchIdentityTag ((c :: r) ++ tagSuffix enc)
                = match matchTagAt ((c :: r) ++ tagSuffix enc) with
                  | Some encoded => Some ([], encoded)
                  | None =>
                      match matchIdentityTag (r ++ tagSuffix enc) with
                      | Some (before, encoded) => Some (c :: before, encoded)
                      | None => None
                      end
                  end) by reflexivity.
    rewrite M, (@id_matchTagAt_inside _ _ V F), IH; [reflexivity|].
    destruct r as [|d r]; [left; reflexivity|right].
    apply (@id_endsVisibly_tail _ _ V). discriminate.
Qed.

(** *** Base64url *)

Ltac id_zlia := Z.div_mod_to_equations; lia.

Ltac id_cases :=
  repeat match goal with
    | |- context [Z.ltb ?a ?b] => destruct (Z.ltb_spec a b); try id_zlia
    | |- context [Z.leb ?a ?b] => destruct (Z.leb_spec a b); try id_zlia
    | |- context [Z.eqb ?a ?b] => destruct (Z.eqb_spec a b); try id_zlia
    end.

Lemma id_base64urlValue_char (v : Z) :
  0 <= v < 64 -> base64urlValue (base64urlChar v) = Some v.
Proof.
  intros R. unfold base64urlChar.
  destruct (Z.ltb_spec v 26); [|destruct (Z.ltb_spec v 52);
    [|destruct (Z.ltb_spec v 62); [|destruct (Z.eqb_spec v 62)]]];
    unfold base64urlValue; id_cases; cbn [andb]; f_equal; lia.
Qed.

Lemma id_sextets_cons (v : Z) (r : Text) :
  0 <= v < 64 -> sextets (base64urlChar v :: r) = v :: sextets r.
Proof.
  intros R. cbn [sextets]. rewrite (id_base64urlValue_char R). reflexivity.
Qed.

Lemma id_isTagChar_char (v : Z) :
  0 <= v < 64 -> isTagChar (base64urlChar v) = true.
Proof.
  intros R. unfold isTagChar. rewrite (id_base64urlValue_char R). reflexivity.
Qed.

(** Induction three elements at a time, as the encoder reads its bytes. *)
Lemma id_list_ind3 (P : list Z -> Prop) :
  P [] -> (forall a, P [a]) -> (forall a b, P [a; b]) ->
  (forall a b c r, P r -> P (a :: b :: c :: r)) ->
  forall l, P l.
Proof.
  intros P0 P1 P2 P3 l.
  assert (Q : P l /\ (forall a, P (a :: l)) /\ (forall a b, P (a :: b :: l))).
  { induction l as [|c r [Q0 [Q1 Q2]]].
    - repeat split; auto.
    - repeat split; auto. }
  exact (proj1 Q).
Qed.

Lemma id_base64url_round_trip (bytes : list Z) :
  Forall isByte bytes -> base64urlDecode (base64urlEncode bytes) = bytes.
Proof.
  unfold base64urlDecode, isByte.
  induction bytes as [|a|a b|a b c r IH] using id_list_ind3; intros F.
  - reflexivity.
  - inversion_clear F as [|? ? Ha _].
    cbn [base64urlEncode].
    rewrite !id_sextets_cons by id_zlia. cbn [sextets bytesOfSextets].
    f_equal. id_zlia.
  - inversion_clear F as [|? ? Ha F']. inversion_clear F' as [|? ? Hb _].
    cbn [base64urlEncode].
    rewrite !id_sextets_cons by id_zlia. cbn [sextets bytesOfSextets].
    f_equal; [id_zlia|]. f_equal. id_zlia.
  - inversion_clear F as [|? ? Ha F']. inversion_clear F' as [|? ? Hb F].
    inversion_clear F as [|? ? Hc F'].
    cbn [base64urlEncode].
    rewrite !id_sextets_cons by id_zlia. cbn [bytesOfSextets].
    rewrite (IH F').
    f_equal; [id_zlia|]. f_equal; [id_zlia|]. f_equal. id_zlia.
Qed.

Lemma id_base64url_tag_chars (bytes : list Z) :
  Forall isByte bytes -> forallb isTagChar (base64urlEncode bytes) = true.
Proof.
  unfold isByte.
  induction bytes as [|a|a b|a b c r IH] using id_list_ind3; intros F.
  - reflexivity.
  - inversion_clear F as [|? ? Ha _].
    cbn [base64urlEncode forallb].
    rewrite !id_isTagChar_char by id_zlia. reflexivity.
  - inversion_clear F as [|? ? Ha F']. inversion_clear F' as [|? ? Hb _].
    cbn [base64urlEncode forallb].
    rewrite !id_isTagChar_char by id_zlia. reflexivity.
  - inversion_clear F as [|? ? Ha F']. inversion_clear F' as [|? ? Hb F].
    inversion_clear F as [|? ? Hc F'].
    cbn [base64urlEncode forallb].
    rewrite !id_isTagChar_char by id_zlia. rewrite (IH F'). reflexivity.
Qed.

Lemma id_base64url_nonempty (bytes : list Z) :
  bytes <> [] -> base64urlEncode bytes <> [].
Proof.
  destruct bytes as [|a [|b [|c r]]]; [contradiction| | |];
    intros _; discriminate.
Qed.

(** *** UTF-8 *)

Lemma id_utf8EncodeChar_bytes (c : Z) : Forall isByte (utf8EncodeChar c).
Proof.
  unfold utf8EncodeChar, isByte.
  set (d := if isScalar c then c else 65533).
  assert (R : 0 <= d < 1114112).
  { subst d. destruct (isScalar c) eqn:S; [|lia].
    unfold isScalar in S. revert S. id_cases; intros; try discriminate; lia. }
  clearbody d.
  destruct (Z.ltb_spec d 128); [|destruct (Z.ltb_spec d 2048);
    [|destruct (Z.ltb_spec d 65536)]];
    repeat constructor; id_zlia.
Qed.

Lemma id_utf8Encode_bytes (t : Text) : Forall isByte (utf8Encode t).
Proof.
  induction t as [|c r IH]; [constructor|].
  unfold utf8Encode. cbn [flat_map]. apply Forall_app. split.
  - apply id_utf8EncodeChar_bytes.
  - exact IH.
Qed.

Ltac id_true :=
  repeat (apply andb_true_intro; split);
  first [apply Z.leb_le | apply Z.ltb_lt | apply Z.eqb_eq]; id_zlia.

Ltac id_false :=
  first
    [ apply Z.leb_gt; id_zlia
    | apply Z.ltb_ge; id_zlia
    | apply Z.eqb_neq; id_zlia
    | apply andb_false_iff; first [left; id_false | right; id_false] ].

Ltac id_if :=
  match goal with
  | |- context [if ?b then _ else _] =>
      lazymatch b with
      | true => fail
      | false => fail
      | _ => idtac
      end;
      first
        [ replace b with true by (symmetry; id_true)
        | replace b with false by (symmetry; id_false) ]
  end; cbv iota.

Lemma id_utf8Decode_char (c : Z) (rest : list Z) :
  isScalar c = true ->
  utf8Decode (utf8EncodeChar c ++ rest) = c :: utf8Decode rest.
Proof.
  intros S. unfold utf8EncodeChar. rewrite S.
  assert (R : 0 <= c < 55296 \/ 57344 <= c < 1114112).
  { unfold isScalar in S. revert S. id_cases; intros; try discriminate; lia. }
  clear S.
  destruct (Z.ltb_spec c 128); [|destruct (Z.ltb_spec c 2048);
    [|destruct (Z.ltb_spec c 65536)]]; cbn [app utf8Decode isContinuation].
  - id_if. reflexivity.
  - repeat id_if. f_equal. id_zlia.
  - repeat id_if.
    destruct (Z.eqb_spec (224 + c / 4096) 224);
      destruct (Z.eqb_spec (224 + c / 4096) 237);
      try id_zlia; cbv iota; repeat id_if; f_equal; id_zlia.
  - repeat id_if.
    destruct (Z.eqb_spec (240 + c / 262144) 240);
      destruct (Z.eqb_spec (240 + c / 262144) 244);
      try id_zlia; cbv iota; repeat id_if; f_equal; id_zlia.
Qed.

Lemma id_utf8_round_trip (t : Text) :
  forallb isScalar t = true -> utf8Decode (utf8Encode t) = t.
Proof.
  induction t as [|c r IH]; intros F; [reflexivity|].
  cbn [forallb] in F. apply andb_prop in F. destruct F as [S F].
  unfold utf8Encode. cbn [flat_map]. rewrite (@id_utf8Decode_char _ _ S).
  f_equal. apply IH, F.
Qed.

(** *** JSON strings *)

Lemma id_hexValue_char (v : Z) :
  0 <= v < 16 -> hexValue (hexChar v) = Some v.
Proof.
  intros R. unfold hexChar.
  destruct (Z.ltb_spec v 10); unfold hexValue; id_cases; cbn [andb];
    f_equal; lia.
Qed.

Lemma id_hex4_escape (c : Z) :
  0 <= c < 65536 ->
  hex4 (hexChar (c / 4096)) (hexChar ((c / 256) mod 16))
       (hexChar ((c / 16) mod 16)) (hexChar (c mod 16)) = Some c.
Proof.
  intros R. unfold hex4.
  rewrite !id_hexValue_char by id_zlia. f_equal. id_zlia.
Qed.

Lemma id_parse_quote (r : Text) : parseStringBody (34 :: r) = Some ([], r).
Proof. reflexivity. Qed.

Lemma id_parse_simple (e ch : Z) (r : Text) :
  simpleEscape e = Some ch -> e <> 117 ->
  parseStringBody (92 :: e :: r) = consChar ch (parseStringBody r).
Proof.
  intros S N. cbn [parseStringBody Z.eqb Pos.eqb].
  apply Z.eqb_neq in N. rewrite N, S. reflexivity.
Qed.

Lemma id_parse_plain (c : Z) (r : Text) :
  c <> 34 -> c <> 92 -> 32 <= c ->
  parseStringBody (c :: r) = consChar c (parseStringBody r).
Proof.
  intros N1 N2 N3. cbn [parseStringBody].
  apply Z.eqb_neq in N1, N2. apply Z.ltb_ge in N3.
  rewrite N1, N2, N3. reflexivity.
Qed.

Lemma id_parse_unicode (h1 h2 h3 h4 u : Z) (r : Text) :
  hex4 h1 h2 h3 h4 = Some u ->
  isHighSurrogate u && lowEscapeAhead r = false ->
  parseStringBody (92 :: 117 :: h1 :: h2 :: h3 :: h4 :: r)
  = consChar u (parseStringBody r).
Proof.
  intros H L. cbn [parseStringBody Z.eqb Pos.eqb]. rewrite H.
  destruct r as [|b [|e' [|l1 [|l2 [|l3 [|l4 r]]]]]]; try reflexivity.
  cbn [lowEscapeAhead] in L.
  destruct (hex4 l1 l2 l3 l4) as [lo|]; [|reflexivity].
  replace ((b =? 92) && (e' =? 117) && isHighSurrogate u && isLowSurrogate lo)
    with false; [reflexivity|].
  rewrite <- L.
  destruct (b =? 92), (e' =? 117), (isHighSurrogate u), (isLowSurrogate lo);
    reflexivity.
Qed.

Lemma id_lowEscapeAhead_head (b : Z) (t : Text) :
  b <> 92 -> lowEscapeAhead (b :: t) = false.
Proof.
  intros N. apply Z.eqb_neq in N.
  destruct t as [|e' [|l1 [|l2 [|l3 [|l4 t]]]]]; try reflexivity.
  cbn [lowEscapeAhead]. rewrite N.
  destruct (hex4 l1 l2 l3 l4); reflexivity.
Qed.

Lemma id_lowEscapeAhead_second (e' : Z) (t : Text) :
  e' <> 117 -> lowEscapeAhead (92 :: e' :: t) = false.
Proof.
  intros N. apply Z.eqb_neq in N.
  destruct t as [|l1 [|l2 [|l3 [|l4 t]]]]; try reflexivity.
  cbn [lowEscapeAhead]. rewrite N.
  destruct (hex4 l1 l2 l3 l4); reflexivity.
Qed.

Lemma id_surrogate_range (c : Z) :
  ((c <? 32) || (55296 <=? c) && (c <? 57344)) = true -> 0 <= c ->
  0 <= c < 65536.
Proof. id_cases; cbn [andb orb]; intros; try discriminate; lia. Qed.

Ltac id_escape_cases c :=
  unfold escapeChar;
  destruct (Z.eqb_spec c 34) as [->|?];
  [|destruct (Z.eqb_spec c 92) as [->|?];
   [|destruct (Z.eqb_spec c 8) as [->|?];
    [|destruct (Z.eqb_spec c 12) as [->|?];
     [|destruct (Z.eqb_spec c 10) as [->|?];
      [|destruct (Z.eqb_spec c 13) as [->|?];
       [|destruct (Z.eqb_spec c 9) as [->|?];
        [|destruct ((c <? 32) || (55296 <=? c) && (c <? 57344)) eqn:?]]]]]]].

Lemma id_lowEscapeAhead_escape (d : Z) (t : Text) :
  0 <= d -> lowEscapeAhead (escapeChar d ++ t) = isLowSurrogate d.
Proof.
  intros R. id_escape_cases d;
    try (cbn [app]; rewrite id_lowEscapeAhead_second by lia; reflexivity).
  - cbn [app lowEscapeAhead].
    rewrite (@id_hex4_escape d (@id_surrogate_range d Heqb R)). reflexivity.
  - cbn [app]. rewrite id_lowEscapeAhead_head by assumption.
    unfold isLowSurrogate. revert Heqb.
    id_cases; cbn [andb orb]; intros; try discriminate; reflexivity.
Qed.

Lemma id_parse_escapeChar (c : Z) (t : Text) :
  0 <= c ->
  isHighSurrogate c && lowEscapeAhead t = false ->
  parseStringBody (escapeChar c ++ t) = consChar c (parseStringBody t).
Proof.
  intros R L. id_escape_cases c;
    try (cbn [app]; apply id_parse_simple; [reflexivity|lia]).
  - cbn [app]. apply id_parse_unicode; [|exact L].
    apply (@id_hex4_escape c (@id_surrogate_range c Heqb R)).
  - cbn [app]. apply id_parse_plain; try assumption.
    revert Heqb. id_cases; cbn [andb orb]; intros; try discriminate; lia.
Qed.

Lemma id_isString_cons (c : Z) (r : Text) :
  isString (c :: r) = true ->
  0 <= c < 1114112
  /\ isHighSurrogate c
     && match r with d :: _ => isLowSurrogate d | [] => false end = false
  /\ isString r = true.
Proof.
  cbn [isString]. intros H.
  apply andb_prop in H. destruct H as [H S].
  apply andb_prop in H. destruct H as [H P].
  apply andb_prop in H. destruct H as [L U].
  apply Z.leb_le in L. apply Z.ltb_lt in U.
  apply negb_true_iff in P. repeat split; assumption.
Qed.

(** Reading back a string that was written with its escapes. *)
Lemma id_parse_escaped (s rest : Text) :
  isString s = true ->
  parseStringBody (flat_map escapeChar s ++ 34 :: rest) = Some (s, rest).
Proof.
  induction s as [|c s IH]; intros S; [reflexivity|].
  apply id_isString_cons in S. destruct S as [R [P S]].
  cbn [flat_map]. rewrite <- app_assoc.
  rewrite id_parse_escapeChar, (IH S); [reflexivity|lia|].
  destruct s as [|d s].
  { cbn [flat_map app]. rewrite id_lowEscapeAhead_head by lia. exact P. }
  apply id_isString_cons in S. destruct S as [Rd _].
  cbn [flat_map]. rewrite <- app_assoc.
  rewrite id_lowEscapeAhead_escape by lia. exact P.
Qed.

Lemma id_quote_app (s rest : Text) :
  quote s ++ rest = 34 :: flat_map escapeChar s ++ 34 :: rest.
Proof.
  unfold quote. cbn [app]. rewrite <- app_assoc. reflexivity.
Qed.

(** *** JSON objects of strings *)

Lemma id_parseValue_string (f : nat) (r s rest : Text) :
  parseStringBody r = Some (s, rest) ->
  parseValue (S f) (34 :: r) = Some (JStr s, rest).
Proof. intros H. cbn. rewrite H. reflexivity. Qed.

Lemma id_parseMembers_eq (f : nat) (r : Text) :
  parseMembers (S (S f)) (34 :: r)
  = match parseStringBody r with
    | Some (key, r1) =>
        match skipSpace r1 with
        | 58 :: r2 =>
            match parseValue (S f) r2 with
            | Some (v, r3) =>
                match skipSpace r3 with
                | 44 :: r4 =>
                    match parseMembers (S f) r4 with
                    | Some (ms, rest) => Some ((key, v) :: ms, rest)
                    | None => None
                    end
                | 125 :: rest => Some ([(key, v)], rest)
                | _ => None
                end
            | None => None
            end
        | _ => None
        end
    | None => None
    end.
Proof. reflexivity. Qed.

Lemma id_parseValue_object (f : nat) (r : Text) :
  parseValue (S f) (123 :: 34 :: r)
  = match parseMembers f (34 :: r) with
    | Some (ms, rest) => Some (JObj ms, rest)
    | None => None
    end.
Proof. reflexivity. Qed.

Lemma id_parseValue_one (f : nat) (r : Text) :
  parseValue (S f) (49 :: 44 :: r)
  = Some (JNum {| negative := false; mantissa := 1; exponent10 := 0 |},
          44 :: r).
Proof. reflexivity. Qed.

Lemma id_parseMembers_more (f : nat) (r k v r4 : Text) :
  parseStringBody r = Some (k, 58 :: 34 :: flat_map escapeChar v ++ 34 :: 44 :: r4) ->
  isString v = true ->
  parseMembers (S (S f)) (34 :: r)
  = match parseMembers (S f) r4 with
    | Some (ms, rest) => Some ((k, JStr v) :: ms, rest)
    | None => None
    end.
Proof.
  intros H V.
  rewrite id_parseMembers_eq.
  rewrite H.
  change (skipSpace (58 :: 34 :: flat_map escapeChar v ++ 34 :: 44 :: r4))
    with (58 :: 34 :: flat_map escapeChar v ++ 34 :: 44 :: r4).
  cbv iota.
  rewrite (@id_parseValue_string f _ _ _ (@id_parse_escaped v (44 :: r4) V)).
  reflexivity.
Qed.

Lemma id_parseMembers_last (f : nat) (r k v rest : Text) :
  parseStringBody r
  = Some (k, 58 :: 34 :: flat_map escapeChar v ++ 34 :: 125 :: rest) ->
  isString v = true ->
  parseMembers (S (S f)) (34 :: r) = Some ([(k, JStr v)], rest).
Proof.
  intros H V.
  rewrite id_parseMembers_eq.
  rewrite H.
  change (skipSpace (58 :: 34 :: flat_map escapeChar v ++ 34 :: 125 :: rest))
    with (58 :: 34 :: flat_map escapeChar v ++ 34 :: 125 :: rest).
  cbv iota.
  rewrite (@id_parseValue_string f _ _ _ (@id_parse_escaped v (125 :: rest) V)).
  reflexivity.
Qed.

(** An object member after member, each a string under a string key. *)
Lemma id_parseMembers_strings (ms : list (Text * Text)) :
  forall (f : nat) (k v rest : Text),
    isString k = true -> isString v = true ->
    forallb isStringPair ms = true ->
    (List.length ms <= f)%nat ->
    parseMembers (S (S f))
      (quote k ++ 58 :: quote v ++ membersText ms ++ 125 :: rest)
    = Some ((k, JStr v) :: strings ms, rest).
Proof.
  induction ms as [|[k' v'] ms IH]; intros f k v rest K V F L.
  - cbn [membersText flat_map app strings map].
    rewrite id_quote_app.
    apply id_parseMembers_last; [|exact V].
    rewrite id_quote_app. apply (@id_parse_escaped k _ K).
  - cbn [forallb] in F. apply andb_prop in F. destruct F as [P F].
    unfold isStringPair in P. cbn [fst snd] in P.
    apply andb_prop in P. destruct P as [K' V'].
    destruct f as [|f]; [cbn [List.length] in L; lia|].
    cbn [List.length] in L.
    cbn [membersText flat_map strings map fst snd].
    unfold memberOf at 1. cbn [fst snd].
    rewrite (id_quote_app k).
    rewrite (@id_parseMembers_more (S f) _ k v
               (quote k' ++ 58 :: quote v' ++ membersText ms ++ 125 :: rest)).
    + fold (membersText ms).
      rewrite (IH f k' v' rest K' V' F); [reflexivity|lia].
    + rewrite (id_quote_app v). unfold membersText. cbn [app].
      repeat (rewrite <- app_assoc; cbn [app]).
      apply (@id_parse_escaped k _ K).
    + exact V.
Qed.

(** *** The payload *)

Lemma id_normalized_nonempty (v : Text) :
  normalize (Some v) = Some v -> isEmptyText v = false.
Proof. destruct v; [discriminate|reflexivity]. Qed.

Lemma id_memberText_optional (key : string) (value : option Text) :
  normalized value -> memberText key value = membersText (optional key value).
Proof.
  destruct value as [v|]; [|reflexivity]. intros [_ N].
  unfold memberText. rewrite (@id_normalized_nonempty _ N).
  cbn [optional membersText flat_map]. rewrite app_nil_r. reflexivity.
Qed.

Lemma id_optional_strings (key : string) (value : option Text) :
  isString (txt key) = true -> normalized value ->
  forallb isStringPair (optional key value) = true.
Proof.
  intros K N. destruct value as [v|]; [|reflexivity].
  destruct N as [V _]. cbn [optional forallb]. unfold isStringPair.
  cbn [fst snd]. rewrite K, V. reflexivity.
Qed.

Section Payload.

Variable id : IdentityAttribution.
Hypothesis nameOk : normalized (beneficiaryName id).
Hypothesis emailOk : normalized (beneficiaryEmail id).
Hypothesis providerOk : normalized (authProvider id).
Hypothesis subjectOk : normalized (authSubject id).

Lemma id_present_strings : forallb isStringPair (present id) = true.
Proof.
  unfold present. rewrite !forallb_app.
  rewrite !id_optional_strings by (reflexivity || assumption). reflexivity.
Qed.

Lemma id_present_length : (List.length (present id) <= 4)%nat.
Proof.
  unfold present. rewrite !length_app.
  destruct (beneficiaryName id), (beneficiaryEmail id), (authProvider id),
    (authSubject id); cbn [optional List.length]; lia.
Qed.

Lemma id_stringifyPayload_members :
  stringifyPayload id
  = 123 :: 34 :: 118 :: 34 :: 58 :: 49 :: 44
    :: quote (txt "method") ++ 58 :: quote (methodText (authMethod id))
       ++ membersText (present id) ++ [125].
Proof.
  unfold stringifyPayload.
  rewrite !id_memberText_optional by assumption.
  unfold present, membersText. rewrite !flat_map_app.
  cbn [app]. rewrite <- !app_assoc. reflexivity.
Qed.

Lemma id_methodText_string : isString (methodText (authMethod id)) = true.
Proof. destruct (authMethod id); reflexivity. Qed.

Lemma id_parseValue_payload (n : nat) :
  (4 <= n)%nat ->
  parseValue (S (S (S (S n)))) (stringifyPayload id)
  = Some (JObj ((txt "v", JNum one)
                :: (txt "method", JStr (methodText (authMethod id)))
                :: strings (present id)), []).
Proof.
  intros L. rewrite id_stringifyPayload_members.
  set (rest := quote (txt "method") ++ 58 :: quote (methodText (authMethod id))
               ++ membersText (present id) ++ [125]).
  assert (E : parseValue (S (S (S (S n))))
                (123 :: 34 :: 118 :: 34 :: 58 :: 49 :: 44 :: rest)
              = match parseMembers (S (S n)) rest with
                | Some (ms, after) =>
                    Some (JObj ((txt "v", JNum one) :: ms), after)
                | None => None
                end).
  { clearbody rest. rewrite id_parseValue_object, id_parseMembers_eq.
    change (parseStringBody (118 :: 34 :: 58 :: 49 :: 44 :: rest))
      with (Some ([118], 58 :: 49 :: 44 :: rest)).
    cbv iota.
    change (skipSpace (58 :: 49 :: 44 :: rest)) with (58 :: 49 :: 44 :: rest).
    cbv iota. rewrite id_parseValue_one.
    change (skipSpace (44 :: rest)) with (44 :: rest). cbv iota.
    destruct (parseMembers (S (S n)) rest) as [[ms after]|]; reflexivity. }
  rewrite E. subst rest.
  rewrite (@id_parseMembers_strings (present id) n (txt "method")
             (methodText (authMethod id)) [] eq_refl id_methodText_string
             id_present_strings).
  - reflexivity.
  - pose proof id_present_length. lia.
Qed.

Lemma id_stringifyPayload_length :
  exists n, (4 <= n)%nat
    /\ S (List.length (stringifyPayload id)) = S (S (S (S n))).
Proof.
  rewrite id_stringifyPayload_members. cbn [List.length].
  eexists. split; [|reflexivity]. lia.
Qed.

Lemma id_jsonParse_payload :
  jsonParse (stringifyPayload id)
  = Some (JObj ((txt "v", JNum one)
                :: (txt "method", JStr (methodText (authMethod id)))
                :: strings (present id))).
Proof.
  unfold jsonParse. destruct id_stringifyPayload_length as [n [L E]].
  rewrite E, (@id_parseValue_payload n L). reflexivity.
Qed.

End Payload.

(** *** The text of the payload is well-formed *)

Lemma id_hexChar_scalar (v : Z) : 0 <= v < 16 -> isScalar (hexChar v) = true.
Proof.
  intros R. unfold hexChar, isScalar.
  destruct (Z.ltb_spec v 10); id_cases; reflexivity.
Qed.

Lemma id_escapeChar_scalar (c : Z) :
  0 <= c < 1114112 -> forallb isScalar (escapeChar c) = true.
Proof.
  intros R. id_escape_cases c; try reflexivity.
  - pose proof (@id_surrogate_range c Heqb (proj1 R)) as R'.
    cbn [forallb]. rewrite !id_hexChar_scalar by id_zlia. reflexivity.
  - cbn [forallb]. rewrite andb_true_r. unfold isScalar. revert Heqb.
    id_cases; cbn [andb orb]; intros; try discriminate; reflexivity.
Qed.

Lemma id_escaped_scalar (s : Text) :
  isString s = true -> forallb isScalar (flat_map escapeChar s) = true.
Proof.
  induction s as [|c s IH]; intros S; [reflexivity|].
  apply id_isString_cons in S. destruct S as [R [_ S]].
  cbn [flat_map]. rewrite forallb_app, (@id_escapeChar_scalar _ R), (IH S).
  reflexivity.
Qed.

Lemma id_quote_scalar (s : Text) :
  isString s = true -> forallb isScalar (quote s) = true.
Proof.
  intros S. unfold quote. cbn [forallb].
  rewrite forallb_app, (@id_escaped_scalar _ S). reflexivity.
Qed.

Lemma id_membersText_scalar (ms : list (Text * Text)) :
  forallb isStringPair ms = true -> forallb isScalar (membersText ms) = true.
Proof.
  induction ms as [|[k v] ms IH]; intros F; [reflexivity|].
  cbn [forallb] in F. apply andb_prop in F. destruct F as [P F].
  unfold isStringPair in P. cbn [fst snd] in P.
  apply andb_prop in P. destruct P as [K V].
  cbn [membersText flat_map]. unfold memberOf at 1. cbn [fst snd app forallb].
  rewrite !forallb_app. cbn [forallb].
  rewrite (@id_quote_scalar _ K), (@id_quote_scalar _ V).
  fold (membersText ms). rewrite (IH F). reflexivity.
Qed.

Lemma id_stringifyPayload_scalar (id : IdentityAttribution) :
  normalized (beneficiaryName id) -> normalized (beneficiaryEmail id) ->
  normalized (authProvider id) -> normalized (authSubject id) ->
  forallb isScalar (stringifyPayload id) = true.
Proof.
  intros N E P S. rewrite (@id_stringifyPayload_members id N E P S).
  cbn [forallb]. rewrite forallb_app. cbn [forallb].
  rewrite !forallb_app. cbn [forallb].
  rewrite (@id_quote_scalar _ (id_methodText_string id)).
  rewrite (@id_membersText_scalar _ (@id_present_strings id N E P S)).
  reflexivity.
Qed.

(** *** What the parser reads in the payload *)

Lemma id_getMember_payload (mt : Text) (n e p s : option Text) :
  let members :=
    (txt "v", JNum one) :: (txt "method", JStr mt)
    :: strings (optional "name" n ++ optional "email" e
                ++ optional "provider" p ++ optional "subject" s) in
  getMember (txt "v") members = Some (JNum one)
  /\ getMember (txt "method") members = Some (JStr mt)
  /\ getMember (txt "name") members = option_map JStr n
  /\ getMember (txt "email") members = option_map JStr e
  /\ getMember (txt "provider") members = option_map JStr p
  /\ getMember (txt "subject") members = option_map JStr s.
Proof. destruct n, e, p, s; repeat split; reflexivity. Qed.

Lemma id_normalizeMember_field (value : option Text) :
  normalized value -> normalizeMember (option_map JStr value) = ok value.
Proof.
  destruct value as [v|]; [|reflexivity]. intros [_ N].
  cbn [option_map normalizeMember]. rewrite N. reflexivity.
Qed.

Lemma id_methodOfText_methodText (m : AuthMethod) :
  m <> none -> methodOfText (methodText m) = Some m.
Proof. destruct m; [contradiction| | |]; reflexivity. Qed.

Lemma id_normalize_appended (reason enc : Text) :
  reason <> [] -> trim reason = reason ->
  normalize (@Some Text (reason ++ tagSuffix enc))
  = @Some Text (reason ++ tagSuffix enc).
Proof.
  intros N T. destruct (id_trim_fixed T) as [H _].
  destruct reason as [|c r]; [contradiction|].
  apply id_trimStart_fixed_head in H.
  assert (E : (c :: r) ++ tagSuffix enc
              = c :: (r ++ 32 :: txt "[identity" ++ 58 :: enc) ++ [93]).
  { unfold tagSuffix. cbn [app].
    rewrite <- (app_assoc r (32 :: txt "[identity" ++ 58 :: enc) [93]).
    reflexivity. }
  rewrite E. unfold normalize. cbn [isEmptyText].
  assert (R : trim (c :: (r ++ 32 :: txt "[identity" ++ 58 :: enc) ++ [93])
              = c :: (r ++ 32 :: txt "[identity" ++ 58 :: enc) ++ [93]).
  { unfold trim, trimEnd. rewrite (@id_trimStart_head _ _ H).
    change (c :: (r ++ 32 :: txt "[identity" ++ 58 :: enc) ++ [93])
      with ((c :: r ++ 32 :: txt "[identity" ++ 58 :: enc) ++ [93]).
    rewrite rev_app_distr. cbn [rev app].
    rewrite (@id_trimStart_head 93 _ eq_refl).
    cbn [rev]. rewrite rev_app_distr. cbn [rev app].
    rewrite rev_involutive. reflexivity. }
  rewrite R. reflexivity.
Qed.

Lemma id_utf8Encode_nonempty (id : IdentityAttribution) :
  utf8Encode (stringifyPayload id) <> [].
Proof. discriminate. Qed.

(** *** The round trip *)

(** C4 — identity round trip: for a trimmed reason that is not empty and an
    attribution of a method other than none whose fields are normalized
    (absent, or the trimmed text of a string that is not empty; the email
    also fixed by lower-casing), parsing the reason with the identity
    appended gives back the reason and an identity of the same method,
    name, email, provider and subject. *)
Theorem identity_round_trip (toLowerCase : Text -> Text) (reason : Text)
    (id : IdentityAttribution) :
  reason <> [] -> trim reason = reason ->
  authMethod id <> none ->
  normalized (beneficiaryName id) ->
  normalized (beneficiaryEmail id) ->
  normalizeEmail toLowerCase (beneficiaryEmail id) = beneficiaryEmail id ->
  normalized (authProvider id) ->
  normalized (authSubject id) ->
  parseAttributedReason toLowerCase (Some (appendIdentityToReason reason id))
  = {| reasonText := reason; identity := Some (encodedOf id) |}.
Proof.
  intros Nr Tr M Nn Ne Le Np Ns.
  set (payload := stringifyPayload id).
  set (enc := base64urlEncode (utf8Encode payload)).
  assert (A : appendIdentityToReason reason id = reason ++ tagSuffix enc).
  { unfold appendIdentityToReason.
    destruct (authMethod id); [contradiction| | |]; reflexivity. }
  assert (Fe : forallb isTagChar enc = true)
    by apply id_base64url_tag_chars, id_utf8Encode_bytes.
  assert (Ee : enc <> [])
    by apply id_base64url_nonempty, id_utf8Encode_nonempty.
  assert (D : utf8Decode (base64urlDecode enc) = payload).
  { unfold enc. rewrite (id_base64url_round_trip (id_utf8Encode_bytes payload)).
    apply id_utf8_round_trip, id_stringifyPayload_scalar; assumption. }
  rewrite A. unfold parseAttributedReason.
  rewrite (id_normalize_appended enc Nr Tr).
  rewrite (@id_matchIdentityTag_appended reason enc
             (or_intror (id_trimmed_endsVisibly Nr Tr)) Ee Fe).
  rewrite D. unfold payload.
  rewrite (@id_jsonParse_payload id Nn Ne Np Ns).
  destruct (id_getMember_payload (methodText (authMethod id))
              (beneficiaryName id) (beneficiaryEmail id) (authProvider id)
              (authSubject id)) as [Gv [Gm [Gn [Gm' [Gp Gs]]]]].
  fold (present id) in Gv, Gm, Gn, Gm', Gp, Gs.
  rewrite Gv, Gm, Gn, Gm', Gp, Gs.
  change (numberIsOne one) with true.
  rewrite (id_methodOfText_methodText M).
  rewrite !id_normalizeMember_field by assumption.
  unfold ok. cbn [bindR].
  assert (L : option_map toLowerCase (beneficiaryEmail id)
              = beneficiaryEmail id).
  { destruct (beneficiaryEmail id) as [e|]; [|reflexivity].
    destruct Ne as [_ Ne]. unfold normalizeEmail in Le.
    rewrite Ne in Le. exact Le. }
  rewrite L.
  destruct reason as [|c r]; [contradiction|]. reflexivity.
Qed.

Lemma identity_round_trip_witness :
  parseAttributedReason lowerAscii
    (Some (appendIdentityToReason (txt "Funding regenerative impact")
             exampleIdentity))
  = {| reasonText := txt "Funding regenerative impact";
       identity := Some (encodedOf exampleIdentity) |}.
Proof.
  apply identity_round_trip.
  - discriminate.
  - reflexivity.
  - discriminate.
  - split; reflexivity.
  - split; reflexivity.
  - reflexivity.
  - split; reflexivity.
  - split; reflexivity.
Defined.

(** ** Identity capture and plain reasons *)

Import Identity.

Lemma xid_trimStart_idempotent (t : Text) :
  trimStart (trimStart t) = trimStart t.
Proof.
  induction t as [|c r IH]; [reflexivity|].
  cbn [trimStart]. destruct (isWhiteSpace c) eqn:W; [exact IH|].
  cbn [trimStart]. rewrite W. reflexivity.
Qed.

Lemma xid_trimStart_prefix (t rest : Text) :
  trimStart (t ++ rest) = t ++ rest -> t <> [] -> trimStart t = t.
Proof.
  destruct t as [|c r]; [contradiction|]. intros H _.
  cbn [app] in H. apply id_trimStart_fixed_head in H.
  apply id_trimStart_head, H.
Qed.

Lemma xid_trim_idempotent (t : Text) : trim (trim t) = trim t.
Proof.
  unfold trim, trimEnd.
  set (a := trimStart t). set (b := trimStart (rev a)).
  assert (Ha : trimStart a = a) by apply xid_trimStart_idempotent.
  assert (Hb : trimStart b = b) by apply xid_trimStart_idempotent.
  assert (Hr : trimStart (rev b) = rev b).
  { destruct (id_trimStart_split (rev a)) as [ws [E _]]. fold b in E.
    apply (f_equal (@rev Z)) in E. rewrite rev_involutive, rev_app_distr in E.
    destruct (rev b) as [|x rb] eqn:R; [reflexivity|].
    rewrite E in Ha. apply (@xid_trimStart_prefix (x :: rb) (rev ws) Ha).
    discriminate. }
  rewrite Hr, rev_involutive, Hb. reflexivity.
Qed.

Lemma xid_normalize_idempotent (value : option Text) :
  normalize (normalize value) = normalize value.
Proof.
  destruct value as [v|]; [|reflexivity]. unfold normalize.
  destruct (isEmptyText v); [reflexivity|].
  destruct (isEmptyText (trim v)) eqn:E; [reflexivity|].
  rewrite E, xid_trim_idempotent, E. reflexivity.
Qed.

Lemma xid_normalize_truthy (value : option Text) :
  truthyText (normalize value)
  = match normalize value with Some _ => true | None => false end.
Proof.
  destruct value as [v|]; [|reflexivity]. unfold normalize.
  destruct (isEmptyText v); [reflexivity|].
  destruct (isEmptyText (trim v)) eqn:E; [reflexivity|].
  cbn [truthyText]. rewrite E. reflexivity.
Qed.

Section Capture.

Variable toLowerCase : Text -> Text.

(** X1. Whenever [captureIdentity] returns an identity, its method says
    which fields it carries: oauth has provider and subject, email has an
    email and neither provider nor subject, manual has a name only, and none
    has no field at all. *)
Theorem captureIdentity_method_tells_fields (input : IdentityInput)
    (id : IdentityAttribution) :
  captureIdentity toLowerCase input = ok id ->
  match authMethod id with
  | oauth =>
      truthyText (authProvider id) = true /\ truthyText (authSubject id) = true
  | email =>
      truthyText (beneficiaryEmail id) = true
      /\ authProvider id = None /\ authSubject id = None
  | manual =>
      truthyText (beneficiaryName id) = true
      /\ beneficiaryEmail id = None
      /\ authProvider id = None /\ authSubject id = None
  | none =>
      beneficiaryName id = None /\ beneficiaryEmail id = None
      /\ authProvider id = None /\ authSubject id = None
  end.
Proof.
  unfold captureIdentity.
  destruct (match normalizeEmail toLowerCase (inputBeneficiaryEmail input) with
            | Some e => negb (isEmptyText e) && negb (emailPattern e)
            | None => false
            end); [discriminate|].
  destruct (truthyText (normalize (inputAuthProvider input))) eqn:P;
    destruct (truthyText (normalize (inputAuthSubject input))) eqn:S;
    cbn [xorb andb]; try discriminate.
  - intros H. injection H as <-. cbn. split; assumption.
  - destruct (truthyText (normalizeEmail toLowerCase
                            (inputBeneficiaryEmail input))) eqn:E.
    + intros H. injection H as <-. cbn. repeat split; assumption.
    + destruct (truthyText (normalize (inputBeneficiaryName input))) eqn:N;
        intros H; injection H as <-; cbn; repeat split; assumption.
Qed.

(** X2. A provider without a subject, or a subject without a provider, is
    never accepted: [captureIdentity] raises. *)
Theorem captureIdentity_rejects_half_oauth (input : IdentityInput) :
  truthyText (normalize (inputAuthProvider input))
  <> truthyText (normalize (inputAuthSubject input)) ->
  captureIdentity toLowerCase input
  = throw (Error "Invalid beneficiary_email format")
  \/ captureIdentity toLowerCase input
     = throw (Error "auth_provider and auth_subject must be provided together").
Proof.
  intros H. unfold captureIdentity.
  destruct (match normalizeEmail toLowerCase (inputBeneficiaryEmail input) with
            | Some e => negb (isEmptyText e) && negb (emailPattern e)
            | None => false
            end); [left; reflexivity|right].
  destruct (truthyText (normalize (inputAuthProvider input))),
    (truthyText (normalize (inputAuthSubject input)));
    cbn [xorb]; try reflexivity; contradiction.
Qed.

(** X3. What [captureIdentity] returns is normalized: name, provider and
    subject are unchanged by a second normalization (trimmed, and absent
    rather than empty), and an email that is not empty matches the email
    pattern. *)
Theorem captureIdentity_fields_normalized (input : IdentityInput)
    (id : IdentityAttribution) :
  captureIdentity toLowerCase input = ok id ->
  normalize (beneficiaryName id) = beneficiaryName id
  /\ normalize (authProvider id) = authProvider id
  /\ normalize (authSubject id) = authSubject id
  /\ (truthyText (beneficiaryEmail id) = true ->
      exists e, beneficiaryEmail id = Some e /\ emailPattern e = true).
Proof.
  unfold captureIdentity.
  destruct (normalizeEmail toLowerCase (inputBeneficiaryEmail input))
    as [e|] eqn:E.
  - destruct (emailPattern e) eqn:P.
    + rewrite andb_false_r.
      destruct (truthyText (normalize (inputAuthProvider input)));
        destruct (truthyText (normalize (inputAuthSubject input)));
        cbn [xorb andb]; try discriminate.
      * intros H. injection H as <-. cbn.
        rewrite !xid_normalize_idempotent. repeat split.
        intros _. exists e. split; [reflexivity|exact P].
      * destruct (truthyText (Some e)) eqn:T.
        -- intros H. injection H as <-. cbn.
           rewrite !xid_normalize_idempotent. repeat split.
           intros _. exists e. split; [reflexivity|exact P].
        -- destruct (truthyText (normalize (inputBeneficiaryName input)));
             intros H; injection H as <-; cbn;
             rewrite ?xid_normalize_idempotent; repeat split; discriminate.
    + destruct (isEmptyText e) eqn:Em; cbn [negb andb]; [|discriminate].
      destruct (truthyText (normalize (inputAuthProvider input)));
        destruct (truthyText (normalize (inputAuthSubject input)));
        cbn [xorb andb]; try discriminate.
      * intros H. injection H as <-. cbn.
        rewrite !xid_normalize_idempotent, Em. repeat split. discriminate.
      * cbn [truthyText]. rewrite Em. cbn [negb].
        destruct (truthyText (normalize (inputBeneficiaryName input)));
          intros H; injection H as <-; cbn;
          rewrite ?xid_normalize_idempotent; repeat split; discriminate.
  - destruct (truthyText (normalize (inputAuthProvider input)));
      destruct (truthyText (normalize (inputAuthSubject input)));
      cbn [xorb andb truthyText]; try discriminate.
    + intros H. injection H as <-. cbn.
      rewrite !xid_normalize_idempotent. repeat split. discriminate.
    + destruct (truthyText (normalize (inputBeneficiaryName input)));
        intros H; injection H as <-; cbn;
        rewrite ?xid_normalize_idempotent; repeat split; discriminate.
Qed.

(** *** What the parser makes of other texts *)

Lemma xid_matchIdentityTag_closing (t before enc : Text) :
  matchIdentityTag t = Some (before, enc) -> In 93 t.
Proof.
  revert before. induction t as [|c r IH]; intros before H.
  - cbn in H. discriminate.
  - assert (M : matchIdentityTag (c :: r)
                = match matchTagAt (c :: r) with
                  | Some encoded => Some ([], encoded)
                  | None =>
                      match matchIdentityTag r with
                      | Some (b, encoded) => Some (c :: b, encoded)
                      | None => None
                      end
                  end) by reflexivity.
    rewrite M in H. clear M.
    destruct (matchTagAt (c :: r)) as [e|] eqn:A.
    + apply id_matchTagAt_sound in A.
      destruct A as [ws [ws' [E _]]]. rewrite E.
      apply in_or_app. right. apply in_or_app. right. left. reflexivity.
    + destruct (matchIdentityTag r) as [[b e]|] eqn:R;
        [|discriminate].
      injection H as _ <-. right. apply (IH b). reflexivity.
Qed.

(** X4. A reason that holds no closing bracket is returned trimmed and
    without identity; a missing or blank reason becomes the default
    reason. *)
Theorem parseAttributedReason_plain (reason : option Text) :
  (forall r, normalize reason = Some r -> ~ In 93 r) ->
  parseAttributedReason toLowerCase reason
  = {| reasonText := match normalize reason with
                     | Some r => r
                     | None => defaultReason
                     end;
       identity := None |}.
Proof.
  intros H. unfold parseAttributedReason.
  destruct (normalize reason) as [r|].
  - destruct (matchIdentityTag r) as [[before enc]|] eqn:M;
      [|reflexivity].
    exfalso. apply (H r eq_refl). apply (xid_matchIdentityTag_closing _ M).
  - reflexivity.
Qed.

Lemma xid_methodOfText_not_none (t : Text) (m : AuthMethod) :
  methodOfText t = Some m -> m <> none.
Proof.
  unfold methodOfText.
  destruct (textEqb t (txt "manual")); [intros H; injection H as <-; discriminate|].
  destruct (textEqb t (txt "email")); [intros H; injection H as <-; discriminate|].
  destruct (textEqb t (txt "oauth")); [intros H; injection H as <-; discriminate|].
  discriminate.
Qed.

(** X5. Whatever a tag holds, the parser either returns an identity whose
    method is manual, email or oauth, or returns the trimmed reason as it
    was given (the default reason for a blank one) without identity. *)
Theorem parseAttributedReason_forged (reason : option Text) :
  match identity (parseAttributedReason toLowerCase reason) with
  | Some parsed => method parsed <> none
  | None =>
      reasonText (parseAttributedReason toLowerCase reason)
      = match normalize reason with
        | Some r => r
        | None => defaultReason
        end
  end.
Proof.
  unfold parseAttributedReason.
  set (raw := match normalize reason with
              | Some r => r
              | None => defaultReason
              end).
  destruct (matchIdentityTag raw) as [[before enc]|];
    [|reflexivity].
  destruct (jsonParse (utf8Decode (base64urlDecode enc)))
    as [[| | | | |members]|]; try reflexivity.
  destruct (getMember (txt "v") members) as [[| |v| | |]|]; try reflexivity.
  destruct (getMember (txt "method") members) as [[| | |m| |]|];
    try reflexivity.
  destruct (numberIsOne v); [|reflexivity].
  destruct (methodOfText m) as [parsedMethod|] eqn:M; [|reflexivity].
  destruct (normalizeMember (getMember (txt "name") members)) as [|n];
    [reflexivity|].
  destruct (normalizeMember (getMember (txt "email") members)) as [|e];
    [reflexivity|].
  destruct (normalizeMember (getMember (txt "provider") members)) as [|p];
    [reflexivity|].
  destruct (normalizeMember (getMember (txt "subject") members)) as [|s];
    [reflexivity|].
  cbn. apply (xid_methodOfText_not_none _ M).
Qed.

End Capture.

Lemma captureIdentity_method_tells_fields_witness :
  truthyText (Some (txt "google")) = true
  /\ truthyText (Some (txt "sub-123")) = true.
Proof.
  apply (@captureIdentity_method_tells_fields lowerAscii
           {| inputBeneficiaryName := Some (txt " Alice ");
              inputBeneficiaryEmail := Some (txt "ALICE@Example.com ");
              inputAuthProvider := Some (txt "google");
              inputAuthSubject := Some (txt " sub-123") |}
           exampleIdentity).
  reflexivity.
Defined.

Lemma captureIdentity_rejects_half_oauth_witness :
  captureIdentity lowerAscii
    {| inputBeneficiaryName := None; inputBeneficiaryEmail := None;
       inputAuthProvider := Some (txt "google"); inputAuthSubject := None |}
  = throw (Error "Invalid beneficiary_email format")
  \/ captureIdentity lowerAscii
       {| inputBeneficiaryName := None; inputBeneficiaryEmail := None;
          inputAuthProvider := Some (txt "google"); inputAuthSubject := None |}
     = throw (Error "auth_provider and auth_subject must be provided together").
Proof.
  apply captureIdentity_rejects_half_oauth. discriminate.
Defined.


Lemma captureIdentity_fields_normalized_witness :
  normalize (Some (txt "Alice")) = Some (txt "Alice")
  /\ normalize (Some (txt "google")) = Some (txt "google")
  /\ normalize (Some (txt "sub-123")) = Some (txt "sub-123")
  /\ (truthyText (Some (txt "alice@example.com")) = true ->
      exists e, Some (txt "alice@example.com") = Some e
                /\ emailPattern e = true).
Proof.
  apply (@captureIdentity_fields_normalized lowerAscii
           {| inputBeneficiaryName := Some (txt " Alice ");
              inputBeneficiaryEmail := Some (txt "ALICE@Example.com ");
              inputAuthProvider := Some (txt "google");
              inputAuthSubject := Some (txt " sub-123") |}
           exampleIdentity).
  reflexivity.
Defined.

Lemma parseAttributedReason_plain_witness :
  parseAttributedReason lowerAscii (Some (txt "  plain reason "))
  = {| reasonText := txt "plain reason"; identity := None |}.
Proof.
  apply (@parseAttributedReason_plain lowerAscii (Some (txt "  plain reason "))).
  intros r H. injection H as <-. vm_compute. intuition discriminate.
Defined.

(** ** Attribution: what every allocation looks like *)

Import Attribution.

Lemma xattr_zeros_length (weights : list Z) :
  List.length (map (fun _ : Z => 0) weights) = List.length weights.
Proof. apply length_map. Qed.

Lemma xattr_zeros_nonneg (weights : list Z) :
  Forall (fun a => 0 <= a) (map (fun _ : Z => 0) weights).
Proof. induction weights; constructor; auto; lia. Qed.

(** X6. For weights that are not negative [allocateProportionally] never
    raises, whatever the total: it returns one allocation per weight, none
    of them negative. *)
Theorem allocateProportionally_never_raises (total : Z) (weights : list Z) :
  Forall (fun w => 0 <= w) weights ->
  exists allocations,
    allocateProportionally total weights = ok allocations
    /\ List.length allocations = List.length weights
    /\ Forall (fun a => 0 <= a) allocations.
Proof.
  intros Hw.
  destruct (Z.leb_spec total 0) as [Ht|Ht].
  { exists (map (fun _ => 0) weights). unfold allocateProportionally.
    destruct (Z.leb_spec total 0); [|lia]. cbn [orb].
    split; [reflexivity|].
    split; [apply xattr_zeros_length|apply xattr_zeros_nonneg]. }
  destruct (Z.leb_spec (Js.sum weights) 0) as [Hs|Hs].
  { exists (map (fun _ => 0) weights). unfold allocateProportionally.
    destruct ((total <=? 0) || (List.length weights =? 0)%nat);
      [|destruct (Z.leb_spec (Js.sum weights) 0); [|lia]];
      (split; [reflexivity|]);
      (split; [apply xattr_zeros_length|apply xattr_zeros_nonneg]). }
  destruct (@allocate_exact total weights) as (a & E & _ & L & N);
    [lia|exact Hw|exact Hs|].
  exists a. repeat split; assumption.
Qed.

Lemma allocateProportionally_never_raises_witness :
  exists allocations,
    allocateProportionally (-5) [3; 0; 4] = ok allocations
    /\ List.length allocations = List.length [3; 0; 4]
    /\ Forall (fun a => 0 <= a) allocations.
Proof.
  apply allocateProportionally_never_raises.
  repeat constructor; lia.
Defined.

Lemma xattr_mapiFrom_in (A B : Type) (f : A -> nat -> B) (d : A) (l : list A)
    (k : nat) (b : B) :
  In b (Js.mapiFrom f k l) ->
  exists i, (i < List.length l)%nat /\ b = f (nth i l d) (k + i)%nat.
Proof.
  revert k. induction l as [|a l IH]; intros k H; cbn [Js.mapiFrom] in H.
  - contradiction.
  - destruct H as [<-|H].
    + exists 0%nat. cbn [List.length nth]. rewrite Nat.add_0_r.
      split; [lia|reflexivity].
    + destruct (IH _ H) as (i & Hi & E). exists (S i).
      cbn [List.length nth]. split; [lia|].
      rewrite E. f_equal. lia.
Qed.

Lemma xattr_makeEntries_in (total sumWeights : Z) (weights : list Z)
    (e : Entry) :
  In e (makeEntries total sumWeights weights) ->
  (index e < List.length weights)%nat
  /\ base e = Z.quot (total * nth (index e) weights 0) sumWeights.
Proof.
  unfold makeEntries, Js.mapi. intros H.
  destruct (xattr_mapiFrom_in _ 0 _ _ _ H) as (i & Hi & ->).
  cbn [index base Nat.add]. split; [exact Hi|reflexivity].
Qed.

Lemma xattr_distribute_in (es : list Entry) (k : Z) (e : Entry) :
  In e (distribute es k) ->
  exists e0, In e0 es /\ index e = index e0
             /\ base e0 <= base e <= base e0 + 1.
Proof.
  revert k. induction es as [|x es IH]; intros k H; cbn [distribute] in H.
  - contradiction.
  - destruct (0 <? k).
    + destruct H as [<-|H].
      * exists x. cbn [bump index base]. repeat split; auto with datatypes; lia.
      * destruct (IH _ H) as (e0 & Hin & Hi & Hb).
        exists e0. repeat split; auto with datatypes; lia.
    + exists e. repeat split; auto; lia.
Qed.

Lemma xattr_fold_setAt_nth (es : list Entry) (res : list Z) (e : Entry) :
  NoDup (map index es) -> In e es ->
  (forall x, In x es -> (index x < List.length res)%nat) ->
  nth (index e)
      (fold_left (fun r item => Js.setAt (index item) (base item) r) es res) 0
  = base e.
Proof.
  revert res. induction es as [|x es IH]; intros res Hnd Hin Hlt;
    [contradiction|].
  cbn [map] in Hnd. inversion Hnd as [|i l Hni Hnd']; subst.
  cbn [fold_left]. destruct (in_dec Nat.eq_dec (index e) (map index es))
    as [Hmem|Hnot].
  - destruct Hin as [->|Hin]; [contradiction|].
    apply IH; [exact Hnd'|exact Hin|].
    intros y Hy. rewrite setAt_length. apply Hlt. right. exact Hy.
  - destruct Hin as [->|Hin];
      [|exfalso; apply Hnot, in_map, Hin].
    clear IH Hnd Hni.
    assert (G : forall (l : list Entry) (r : list Z),
               ~ In (index e) (map index l) ->
               nth (index e)
                 (fold_left (fun r item => Js.setAt (index item) (base item) r)
                            l r) 0
               = nth (index e) r 0).
    { induction l as [|y l IHl]; intros r Hn; cbn [fold_left]; [reflexivity|].
      cbn [map] in Hn. rewrite IHl by (intros Q; apply Hn; right; exact Q).
      apply setAt_nth_other. intros Q. apply Hn. left. exact Q. }
    rewrite (G es _ Hnot).
    specialize (Hlt e (or_introl eq_refl)).
    clear - Hlt. revert res Hlt. generalize (index e) as i.
    induction i as [|i IH]; intros [|r0 res] Hlt; cbn [List.length] in Hlt;
      try lia; cbn [Js.setAt nth]; [reflexivity|].
    apply IH. lia.
Qed.

(** X7. Each allocation is the proportional share of its weight rounded
    down, or that plus one unit. *)
Theorem allocateProportionally_share_or_one_more (total : Z)
    (weights allocations : list Z) (i : nat) :
  0 < total -> Forall (fun w => 0 <= w) weights -> 0 < Js.sum weights ->
  allocateProportionally total weights = ok allocations ->
  (i < List.length weights)%nat ->
  Z.quot (total * nth i weights 0) (Js.sum weights) <= nth i allocations 0
  /\ nth i allocations 0
     <= Z.quot (total * nth i weights 0) (Js.sum weights) + 1.
Proof.
  intros Ht Hw Hs H Hi. unfold allocateProportionally in H.
  destruct (Z.leb_spec total 0); [lia|].
  destruct (Nat.eqb_spec (List.length weights) 0); [lia|]. cbn [orb] in H.
  destruct (Z.leb_spec (Js.sum weights) 0); [lia|].
  set (W := Js.sum weights) in *.
  set (entries := makeEntries total W weights) in *.
  set (k := total - fold_left (fun acc item => acc + base item) entries 0) in *.
  set (bumped := distribute (Js.sort compareEntries entries) k) in *.
  destruct (Js.sum _ =? total); [|discriminate]. injection H as <-.
  assert (Hperm : Permutation (Js.sort compareEntries entries) entries)
    by apply sort_permutation.
  assert (Hidx : Permutation (map index bumped) (seq 0 (List.length weights))).
  { unfold bumped. rewrite distribute_index.
    rewrite <- (makeEntries_index total W weights).
    apply Permutation_map, Hperm. }
  assert (Hin : In i (map index bumped)).
  { apply (Permutation_in _ (Permutation_sym Hidx)). apply in_seq. lia. }
  apply in_map_iff in Hin. destruct Hin as (e & <- & He).
  rewrite xattr_fold_setAt_nth.
  - destruct (xattr_distribute_in _ _ _ He) as (e0 & Hin0 & Hi0 & Hb).
    apply (Permutation_in _ Hperm) in Hin0.
    destruct (xattr_makeEntries_in _ _ _ _ Hin0) as [_ Hq].
    rewrite Hi0, <- Hq. exact Hb.
  - apply (Permutation_NoDup (Permutation_sym Hidx)), seq_NoDup.
  - exact He.
  - intros x Hx. rewrite repeat_length.
    apply (in_map index) in Hx.
    apply (Permutation_in _ Hidx) in Hx. apply in_seq in Hx. lia.
Qed.

Lemma allocateProportionally_share_or_one_more_witness :
  Z.quot (2 * nth 0 [1; 1; 1] 0) (Js.sum [1; 1; 1]) <= nth 0 [1; 1; 0] 0
  /\ nth 0 [1; 1; 0] 0
     <= Z.quot (2 * nth 0 [1; 1; 1] 0) (Js.sum [1; 1; 1]) + 1.
Proof.
  apply (@allocateProportionally_share_or_one_more 2 [1; 1; 1] [1; 1; 0] 0).
  - lia.
  - repeat constructor; lia.
  - vm_compute. reflexivity.
  - vm_compute. reflexivity.
  - cbn. lia.
Defined.

(** X8. A quantity written by [microToQuantity] is read back by
    [parseQuantityToMicro] as the same number of micro-units, for every
    amount that is not negative. *)
Theorem microToQuantity_round_trip (micro : Z) :
  0 <= micro -> parseQuantityToMicro (microToQuantity micro) = ok micro.
Proof. apply parseQuantityToMicro_microToQuantity. Qed.

Lemma microToQuantity_round_trip_witness :
  parseQuantityToMicro (microToQuantity 1250000) = ok 1250000.
Proof. apply microToQuantity_round_trip. lia. Defined.

(** ** Order selection: where the selected orders come from *)

Section SelectionFacts.

Import OrderSelector.

Variable toLowerCase : string -> string.
Variable parseFloat : string -> float.
Variable dateValue : string -> option Z.
Variable now : Z.

Lemma xsel_takeFromOrder_from (st st' : LoopState) (order : SellOrder) :
  takeFromOrder parseFloat st order = ok (Some st') ->
  exists o, selected st' = selected st ++ [o] /\ takenFrom order o.
Proof.
  unfold takeFromOrder.
  destruct (negb _ || _); [discriminate|].
  destruct (Js.floorFloat _) as [availableMicro|]; [|discriminate].
  destruct (availableMicro <=? 0); [discriminate|].
  destruct (Js.BigInt (ask_amount order)) as [e|price]; [discriminate|].
  cbn [bindR].
  destruct (price <=? 0); [discriminate|].
  destruct (Z.quot (remainingBudget st * MICRO_CREDITS) price <=? 0);
    [discriminate|].
  destruct ((if availableMicro
                 <? Z.quot (remainingBudget st * MICRO_CREDITS) price
             then availableMicro
             else Z.quot (remainingBudget st * MICRO_CREDITS) price) <=? 0);
    [discriminate|].
  destruct (_ || _); [discriminate|].
  intros H. injection H as <-. eexists. cbn [selected].
  split; [reflexivity|]. unfold takenFrom. cbn. repeat split.
Qed.

Lemma xsel_selectLoop_from (eligible : list SellOrder) (st final : LoopState) :
  selectLoop parseFloat eligible st = ok final ->
  exists added,
    selected final = selected st ++ added
    /\ Forall (fun o => exists order, In order eligible /\ takenFrom order o)
              added
    /\ (StronglySorted cheaperOrder eligible ->
        StronglySorted cheaperSelected added).
Proof.
  revert st. induction eligible as [|order rest IH]; intros st H;
    cbn [selectLoop] in H.
  - injection H as <-. exists []. rewrite app_nil_r.
    repeat split; constructor.
  - destruct (remainingBudget st <=? 0).
    { injection H as <-. exists []. rewrite app_nil_r.
      repeat split; constructor. }
    destruct (takeFromOrder parseFloat st order) as [e|[st'|]] eqn:Estep;
      cbn [bindR] in H; [discriminate| |].
    + destruct (xsel_takeFromOrder_from _ _ Estep) as (o & Hsel & Hfrom).
      destruct (IH _ H) as (added & Hsel' & Hall & Hsorted).
      exists (o :: added). split; [|split].
      * rewrite Hsel', Hsel, <- app_assoc. reflexivity.
      * constructor.
        -- exists order. split; [left; reflexivity|exact Hfrom].
        -- eapply Forall_impl; [|exact Hall].
           intros a (order' & Hin & Hf). exists order'.
           split; [right; exact Hin|exact Hf].
      * intros Hs. apply StronglySorted_inv in Hs. destruct Hs as [Hs Hle].
        constructor; [exact (Hsorted Hs)|].
        rewrite Forall_forall in Hall, Hle |- *.
        intros a Ha. destruct (Hall a Ha) as (order' & Hin & Hf).
        specialize (Hle order' Hin).
        unfold cheaperSelected, cheaperOrder in *.
        destruct Hfrom as (_ & _ & -> & _). destruct Hf as (_ & _ & -> & _).
        exact Hle.
    + destruct (IH _ H) as (added & Hsel' & Hall & Hsorted).
      exists added. split; [exact Hsel'|split].
      * eapply Forall_impl; [|exact Hall].
        intros a (order' & Hin & Hf). exists order'.
        split; [right; exact Hin|exact Hf].
      * intros Hs. apply StronglySorted_inv in Hs. apply Hsorted, Hs.
Qed.

(** *** The eligible orders, cheapest first *)

Lemma xsel_comparePrice_le (a b : Z * SellOrder) :
  (comparePrice a b <=? 0) = (fst a <=? fst b).
Proof.
  unfold comparePrice.
  destruct (Z.ltb_spec (fst a) (fst b)); [|destruct (Z.ltb_spec (fst b) (fst a))];
    destruct (Z.leb_spec (fst a) (fst b)); try reflexivity; lia.
Qed.

Lemma xsel_insertSorted_sorted (x : Z * SellOrder) (l : list (Z * SellOrder)) :
  StronglySorted (fun a b => fst a <= fst b) l ->
  StronglySorted (fun a b => fst a <= fst b) (Js.insertSorted comparePrice x l).
Proof.
  induction 1 as [|y l Hl IH Hy]; cbn [Js.insertSorted].
  - repeat constructor.
  - rewrite xsel_comparePrice_le. destruct (Z.leb_spec (fst x) (fst y)).
    + constructor; [constructor; assumption|].
      constructor; [assumption|].
      eapply Forall_impl; [|exact Hy]. cbn. intros a Ha. lia.
    + constructor; [exact IH|].
      apply (Permutation_Forall
               (Permutation_sym (insertSorted_permutation comparePrice x l))).
      constructor; [lia|exact Hy].
Qed.

Lemma xsel_sort_sorted (l : list (Z * SellOrder)) :
  StronglySorted (fun a b => fst a <= fst b) (Js.sort comparePrice l).
Proof.
  induction l as [|x l IH]; cbn [Js.sort fold_right]; [constructor|].
  apply xsel_insertSorted_sorted, IH.
Qed.

Lemma xsel_priced (eligible : list SellOrder) (priced : list (Z * SellOrder)) :
  Js.mapR (fun o => do p <- Js.BigInt (ask_amount o) ;; ok (p, o)) eligible
  = ok priced ->
  priced = map (fun o => (askPrice (ask_amount o), o)) eligible.
Proof.
  revert priced. induction eligible as [|o l IH]; intros priced H;
    cbn [Js.mapR] in H.
  - injection H as <-. reflexivity.
  - unfold askPrice at 1. cbn [map].
    destruct (Js.BigInt (ask_amount o)) as [e|p]; [discriminate|].
    unfold ok in H. cbn [bindR] in H.
    destruct (Js.mapR _ l) as [e|r]; [discriminate|].
    cbn [bindR] in H. injection H as <-.
    rewrite (IH r eq_refl). unfold askPrice at 1.
    reflexivity.
Qed.

Lemma xsel_sorted_by_price (l : list (Z * SellOrder)) :
  Forall (fun x => fst x = askPrice (ask_amount (snd x))) l ->
  StronglySorted (fun a b => fst a <= fst b) l ->
  StronglySorted cheaperOrder (map snd l).
Proof.
  intros F S. induction S as [|x l Sl IH Hx]; cbn [map]; [constructor|].
  inversion F as [|? ? Fx Fl]; subst.
  constructor; [exact (IH Fl)|].
  rewrite Forall_forall in Hx, Fl |- *. intros o Ho.
  apply in_map_iff in Ho. destruct Ho as (y & <- & Hy).
  unfold cheaperOrder. rewrite <- Fx, <- (Fl y Hy). apply Hx, Hy.
Qed.

Lemma xsel_sortEligible (eligible sorted : list SellOrder) :
  sortEligible eligible = ok sorted ->
  Permutation sorted eligible /\ StronglySorted cheaperOrder sorted.
Proof.
  unfold sortEligible.
  destruct eligible as [|a [|b rest]].
  - intros H. injection H as <-. split; constructor.
  - intros H. injection H as <-. split; [apply Permutation_refl|].
    repeat constructor.
  - set (l := a :: b :: rest).
    destruct (Js.mapR _ l) as [e|priced] eqn:E; [discriminate|].
    cbn [bindR]. intros H. injection H as <-.
    apply xsel_priced in E.
    assert (M : map snd priced = l).
    { rewrite E, map_map. cbn [snd]. apply map_id. }
    split.
    + rewrite <- M. apply Permutation_map, sort_permutation.
    + apply xsel_sorted_by_price; [|apply xsel_sort_sorted].
      apply (Permutation_Forall
               (Permutation_sym (sort_permutation comparePrice priced))).
      rewrite E. apply Forall_forall. intros x Hx.
      apply in_map_iff in Hx. destruct Hx as (o & <- & _). reflexivity.
Qed.

Lemma xsel_isEligible (classes : list CreditClass) (denomInfo : DenomInfo)
    (creditType : option CreditType) (order : SellOrder) :
  isEligible dateValue now classes denomInfo creditType order = true ->
  disable_auto_retire order = false
  /\ ask_denom order = bankDenom denomInfo.
Proof.
  unfold isEligible.
  destruct (disable_auto_retire order); [discriminate|].
  destruct (String.eqb_spec (ask_denom order) (bankDenom denomInfo));
    [|discriminate].
  intros _. split; [reflexivity|assumption].
Qed.

(** What a returned selection was computed from. *)
Lemma xsel_selection_from (ledger : Ledger) (creditType : option CreditType)
    (budgetMicro : Z) (preferredDenom : option string)
    (calls : list LedgerCall) (selection : BudgetOrderSelection) :
  selectOrdersForBudget toLowerCase parseFloat dateValue now ledger creditType
    budgetMicro preferredDenom = (calls, ok selection) ->
  exists sellOrders classes allowedDenoms sorted,
    listSellOrders ledger = ok sellOrders
    /\ listCreditClasses ledger = ok classes
    /\ getAllowedDenoms ledger = ok allowedDenoms
    /\ paymentDenom selection
       = bankDenom (pickDenom toLowerCase allowedDenoms preferredDenom)
    /\ Permutation sorted
         (filter (isEligible dateValue now classes
                    (pickDenom toLowerCase allowedDenoms preferredDenom)
                    creditType)
                 sellOrders)
    /\ Forall (fun o => exists order, In order sorted /\ takenFrom order o)
              (orders selection)
    /\ StronglySorted cheaperSelected (orders selection).
Proof.
  unfold selectOrdersForBudget.
  destruct (budgetMicro <=? 0); [discriminate|].
  unfold readLedger. intros H. injection H as _ H.
  destruct (listSellOrders ledger) as [|sellOrders]; [discriminate|].
  destruct (listCreditClasses ledger) as [|classes]; [discriminate|].
  destruct (getAllowedDenoms ledger) as [|allowedDenoms]; [discriminate|].
  unfold ok in H. cbn [bindR] in H. unfold selectFromReads in H.
  destruct (sortEligible _) as [|sorted] eqn:Esort; [discriminate|].
  cbn [bindR] in H.
  destruct (selectLoop parseFloat sorted _) as [|final] eqn:Eloop;
    [discriminate|].
  unfold ok in H. cbn [bindR] in H. injection H as <-.
  destruct (xsel_sortEligible _ Esort) as [Hperm Hsorted].
  destruct (xsel_selectLoop_from _ _ Eloop) as (added & Hsel & Hall & Hs).
  cbn [selected app] in Hsel.
  exists sellOrders, classes, allowedDenoms, sorted.
  cbn [orders paymentDenom]. rewrite Hsel.
  repeat split; try assumption. apply Hs, Hsorted.
Qed.

(** X9. Every order of a returned selection was taken from a sell order of
    the ledger that has auto-retire enabled and asks in the payment denom of
    the selection; id, batch, ask amount and ask denom are that order's. *)
Theorem selectOrdersForBudget_selects_eligible (ledger : Ledger)
    (creditType : option CreditType) (budgetMicro : Z)
    (preferredDenom : option string) (calls : list LedgerCall)
    (selection : BudgetOrderSelection) (sellOrders : list SellOrder)
    (selectedOrder : BudgetSelectedOrder) :
  selectOrdersForBudget toLowerCase parseFloat dateValue now ledger creditType
    budgetMicro preferredDenom = (calls, ok selection) ->
  listSellOrders ledger = ok sellOrders ->
  In selectedOrder (orders selection) ->
  exists order,
    In order sellOrders
    /\ takenFrom order selectedOrder
    /\ disable_auto_retire order = false
    /\ askDenom selectedOrder = paymentDenom selection.
Proof.
  intros H Hl Hin.
  destruct (xsel_selection_from _ _ _ _ H)
    as (sellOrders' & classes & allowed & sorted & Hl' & _ & _ & Hpay & Hperm
        & Hall & _).
  rewrite Hl in Hl'. injection Hl' as <-.
  rewrite Forall_forall in Hall.
  destruct (Hall _ Hin) as (order & Hsorted & Hfrom).
  apply (Permutation_in _ Hperm) in Hsorted.
  apply filter_In in Hsorted. destruct Hsorted as [Hmem Helig].
  apply xsel_isEligible in Helig. destruct Helig as [Hauto Hdenom].
  exists order. split; [exact Hmem|]. split; [exact Hfrom|].
  split; [exact Hauto|].
  destruct Hfrom as (_ & _ & _ & ->). rewrite Hpay. exact Hdenom.
Qed.

(** X10. The orders of a returned selection are in order of ask price,
    cheapest first. *)
Theorem selectOrdersForBudget_cheapest_first (ledger : Ledger)
    (creditType : option CreditType) (budgetMicro : Z)
    (preferredDenom : option string) (calls : list LedgerCall)
    (selection : BudgetOrderSelection) :
  selectOrdersForBudget toLowerCase parseFloat dateValue now ledger creditType
    budgetMicro preferredDenom = (calls, ok selection) ->
  StronglySorted cheaperSelected (orders selection).
Proof.
  intros H.
  destruct (xsel_selection_from _ _ _ _ H)
    as (_ & _ & _ & _ & _ & _ & _ & _ & _ & _ & Hs).
  exact Hs.
Qed.

(** X11. [pickDenom] answers with one of the allowed denoms whenever there
    is one, and with the native denom (uregen, REGEN, exponent 6) when the
    list is empty. *)
Theorem pickDenom_is_allowed (allowedDenoms : list AllowedDenom)
    (preferred : option string) :
  match allowedDenoms with
  | [] =>
      pickDenom toLowerCase allowedDenoms preferred
      = {| bankDenom := "uregen"; displayDenom := "REGEN";
           denomExponent := 6 |}
  | _ :: _ =>
      exists d, In d allowedDenoms
                /\ pickDenom toLowerCase allowedDenoms preferred
                   = denomInfoOf d
  end.
Proof.
  unfold pickDenom. destruct allowedDenoms as [|first rest].
  - destruct preferred as [p|]; [destruct (Js.isEmpty p)|]; reflexivity.
  - set (l := first :: rest).
    destruct (match preferred with
              | Some p => if Js.isEmpty p then None else find _ l
              | None => None
              end) as [m|] eqn:E.
    + exists m. split; [|reflexivity].
      destruct preferred as [p|]; [|discriminate].
      destruct (Js.isEmpty p); [discriminate|].
      apply find_some in E. apply E.
    + destruct (find _ l) as [regen|] eqn:R.
      * exists regen. split; [|reflexivity]. apply find_some in R. apply R.
      * exists first. split; [left; reflexivity|reflexivity].
Qed.

End SelectionFacts.

Import OrderSelector.

Lemma selectOrdersForBudget_selects_eligible_witness :
  exists order,
    In order [scenarioOrder "second" "5" "2000";
              scenarioOrder "first" "1" "1000"]
    /\ takenFrom order (scenarioSelected "first" "1.000000" "1000" 1000)
    /\ disable_auto_retire order = false
    /\ askDenom (scenarioSelected "first" "1.000000" "1000" 1000)
       = paymentDenom
           (scenarioSelection
              [scenarioSelected "first" "1.000000" "1000" 1000;
               scenarioSelected "second" "1.250000" "2000" 2500]
              "2.250000" 3500 0).
Proof.
  apply (@selectOrdersForBudget_selects_eligible toLowerCaseAscii
           parseFloatDecimal (fun _ => None) 0
           (scenarioLedger [scenarioOrder "second" "5" "2000";
                            scenarioOrder "first" "1" "1000"])
           (Some carbon) 3500 None
           [ListSellOrders; ListCreditClasses; GetAllowedDenoms]).
  - vm_compute. reflexivity.
  - reflexivity.
  - left. reflexivity.
Defined.

Lemma selectOrdersForBudget_cheapest_first_witness :
  StronglySorted cheaperSelected
    (orders
       (scenarioSelection
          [scenarioSelected "first" "1.000000" "1000" 1000;
           scenarioSelected "second" "1.250000" "2000" 2500]
          "2.250000" 3500 0)).
Proof.
  apply (@selectOrdersForBudget_cheapest_first toLowerCaseAscii
           parseFloatDecimal (fun _ => None) 0
           (scenarioLedger [scenarioOrder "second" "5" "2000";
                            scenarioOrder "first" "1" "1000"])
           (Some carbon) 3500 None
           [ListSellOrders; ListCreditClasses; GetAllowedDenoms]).
  vm_compute. reflexivity.
Defined.

(** ** Retirement: what a run does downstream *)

Section RetirementRuns.

Import Retirement.

Variable toFixed : nat -> float -> string.
Variable numberToString : float -> string.
Variable parseFloat : string -> float.
Variable pow10 : Z -> float.
Variable centsToFixed2 : Z -> string.

Ltac xanswer w :=
  match goal with
  | |- context [w ?X ?h ?c] =>
      let o := fresh "outcome" in
      let E := fresh "Ew" in
      destruct (w X h c) as [?|o] eqn:E
  end.

Ltac xreduce :=
  cbn [run bindP tryCatch await liftR refundQuietly app fst snd negb
       resOk resJson bindR].

Ltac xbranch :=
  match goal with
  | |- context [bindR ?x _] => destruct x eqn:?
  | |- context [liftR ?x] => destruct x eqn:?
  | |- context [if ?b then _ else _] => destruct b eqn:?
  | |- context [match ?x with inl _ => _ | inr _ => _ end] => destruct x eqn:?
  | |- context [match ?x with Some _ => _ | None => _ end] => destruct x eqn:?
  | |- context [match ?x with authorized => _ | failed => _ end] =>
      destruct x eqn:?
  end.



End RetirementRuns.

Import Retirement.



(** ** Prepaid balances: debits, new users, and what a webhook may change *)

Section StoreFacts.

Import Webhook.

Variable constructEvent : string -> string -> string -> Result StripeEvent.
Variable parseEvent : string -> Result StripeEvent.
Variable centsToFixed2 : Z -> string.

(** X14. With a secret configured, a request whose signature fails
    verification is answered 400 with the verifier's message, and the store
    is left as it was. *)
Theorem postWebhook_rejects_bad_signature (signingSecret sig apiKey : string)
    (db : Db) (req : WebhookRequest) (err : Exn) :
  stripeSignature req = Some sig ->
  Js.isEmpty signingSecret = false -> Js.isEmpty sig = false ->
  constructEvent (body req) sig signingSecret = throw err ->
  postWebhook constructEvent parseEvent centsToFixed2 (Some signingSecret)
    apiKey db req
  = ok (db, {| statusCode := 400;
               json := ErrorBody (String.append "Webhook Error: "
                                    (Js.messageOf err)) |}).
Proof.
  intros Hsig Hs Hg Hc. unfold postWebhook, Js.truthy.
  rewrite Hsig, Hs, Hg. cbn [negb andb]. rewrite Hc. reflexivity.
Qed.

Lemma xweb_handled (db db' : Db) (apiKey : string)
    (parsed : Result StripeEvent) (response : HttpResponse) :
  (do event <- parsed ;;
   do after <-
     (if String.eqb (event_type event) "checkout.session.completed"
      then handleCheckoutCompleted centsToFixed2 db apiKey (session event)
      else ok db) ;;
   ok (after, {| statusCode := 200; json := Received |}))
  = ok (db', response) ->
  exists event,
    parsed = ok event
    /\ (db' = db
        \/ (statusCode response = 200
            /\ event_type event = "checkout.session.completed")).
Proof.
  destruct parsed as [e|event]; cbn [bindR]; [discriminate|].
  intros H. exists event. split; [reflexivity|].
  destruct (String.eqb_spec (event_type event) "checkout.session.completed")
    as [T|T].
  - destruct (handleCheckoutCompleted centsToFixed2 db apiKey (session event));
      cbn [bindR] in H; [discriminate|].
    unfold ok in H. injection H as <- <-. right. split; [reflexivity|exact T].
  - unfold ok in H. cbn [bindR] in H. injection H as <- <-.
    left. reflexivity.
Qed.

Lemma xweb_admitted_verified (secret : option string) (req : WebhookRequest)
    (event : StripeEvent) :
  Js.truthy secret && Js.truthy (stripeSignature req) = true ->
  constructEvent (body req)
    (match stripeSignature req with Some s => s | None => EmptyString end)
    (match secret with Some s => s | None => EmptyString end) = ok event ->
  admitted constructEvent parseEvent secret req event.
Proof.
  unfold admitted, Js.truthy.
  destruct secret as [s|]; [|discriminate].
  destruct (stripeSignature req) as [sig|];
    [|rewrite andb_false_r; discriminate].
  intros V. rewrite V. trivial.
Qed.

Lemma xweb_admitted_unverified (secret : option string) (req : WebhookRequest)
    (event : StripeEvent) :
  Js.truthy secret && Js.truthy (stripeSignature req) = false ->
  parseEvent (body req) = ok event ->
  admitted constructEvent parseEvent secret req event.
Proof.
  unfold admitted, Js.truthy.
  destruct secret as [s|]; [|trivial].
  destruct (stripeSignature req) as [sig|]; [|trivial].
  intros V. rewrite V. trivial.
Qed.

(** X15. A response other than 200 leaves the store as it was, and so does
    every event that is not a completed checkout. *)
Theorem postWebhook_changes_store_only_on_checkout (secret : option string)
    (apiKey : string) (db db' : Db) (req : WebhookRequest)
    (response : HttpResponse) :
  postWebhook constructEvent parseEvent centsToFixed2 secret apiKey db req
  = ok (db', response) ->
  db' = db
  \/ (statusCode response = 200
      /\ exists event,
           admitted constructEvent parseEvent secret req event
           /\ event_type event = "checkout.session.completed").
Proof.
  unfold postWebhook.
  destruct (Js.truthy secret && Js.truthy (stripeSignature req)) eqn:V.
  - destruct (constructEvent (body req) _ _) as [e|event] eqn:C.
    + intros H. unfold ok in H. injection H as <- <-. left. reflexivity.
    + intros H. apply xweb_handled in H.
      destruct H as (event' & E & [H|[H T]]); [left; exact H|right].
      unfold ok in E. injection E as <-.
      split; [exact H|]. exists event.
      split; [exact (xweb_admitted_verified _ _ V C)|exact T].
  - intros H. apply xweb_handled in H.
    destruct H as (event & E & [H|[H T]]); [left; exact H|right].
    split; [exact H|]. exists event.
    split; [exact (xweb_admitted_unverified _ _ V E)|exact T].
Qed.

End StoreFacts.

Import Webhook.

(** What a debit does to the store. *)
Lemma xweb_debit_effect (db : Db) (userId amountCents : Z)
    (descriptionText : string) (retirementTxHash creditClass : option string)
    (creditsRetired : option float) :
  let after :=
    debitBalance db userId amountCents descriptionText retirementTxHash
      creditClass creditsRetired in
  if debitSuccess (snd after)
  then
    exists before,
      balanceOf db userId = Some before
      /\ amountCents <= before
      /\ balanceOf (fst after) userId = Some (before - amountCents)
      /\ debitBalanceCents (snd after) = before - amountCents
      /\ (forall other, other <> userId ->
            balanceOf (fst after) other = balanceOf db other)
      /\ List.length (transactions (fst after))
         = S (List.length (transactions db))
  else fst after = db.
Proof.
  unfold debitBalance, balanceOf, getUserById.
  destruct (find (fun u => id u =? userId) (users db)) as [user|] eqn:F;
    [|reflexivity].
  destruct (Z.ltb_spec (balance_cents user) amountCents); [reflexivity|].
  cbn [fst snd debitSuccess debitBalanceCents users transactions].
  exists (balance_cents user). cbn [option_map].
  split; [reflexivity|]. split; [lia|]. split; [|split; [lia|split]].
  - rewrite getUserById_addToBalance, F. cbn [option_map].
    apply find_some in F. destruct F as [_ F]. apply Z.eqb_eq in F.
    unfold addToBalance. rewrite F, Z.eqb_refl. cbn [balance_cents].
    f_equal; lia.
  - intros other Hne. rewrite getUserById_other by exact Hne. reflexivity.
  - rewrite length_app. cbn [List.length]. lia.
Qed.


(** X16. A debit succeeds only when the balance covers it: the balance then
    goes down by the amount and is not negative, every other balance stays,
    and one row is appended; a refused debit leaves the store as it was. *)
Theorem debitBalance_never_overdraws (db : Db) (userId amountCents : Z)
    (descriptionText : string) (retirementTxHash creditClass : option string)
    (creditsRetired : option float) :
  let after :=
    debitBalance db userId amountCents descriptionText retirementTxHash
      creditClass creditsRetired in
  if debitSuccess (snd after)
  then
    exists before,
      balanceOf db userId = Some before
      /\ amountCents <= before
      /\ balanceOf (fst after) userId = Some (before - amountCents)
      /\ debitBalanceCents (snd after) = before - amountCents
      /\ (forall other, other <> userId ->
            balanceOf (fst after) other = balanceOf db other)
      /\ List.length (transactions (fst after))
         = S (List.length (transactions db))
  else fst after = db.
Proof.
  exact (xweb_debit_effect db userId amountCents descriptionText
           retirementTxHash creditClass creditsRetired).
Qed.

(** X17. [createUser] refuses an API key that is already in the table;
    otherwise the new user has a zero balance and is found by its key, every
    other key finds what it found before, and no transaction is written. *)
Theorem createUser_then_lookup (db : Db) (apiKey : string)
    (emailText stripeCustomerId : option string) :
  match getUserByApiKey db apiKey with
  | Some _ =>
      createUser db apiKey emailText stripeCustomerId
      = throw (Error "UNIQUE constraint failed: users.api_key")
  | None =>
      exists db' user,
        createUser db apiKey emailText stripeCustomerId = ok (db', user)
        /\ getUserByApiKey db' apiKey = Some user
        /\ balance_cents user = 0
        /\ email user = emailText
        /\ (forall other, other <> apiKey ->
              getUserByApiKey db' other = getUserByApiKey db other)
        /\ transactions db' = transactions db
  end.
Proof.
  unfold createUser.
  destruct (getUserByApiKey db apiKey) as [u|] eqn:F; [reflexivity|].
  eexists. eexists. split; [reflexivity|].
  unfold getUserByApiKey in *. cbn [users transactions].
  split; [|split; [reflexivity|split; [reflexivity|split; [|reflexivity]]]].
  - rewrite (@find_app_none _ _ _ _ F). cbn [find api_key].
    rewrite String.eqb_refl. reflexivity.
  - intros other Hne.
    destruct (find (fun u => (api_key u =? other)%string) (users db))
      as [u|] eqn:G.
    + clear F. revert G. induction (users db) as [|x l IH]; cbn [find app];
        [discriminate|].
      destruct (api_key x =? other)%string; [trivial|exact IH].
    + rewrite (@find_app_none _ _ _ _ G). cbn [find api_key].
      destruct (String.eqb_spec apiKey other); [congruence|reflexivity].
Qed.

(** X18. A top-up followed by a debit of the same amount leaves the balance
    where it was, when that balance was not negative; both rows stay in the
    ledger of transactions. *)
Theorem credit_then_debit_restores_balance (db db1 : Db) (user : User)
    (amountCents : Z) (stripeSessionId topupText debitText : string) :
  getUserById db (id user) = Some user ->
  0 <= balance_cents user ->
  creditBalance db (id user) amountCents stripeSessionId topupText = ok db1 ->
  let after := debitBalance db1 (id user) amountCents debitText None None None in
  debitSuccess (snd after) = true
  /\ balanceOf (fst after) (id user) = Some (balance_cents user)
  /\ List.length (transactions (fst after))
     = S (S (List.length (transactions db))).
Proof.
  intros Hu Hb Hc.
  destruct (@creditBalance_effect db user amountCents stripeSessionId topupText Hu)
    as (db1' & E & Hbal & _ & Htx & _).
  rewrite Hc in E. injection E as <-.
  pose proof (xweb_debit_effect db1 (id user) amountCents debitText
                None None None) as D.
  cbn zeta in D |- *.
  unfold balanceOf in Hbal.
  destruct (getUserById db1 (id user)) as [u1|] eqn:F1; [|discriminate].
  cbn [option_map] in Hbal. injection Hbal as Hbal.
  assert (Hs : debitSuccess
                (snd (debitBalance db1 (id user) amountCents debitText None
                        None None)) = true).
  { unfold debitBalance. rewrite F1.
    destruct (Z.ltb_spec (balance_cents u1) amountCents); [lia|reflexivity]. }
  rewrite Hs in D. destruct D as (before & Hb0 & _ & Hb1 & _ & _ & Hlen).
  unfold balanceOf in Hb0. rewrite F1 in Hb0. cbn [option_map] in Hb0.
  injection Hb0 as <-.
  split; [exact Hs|]. split.
  - rewrite Hb1. f_equal. lia.
  - rewrite Hlen, Htx, length_app. cbn [List.length]. lia.
Qed.

Lemma postWebhook_rejects_bad_signature_witness :
  postWebhook refuseAll parseExample showCents (Some "whsec_live") "rfa_key1"
    emptyDb {| stripeSignature := Some "t=1,v1=bad";
               body := "checkout.session.completed evt_1" |}
  = ok (emptyDb,
        {| statusCode := 400;
           json := ErrorBody
                     "Webhook Error: No signatures found matching the expected signature for payload" |}).
Proof.
  apply (@postWebhook_rejects_bad_signature refuseAll parseExample showCents
           "whsec_live" "t=1,v1=bad" "rfa_key1" emptyDb
           {| stripeSignature := Some "t=1,v1=bad";
              body := "checkout.session.completed evt_1" |}
           (Error "No signatures found matching the expected signature for payload"));
    reflexivity.
Defined.

Lemma postWebhook_changes_store_only_on_checkout_witness :
  creditedDb [1] = emptyDb
  \/ (statusCode accepted200 = 200
      /\ exists event,
           admitted refuseAll parseExample None unsignedRequest event
           /\ event_type event = "checkout.session.completed").
Proof.
  apply (@postWebhook_changes_store_only_on_checkout refuseAll parseExample
           showCents None "rfa_key1" emptyDb (creditedDb [1]) unsignedRequest
           accepted200).
  vm_compute. reflexivity.
Defined.

Lemma credit_then_debit_restores_balance_witness :
  let user := {| id := 1; api_key := "rfa_key1";
                 email := Some "alice@example.com"; balance_cents := 1000;
                 stripe_customer_id := Some "cus_1" |} in
  let after :=
    debitBalance (creditedDb [1; 2]) 1 1000 "Retired 1 credit" None None None in
  debitSuccess (snd after) = true
  /\ balanceOf (fst after) 1 = Some 1000
  /\ List.length (transactions (fst after))
     = S (S (List.length (transactions (creditedDb [1])))).
Proof.
  intros user.
  apply (@credit_then_debit_restores_balance (creditedDb [1]) (creditedDb [1; 2])
           user 1000 "cs_test_1" "Stripe top-up: $1000" "Retired 1 credit").
  - reflexivity.
  - cbn. lia.
  - vm_compute. reflexivity.
Defined.

(** ** Subscription invoices: paging and what is listed *)

Section GatewayFacts.

Import Subscription.

Variable toLowerCase : string -> string.
Variable localeCompare : string -> string -> Z.
Variable toISOString : Z -> Result string.
Variable getInvoices : nat -> Z -> option string -> Result StripeList.

Lemma xsub_walkPages (remaining : nat) :
  forall (page : nat) (limit : Z) (startingAfter : option string)
         (st final : Walk),
    walkPages toLowerCase toISOString getInvoices (S remaining) page limit
      startingAfter st = ok final ->
    reachedEnd st = false ->
    walkPageCount st + 1 <= walkPageCount final
      <= walkPageCount st + Z.of_nat (S remaining)
    /\ reachedEnd final = negb (walkHasMore final).
Proof.
  induction remaining as [|n IH]; intros page limit sa st final H R;
    cbn [walkPages] in H.
  - destruct (getInvoices page limit sa) as [|invoicesPage];
      [discriminate|]. cbn [bindR] in H.
    destruct (normalizePage toLowerCase toISOString (data invoicesPage) None)
      as [|normalized]; [discriminate|]. cbn [bindR] in H.
    destruct (has_more invoicesPage) eqn:M; cbn [negb] in H.
    + destruct (negb (Js.truthy _)) in H; injection H as <-;
        cbn [walkPageCount reachedEnd walkHasMore]; rewrite ?M, R;
        (split; [lia|reflexivity]).
    + injection H as <-. cbn [walkPageCount reachedEnd walkHasMore].
      rewrite ?M. split; [lia|reflexivity].
  - destruct (getInvoices page limit sa) as [|invoicesPage];
      [discriminate|]. cbn [bindR] in H.
    destruct (normalizePage toLowerCase toISOString (data invoicesPage) None)
      as [|normalized]; [discriminate|]. cbn [bindR] in H.
    destruct (has_more invoicesPage) eqn:M; cbn [negb] in H.
    + destruct (negb (Js.truthy _)) in H.
      * injection H as <-. cbn [walkPageCount reachedEnd walkHasMore].
        rewrite ?M, R. split; [lia|reflexivity].
      * apply IH in H; [|exact R]. cbn [walkPageCount] in H.
        destruct H as [H1 H2]. split; [lia|exact H2].
    + injection H as <-. cbn [walkPageCount reachedEnd walkHasMore].
      rewrite ?M. split; [lia|reflexivity].
Qed.

(** X19. The all-customer listing fetches at least one page and at most
    [maxPages] of them, a bound between 1 and 50; it reports [truncated]
    exactly when the last page it fetched announced more. *)
Theorem listPaidInvoicesAcrossCustomers_paging (rawLimit rawMaxPages : option Z)
    (listing : PaidInvoiceAcrossCustomersResult) :
  listPaidInvoicesAcrossCustomers toLowerCase localeCompare toISOString
    getInvoices rawLimit rawMaxPages = ok listing ->
  1 <= maxPages listing <= 50
  /\ 1 <= pageCount listing <= maxPages listing
  /\ truncated listing = hasMore listing.
Proof.
  unfold listPaidInvoicesAcrossCustomers.
  set (bound := clampMaxPages rawMaxPages).
  assert (B : 1 <= bound <= 50).
  { unfold bound, clampMaxPages. destruct rawMaxPages; lia. }
  destruct (Z.to_nat bound) as [|n] eqn:N; [lia|].
  destruct (walkPages _ _ _ (S n) 0 _ None _) as [|final] eqn:W;
    [discriminate|].
  cbn [bindR]. intros H. injection H as <-.
  cbn [maxPages pageCount truncated hasMore].
  apply xsub_walkPages in W; [|reflexivity]. cbn [walkPageCount] in W.
  destruct W as [C E]. rewrite E, negb_involutive.
  repeat split; try lia.
Qed.

Lemma xsub_normalizePaidInvoice (invoice : StripeInvoice)
    (fallbackCustomer : option StripeCustomer) (paid : PaidInvoice) :
  normalizePaidInvoice toLowerCase toISOString invoice fallbackCustomer
  = ok (Some paid) ->
  0 < amountPaidCents paid /\ Js.isEmpty (customerId paid) = false.
Proof.
  unfold normalizePaidInvoice.
  destruct (orOption _ _) as [cid|]; [|discriminate].
  destruct (paid_at invoice) as [paidAtEpoch|]; [|discriminate].
  destruct (amount_paid invoice) as [amount|]; [|discriminate].
  destruct (Js.isEmpty cid) eqn:C; [discriminate|]. cbn [orb].
  destruct (paidAtEpoch =? 0); [discriminate|]. cbn [orb].
  destruct (amount =? 0); [discriminate|]. cbn [orb].
  destruct (Z.leb_spec amount 0); [discriminate|]. cbn [orb].
  destruct (negb _); [discriminate|].
  destruct (toISOString _) as [|iso]; [discriminate|]. cbn [bindR].
  intros Hq. injection Hq as <-. cbn [amountPaidCents customerId].
  split; [lia|exact C].
Qed.

Lemma xsub_normalizePage (invoicesPage : list StripeInvoice)
    (fallbackCustomer : option StripeCustomer) (listed : list PaidInvoice) :
  normalizePage toLowerCase toISOString invoicesPage fallbackCustomer
  = ok listed ->
  Forall (fun paid => 0 < amountPaidCents paid
                      /\ Js.isEmpty (customerId paid) = false) listed.
Proof.
  unfold normalizePage. revert listed.
  induction invoicesPage as [|invoice rest IH]; intros listed H;
    cbn [Js.mapR] in H.
  - unfold ok in H. cbn [bindR] in H. injection H as <-. constructor.
  - destruct (normalizePaidInvoice toLowerCase toISOString invoice
                fallbackCustomer) as [|first] eqn:E; [discriminate|].
    cbn [bindR] in H.
    destruct (Js.mapR _ rest) as [|others]; [discriminate|].
    unfold ok in H. cbn [bindR] in H. injection H as <-.
    specialize (IH (keepSome others) eq_refl).
    destruct first as [paid|]; cbn [keepSome]; [|exact IH].
    constructor; [|exact IH]. apply (xsub_normalizePaidInvoice _ _ E).
Qed.

Lemma xsub_walkPages_results (remaining : nat) :
  forall (page : nat) (limit : Z) (startingAfter : option string)
         (st final : Walk),
    walkPages toLowerCase toISOString getInvoices remaining page limit
      startingAfter st = ok final ->
    Forall (fun paid => 0 < amountPaidCents paid
                        /\ Js.isEmpty (customerId paid) = false)
           (results st) ->
    Forall (fun paid => 0 < amountPaidCents paid
                        /\ Js.isEmpty (customerId paid) = false)
           (results final).
Proof.
  induction remaining as [|n IH]; intros page limit sa st final H F;
    cbn [walkPages] in H.
  - injection H as <-. exact F.
  - destruct (getInvoices page limit sa) as [|invoicesPage];
      [discriminate|]. cbn [bindR] in H.
    destruct (normalizePage toLowerCase toISOString (data invoicesPage) None)
      as [|normalized] eqn:E; [discriminate|]. cbn [bindR] in H.
    apply xsub_normalizePage in E.
    assert (G : Forall (fun paid => 0 < amountPaidCents paid
                                    /\ Js.isEmpty (customerId paid) = false)
                       (results st ++ normalized))
      by (apply Forall_app; split; assumption).
    destruct (negb (has_more invoicesPage)).
    + injection H as <-. exact G.
    + destruct (negb (Js.truthy _)) in H.
      * injection H as <-. exact G.
      * apply IH in H; [exact H|exact G].
Qed.

(** X20. Every invoice the all-customer listing returns has a positive
    amount paid and a customer id that is not empty. *)
Theorem listPaidInvoicesAcrossCustomers_lists_paid (rawLimit rawMaxPages : option Z)
    (listing : PaidInvoiceAcrossCustomersResult) :
  listPaidInvoicesAcrossCustomers toLowerCase localeCompare toISOString
    getInvoices rawLimit rawMaxPages = ok listing ->
  Forall (fun paid => 0 < amountPaidCents paid
                      /\ Js.isEmpty (customerId paid) = false)
         (invoices listing).
Proof.
  unfold listPaidInvoicesAcrossCustomers.
  destruct (walkPages _ _ _ _ 0 _ None _) as [|final] eqn:W; [discriminate|].
  cbn [bindR]. intros H. injection H as <-. cbn [invoices].
  apply (Permutation_Forall
           (Permutation_sym (sort_permutation (byPaidAt localeCompare)
                               (results final)))).
  apply (xsub_walkPages_results _ _ _ _ _ W). constructor.
Qed.

End GatewayFacts.

Section SyncCounts.

Import Subscription.

Variable PoolState : Type.
Variable toLowerCase : string -> string.
Variable listPaidInvoices :
  option string -> option string -> option Z -> Result (list PaidInvoice).
Variable listAcrossCustomers :
  option Z -> option Z -> Result PaidInvoiceAcrossCustomersResult.
Variable getTierIdForStripePrice : option string -> option string.
Variable recordContribution :
  PoolState -> ContributionInput -> Result (PoolState * ContributionReceipt).

Lemma xsub_syncInvoice (identityEmail identityCustomerId userIdText : option string)
    (everyCustomer : bool) (pool pool' : PoolState)
    (synced duplicates synced' duplicates' : Z)
    (recs recs' : list SyncedSubscriptionContribution) (invoice : PaidInvoice) :
  syncInvoice getTierIdForStripePrice recordContribution identityEmail
    identityCustomerId userIdText everyCustomer
    (pool, (synced, duplicates, recs)) invoice
  = ok (pool', (synced', duplicates', recs')) ->
  synced' + duplicates' = synced + duplicates + 1
  /\ List.length recs' = S (List.length recs)
  /\ synced <= synced' /\ duplicates <= duplicates'.
Proof.
  unfold syncInvoice.
  destruct (recordContribution pool _) as [|[p r]]; [discriminate|].
  cbn [bindR]. intros H. injection H as _ <- <- <-.
  rewrite length_app. cbn [List.length].
  destruct (duplicate r); repeat split; lia.
Qed.

(** X21. When the sync of one customer returns, every processed invoice was
    recorded once, as new or as duplicate: synced and duplicates add up to
    the processed count, which is also the number of records; what was
    fetched and not processed is counted as skipped. *)
Theorem syncPaidInvoices_counts_add_up (pool pool' : PoolState)
    (input : SubscriptionPoolSyncInput) (result : SubscriptionPoolSyncResult) :
  syncPaidInvoices toLowerCase listPaidInvoices listAcrossCustomers
    getTierIdForStripePrice recordContribution pool input
  = (pool', ok result) ->
  syncedCount result + duplicateCount result = processedInvoiceCount result
  /\ Z.of_nat (List.length (records result)) = processedInvoiceCount result
  /\ 0 <= syncedCount result /\ 0 <= duplicateCount result
  /\ 0 <= skippedCount result
  /\ fetchedInvoiceCount result
     = processedInvoiceCount result + skippedCount result.
Proof.
  unfold syncPaidInvoices.
  destruct (negb (allCustomers input) && _ && _); [discriminate|].
  destruct (match normalize (inputMonth input) with
            | Some m => negb (monthRegexTest m)
            | None => false
            end); [discriminate|].
  destruct (allCustomers input).
  { destruct (listAcrossCustomers _ _); cbn [bindR]; discriminate. }
  destruct (listPaidInvoices _ _ _) as [|fetchedItems]; cbn [bindR];
    [discriminate|].
  unfold ok at 1.
  set (selectedInvoices :=
         match normalize (inputMonth input) with
         | Some m => filter _ fetchedItems
         | None => fetchedItems
         end).
  assert (Hsel : (List.length selectedInvoices
                  <= List.length fetchedItems)%nat).
  { unfold selectedInvoices. destruct (normalize (inputMonth input));
      [apply filter_length_le|lia]. }
  set (loop := fix loop (l : list PaidInvoice)
                 (acc : PoolState
                        * (Z * Z * list SyncedSubscriptionContribution))
                 {struct l} :=
                 match l with
                 | [] => (fst acc, ok (snd acc))
                 | invoice :: rest =>
                     match syncInvoice getTierIdForStripePrice
                             recordContribution
                             (normalizeEmail toLowerCase (inputEmail input))
                             (normalize (inputCustomerId input))
                             (normalize (inputUserId input)) false acc invoice
                     with
                     | inl err => (fst acc, inl err)
                     | inr acc' => loop rest acc'
                     end
                 end).
  assert (L : forall l p s d recs p' s' d' recs',
             loop l (p, (s, d, recs)) = (p', ok (s', d', recs')) ->
             s' + d' = s + d + Z.of_nat (List.length l)
             /\ List.length recs' = (List.length recs + List.length l)%nat
             /\ s <= s' /\ d <= d').
  { induction l as [|invoice rest IH]; intros p s d recs p' s' d' recs' H.
    - cbn in H. injection H as _ <- <- <-. cbn [List.length].
      repeat split; lia.
    - cbn [loop] in H. fold loop in H.
      destruct (syncInvoice _ _ _ _ _ _ (p, (s, d, recs)) invoice)
        as [|[p1 [[s1 d1] recs1]]] eqn:E; [discriminate|].
      apply xsub_syncInvoice in E. apply IH in H.
      cbn [List.length]. rewrite Nat2Z.inj_succ. repeat split; lia. }
  destruct (loop selectedInvoices (pool, (0, 0, []))) as [p outcome] eqn:E.
  destruct outcome as [|[[s d] recs]]; cbn [bindR]; [discriminate|].
  intros H. injection H as _ <-.
  cbn [syncedCount duplicateCount processedInvoiceCount records skippedCount
       fetchedInvoiceCount].
  apply L in E. cbn [List.length] in E. repeat split; lia.
Qed.

End SyncCounts.

Import Subscription.

Lemma listPaidInvoicesAcrossCustomers_paging_witness :
  1 <= maxPages endlessResult <= 50
  /\ 1 <= pageCount endlessResult <= maxPages endlessResult
  /\ truncated endlessResult = hasMore endlessResult.
Proof.
  apply (@listPaidInvoicesAcrossCustomers_paging (fun s => s) (fun _ _ => 0)
           isoStub endlessPage None (Some 3) endlessResult).
  vm_compute. reflexivity.
Defined.

Lemma listPaidInvoicesAcrossCustomers_lists_paid_witness :
  Forall (fun paid => 0 < amountPaidCents paid
                      /\ Js.isEmpty (customerId paid) = false)
         (invoices endlessResult).
Proof.
  apply (@listPaidInvoicesAcrossCustomers_lists_paid (fun s => s)
           (fun _ _ => 0) isoStub endlessPage None (Some 3) endlessResult).
  vm_compute. reflexivity.
Defined.

Lemma syncPaidInvoices_counts_add_up_witness :
  syncedCount marchResult + duplicateCount marchResult
  = processedInvoiceCount marchResult
  /\ Z.of_nat (List.length (records marchResult))
     = processedInvoiceCount marchResult
  /\ 0 <= syncedCount marchResult /\ 0 <= duplicateCount marchResult
  /\ 0 <= skippedCount marchResult
  /\ fetchedInvoiceCount marchResult
     = processedInvoiceCount marchResult + skippedCount marchResult.
Proof.
  apply (@syncPaidInvoices_counts_add_up unit (fun s => s) twoMonthListing
           endlessListing (fun _ => None) recordStub tt tt marchInput
           marchResult).
  vm_compute. reflexivity.
Defined.

(** ** Auth sessions: what stays verified, what locks, what recovers *)

Section SessionFacts.

Import Auth.

Variable sha256hex : string -> string.
Variable hmac : string -> string -> string.
Variable toLowerCase : string -> string.
Variable emailPattern : string -> bool.
Variable Identity : Type.
Variable captureIdentity : IdentityInput -> Result Identity.
Variable identityIsNone : Identity -> bool.
Variable encodeStatePayload : string -> Z -> string.
Variable decodeStatePayload : string -> Result (option string * option Z).
Variable deps : AuthServiceDeps.

Abbreviation xserving :=
  (serve sha256hex hmac toLowerCase emailPattern captureIdentity identityIsNone
         encodeStatePayload decodeStatePayload deps).
Abbreviation xservingAll :=
  (serveAll sha256hex hmac toLowerCase emailPattern captureIdentity
            identityIsNone encodeStatePayload decodeStatePayload deps).

Lemma xauth_verifiedIn_app (sid : string)
    (records extra : list AuthSessionRecord) :
  verifiedIn sid records -> verifiedIn sid (records ++ extra).
Proof.
  intros (session & Hfind & Hs). exists session. split; [|exact Hs].
  clear Hs. induction records as [|x l IH]; cbn [find app] in *;
    [discriminate|].
  destruct (id x =? sid)%string; [exact Hfind|apply IH, Hfind].
Qed.

Lemma xauth_verifiedIn_put (sid other : string) (found session' : AuthSessionRecord)
    (records : list AuthSessionRecord) :
  find (fun item => String.eqb (id item) other) records = Some found ->
  id session' = id found ->
  (status found = verified -> status session' = verified) ->
  verifiedIn sid records ->
  verifiedIn sid
    (updateFirst (fun item => String.eqb (id item) other) (fun _ => session')
       records).
Proof.
  intros Hf Hid Hst (session & Hfind & Hs). unfold verifiedIn.
  induction records as [|x l IH]; cbn [find updateFirst] in *;
    [discriminate|].
  destruct (String.eqb_spec (id x) other) as [Ex|Ex].
  - injection Hf as ->. cbn [find]. rewrite Hid.
    destruct (String.eqb_spec (id found) sid) as [Es|Es].
    + injection Hfind as <-. exists session'. split; [reflexivity|].
      apply Hst, Hs.
    + exists session. split; assumption.
  - cbn [find]. destruct (String.eqb_spec (id x) sid) as [Es|Es].
    + exists session. split; assumption.
    + apply IH; assumption.
Qed.

Lemma xauth_mutate_id (now : Z) (session : AuthSessionRecord) :
  id (mutateSessionStatusForTime now session) = id session.
Proof.
  unfold mutateSessionStatusForTime. destruct (_ && _); reflexivity.
Qed.

Lemma xauth_mutate_verified (now : Z) (session : AuthSessionRecord) :
  status session = verified ->
  status (mutateSessionStatusForTime now session) = verified.
Proof.
  intros H. unfold mutateSessionStatusForTime. rewrite H. exact H.
Qed.

Lemma xauth_ensure (now : Z) (found session : AuthSessionRecord)
    (expected : Method) :
  ensureVerifiableSession now found expected = ok session ->
  id session = id found /\ status found = pending
  /\ status session = pending
  /\ session = mutateSessionStatusForTime now found.
Proof.
  unfold ensureVerifiableSession.
  destruct (negb _); [discriminate|].
  destruct (status (mutateSessionStatusForTime now found)) eqn:S;
    try discriminate.
  intros H. injection H as <-. rewrite xauth_mutate_id.
  split; [reflexivity|]. split; [|split; [exact S|reflexivity]].
  unfold mutateSessionStatusForTime in S.
  destruct (status found) eqn:F; [reflexivity|..];
    cbn [statusEqb andb] in S; rewrite F in S; discriminate S.
Qed.

Lemma xauth_require (state : AuthState) (sid : string)
    (found : AuthSessionRecord) :
  requireSession state sid = ok found ->
  find (fun item => String.eqb (id item) sid) (sessions state) = Some found.
Proof.
  unfold requireSession. destruct (find _ _); [|discriminate].
  intros H. injection H as <-. reflexivity.
Qed.

(** One request never takes a verified session out of that status. *)
Lemma xauth_serve_keeps_verified (sid : string) (state : AuthState) (now : Z)
    (request : Request) :
  verifiedIn sid (sessions state) ->
  verifiedIn sid (sessions (xserving state now request)).
Proof.
  intros H. destruct request; cbn [serve].
  - unfold startEmailAuth.
    destruct (normalizeEmail toLowerCase _); [|exact H].
    destruct (negb _); [exact H|].
    cbn [fst pushSession sessions]. apply xauth_verifiedIn_app, H.
  - unfold verifyEmailAuth.
    destruct (normalize _); [|exact H].
    destruct (negb _); [exact H|].
    destruct (requireSession _ _) as [|found] eqn:R; [exact H|].
    destruct (ensureVerifiableSession _ _ _) as [|session] eqn:E; [exact H|].
    apply xauth_require in R.
    destruct (@xauth_ensure _ _ _ _ E) as (Hid & Hp & _).
    destruct (beneficiaryEmail _); [|exact H].
    destruct (emailCodeHash _); [|exact H].
    destruct (_ || _); [exact H|].
    destruct (negb _); cbn [fst putSession sessions];
      (apply (@xauth_verifiedIn_put sid _ _ _ _ R); [exact Hid| |exact H]);
      intros V; rewrite Hp in V; discriminate V.
  - unfold startOAuthAuth.
    destruct (option_map _ _); [|exact H].
    destruct (Js.isEmpty _); [exact H|].
    destruct (negb _); [exact H|].
    destruct (match normalizeEmail toLowerCase emailInput with
              | Some m => negb (emailPattern m)
              | None => false
              end); [exact H|].
    cbn [fst pushSession sessions]. apply xauth_verifiedIn_app, H.
  - unfold verifyOAuthAuth.
    destruct (negb _); [exact H|].
    destruct (negb _); [exact H|].
    destruct (match normalizeEmail toLowerCase emailInput with
              | Some m => negb (emailPattern m)
              | None => false
              end); [exact H|].
    destruct (requireSession _ _) as [|found] eqn:R; [exact H|].
    destruct (ensureVerifiableSession _ _ _) as [|session] eqn:E; [exact H|].
    apply xauth_require in R.
    destruct (@xauth_ensure _ _ _ _ E) as (Hid & Hp & _).
    destruct (negb _); [exact H|].
    destruct (negb _); [exact H|].
    destruct (validateOauthStateToken _ _ _ _ _ _); [exact H|].
    cbn [fst putSession sessions].
    apply (@xauth_verifiedIn_put sid _ _ _ _ R); [exact Hid| |exact H].
    intros V. rewrite Hp in V. discriminate V.
  - unfold getSession.
    destruct (find _ _) as [found|] eqn:R; [|exact H].
    cbn [fst putSession sessions].
    apply (@xauth_verifiedIn_put sid _ _ _ _ R);
      [apply xauth_mutate_id|apply xauth_mutate_verified|exact H].
  - unfold linkSessionToUser.
    destruct (normalize _); [|exact H].
    destruct (requireSession _ _) as [|found] eqn:R; [exact H|].
    apply xauth_require in R.
    destruct (negb _); [exact H|].
    cbn [fst putSession sessions].
    apply (@xauth_verifiedIn_put sid _ _ _ _ R);
      [apply xauth_mutate_id|apply xauth_mutate_verified|exact H].
  - unfold startRecovery.
    destruct (normalizeEmail toLowerCase _); [|exact H].
    destruct (negb _); [exact H|].
    destruct (Js.sort _ _); exact H.
  - unfold recoverWithToken.
    destruct (normalize _); [|exact H].
    destruct (find _ _); [|exact H].
    destruct (consumedAt _); [exact H|].
    destruct (isExpired _ _); [exact H|].
    destruct (requireSession _ _); [exact H|].
    destruct (negb _); [exact H|].
    cbn [fst sessions]. apply xauth_verifiedIn_app, H.
  - unfold resolveVerifiedIdentity.
    destruct (requireSession _ _) as [|found] eqn:R; [exact H|].
    apply xauth_require in R.
    cbn [fst putSession sessions].
    apply (@xauth_verifiedIn_put sid _ _ _ _ R);
      [apply xauth_mutate_id|apply xauth_mutate_verified|exact H].
Qed.

(** X22. A verified session stays verified: whatever requests are served
    afterwards, at whatever times, the session found under its id is still
    verified (it does not expire, lock, or return to pending). *)
Theorem verified_session_stays_verified (requests : list (Z * Request))
    (state : AuthState) (sid : string) :
  verifiedIn sid (sessions state) ->
  verifiedIn sid (sessions (xservingAll state requests)).
Proof.
  revert state. induction requests as [|[now request] rest IH];
    intros state H; cbn [serveAll].
  - exact H.
  - apply IH, xauth_serve_keeps_verified, H.
Qed.

(** X23. A session that is locked, expired or already verified accepts no
    verification code: [verifyEmailAuth] raises and leaves the store as it
    was. *)
Theorem verifyEmailAuth_refuses_closed_session (state : AuthState) (now : Z)
    (sid code : string) (found : AuthSessionRecord) :
  requireSession state sid = ok found ->
  status found <> pending ->
  exists err,
    verifyEmailAuth sha256hex captureIdentity identityIsNone deps
      state now sid code
    = (state, inl err).
Proof.
  intros R Hs. unfold verifyEmailAuth.
  destruct (normalize _); [|eexists; reflexivity].
  destruct (negb _); [eexists; reflexivity|].
  rewrite R. unfold ok. cbv iota.
  destruct (ensureVerifiableSession now found email) as [err|session] eqn:E;
    [eexists; reflexivity|].
  destruct (@xauth_ensure _ _ _ _ E) as (_ & Hp & _). contradiction.
Qed.

(** X24. A wrong code on a pending session is refused and counted: the
    stored session has one more attempt, and it is locked as soon as the
    attempts reach the maximum. *)
Theorem verifyEmailAuth_counts_wrong_codes (state : AuthState) (now : Z)
    (sid codeInput code mail stored : string) (found : AuthSessionRecord) :
  normalize (Some codeInput) = Some code ->
  isSixDigits code = true ->
  requireSession state sid = ok found ->
  method found = email -> status found = pending ->
  now < expiresAt found ->
  beneficiaryEmail found = Some mail -> emailCodeHash found = Some stored ->
  Js.isEmpty mail = false -> Js.isEmpty stored = false ->
  hash sha256hex deps (String.append code (String.append ":" mail)) <> stored ->
  let after :=
    verifyEmailAuth sha256hex captureIdentity identityIsNone deps
      state now sid codeInput in
  snd after = throw (Error "Invalid verification_code")
  /\ exists session',
       requireSession (fst after) sid = ok session'
       /\ verificationAttempts session' = verificationAttempts found + 1
       /\ status session'
          = (if maxVerificationAttempts found <=? verificationAttempts found + 1
             then locked else pending).
Proof.
  intros Hn H6 R Hm Hs Hexp Hmail Hhash Em Es Hne after.
  assert (M : mutateSessionStatusForTime now found = found).
  { unfold mutateSessionStatusForTime, isExpired. rewrite Hs.
    destruct (Z.leb_spec (expiresAt found) now); [lia|reflexivity]. }
  assert (A : after = (putSession state sid (withAttempt found),
                       throw (Error "Invalid verification_code"))).
  { subst after. unfold verifyEmailAuth. rewrite Hn, H6. cbn [negb].
    rewrite R. unfold ok. cbv iota.
    unfold ensureVerifiableSession. rewrite M, Hm, Hs. cbn [methodEqb negb].
    unfold ok. cbv iota.
    rewrite Hmail, Hhash, Em, Es. cbn [orb].
    unfold safeEquals.
    destruct (String.eqb_spec
                (hash sha256hex deps
                   (String.append code (String.append ":" mail))) stored)
      as [Q|Q]; [contradiction|reflexivity]. }
  rewrite A. cbn [fst snd]. split; [reflexivity|].
  exists (withAttempt found). unfold requireSession, putSession.
  cbn [sessions]. apply xauth_require in R.
  rewrite (@find_updateFirst_same _ _ (fun _ => withAttempt found) _ _ R).
  - split; [reflexivity|]. cbn [withAttempt verificationAttempts status].
    rewrite Hs. split; reflexivity.
  - cbn [withAttempt id]. apply find_some in R. apply R.
Qed.

Lemma xauth_find_unique (records : list AuthSessionRecord)
    (session : AuthSessionRecord) :
  NoDup (map id records) -> In session records ->
  find (fun item => String.eqb (id item) (id session)) records = Some session.
Proof.
  induction records as [|x l IH]; intros Hnd Hin; cbn [find map] in *.
  - contradiction.
  - inversion Hnd as [|y ys Hni Hnd']; subst.
    destruct Hin as [->|Hin].
    + rewrite String.eqb_refl. reflexivity.
    + destruct (String.eqb_spec (id x) (id session)) as [E|_].
      * exfalso. apply Hni. rewrite E. apply in_map. exact Hin.
      * apply IH; assumption.
Qed.

(** X25. A recovery token that was just issued recovers: with session ids
    distinct, a token not seen before and the time before its expiry,
    [recoverWithToken] returns a new verified session that carries the email
    of the session the token was issued for, which is the email asked for up
    to letter case. *)
Theorem startRecovery_then_recover (state state1 : AuthState) (t0 t1 : Z)
    (freshId nonce emailInput freshId' : string)
    (issued : StartRecoveryResult) :
  NoDup (map id (sessions state)) ->
  startRecovery sha256hex toLowerCase emailPattern deps state t0 freshId nonce
    emailInput = (state1, ok issued) ->
  normalize (Some (recoveryToken issued)) = Some (recoveryToken issued) ->
  find (matchesToken sha256hex deps (recoveryToken issued)) (recoveries state)
  = None ->
  t1 < resultExpiresAt issued ->
  exists state2 session source,
    recoverWithToken sha256hex deps state1 t1 freshId' (recoveryToken issued)
    = (state2, ok session)
    /\ requireSession state (resultSessionId issued) = ok source
    /\ publicId session = String.append "auth_" freshId'
    /\ publicStatus session = verified
    /\ publicBeneficiaryEmail session = beneficiaryEmail source
    /\ option_map toLowerCase (beneficiaryEmail source)
       = normalizeEmail toLowerCase (Some emailInput).
Proof.
  intros Hnd H Hn Hfresh Hexp. unfold startRecovery in H.
  destruct (normalizeEmail toLowerCase (Some emailInput)) as [mail|] eqn:Em;
    [|discriminate].
  destruct (negb (emailPattern mail)); [discriminate|].
  destruct (Js.sort newestFirst _) as [|source others] eqn:Es; [discriminate|].
  injection H as <- <-.
  cbn [recoveryToken resultExpiresAt resultSessionId recoveryExpiresAt] in *.
  assert (Hin : In source
                  (filter (fun item =>
                             statusEqb (status item) verified
                             && match beneficiaryEmail item with
                                | Some e => String.eqb (toLowerCase e) mail
                                | None => false
                                end)
                          (sessions state))).
  { apply (Permutation_in _ (sort_permutation newestFirst _)).
    rewrite Es. left. reflexivity. }
  apply filter_In in Hin. destruct Hin as [Hmem Hp].
  apply andb_prop in Hp. destruct Hp as [Hv He].
  assert (R : requireSession state (id source) = ok source).
  { unfold requireSession. rewrite (xauth_find_unique _ _ Hnd Hmem).
    reflexivity. }
  pose proof (xauth_find_unique _ _ Hnd Hmem) as Rf.
  eexists. exists (stripSession (recoveredSession deps t1 freshId' source)).
  exists source. split; [|split; [exact R|]].
  - unfold recoverWithToken. rewrite Hn.
    cbn [recoveries].
    rewrite (@find_app_none _ _ _ _ Hfresh). cbn [find].
    unfold matchesToken at 1, safeEquals. cbn [tokenHash].
    rewrite String.eqb_refl. cbn [consumedAt recoveryExpiresAt].
    unfold isExpired.
    destruct (Z.leb_spec (t0 + recoveryTtlSeconds deps * 1000) t1); [lia|].
    cbn [sessionId]. unfold requireSession. cbn [sessions]. rewrite Rf.
    unfold ok at 1. cbv iota. rewrite Hv. cbn [negb].
    reflexivity.
  - cbn [stripSession recoveredSession publicId publicStatus
         publicBeneficiaryEmail id status beneficiaryEmail].
    repeat split.
    destruct (beneficiaryEmail source) as [e|]; [|discriminate].
    apply String.eqb_eq in He. cbn [option_map]. rewrite He. reflexivity.
Qed.

Lemma xauth_map_updateFirst (p : IdentityLinkRecord -> bool)
    (linked : IdentityLinkRecord) (l : list IdentityLinkRecord) :
  (forall x, p x = true -> linkUserId x = linkUserId linked) ->
  map linkUserId (updateFirst p (fun _ => linked) l) = map linkUserId l.
Proof.
  intros H. induction l as [|x l IH]; cbn [updateFirst map]; [reflexivity|].
  destruct (p x) eqn:E; cbn [map]; [rewrite (H x E)|rewrite IH]; reflexivity.
Qed.

Lemma xauth_find_updateFirst (p : IdentityLinkRecord -> bool)
    (linked : IdentityLinkRecord) (l : list IdentityLinkRecord) :
  existsb p l = true -> p linked = true ->
  find p (updateFirst p (fun _ => linked) l) = Some linked.
Proof.
  intros H Hl. induction l as [|x l IH]; cbn [existsb updateFirst] in *;
    [discriminate|].
  destruct (p x) eqn:E; cbn [find].
  - rewrite Hl. reflexivity.
  - rewrite E. apply IH. exact H.
Qed.

(** X26. Linking keeps one link per user: with user ids distinct among the
    links before, they are distinct after, the link found for the user is
    the one just made, and it points to a session that is verified. *)
Theorem linkSessionToUser_one_link_per_user (state state' : AuthState)
    (now : Z) (sid userIdInput : string) (linked : IdentityLinkRecord) :
  NoDup (map linkUserId (links state)) ->
  linkSessionToUser state now sid userIdInput = (state', ok linked) ->
  NoDup (map linkUserId (links state'))
  /\ find (fun item => String.eqb (linkUserId item) (linkUserId linked))
          (links state') = Some linked
  /\ normalize (Some userIdInput) = Some (linkUserId linked)
  /\ exists session,
       requireSession state sid = ok session
       /\ status session = verified
       /\ linkSessionId linked = id session.
Proof.
  intros Hnd H. unfold linkSessionToUser in H.
  destruct (normalize (Some userIdInput)) as [uid|] eqn:En; [|discriminate].
  destruct (requireSession state sid) as [|found] eqn:R; [discriminate|].
  destruct (statusEqb (status (mutateSessionStatusForTime now found)) verified)
    eqn:V; cbn [negb] in H; [|discriminate].
  injection H as <- <-. cbn [links linkUserId linkSessionId].
  assert (Hv : status found = verified).
  { unfold mutateSessionStatusForTime in V.
    destruct (status found) eqn:F; cbn [statusEqb andb] in V;
      try reflexivity.
    - destruct (isExpired now (expiresAt found)); cbn [setStatus status] in V;
        [discriminate|rewrite F in V; discriminate].
    - rewrite F in V. discriminate.
    - rewrite F in V. discriminate. }
  split; [|split; [|split; [reflexivity|]]].
  - destruct (existsb _ (links state)) eqn:Ex.
    + rewrite xauth_map_updateFirst; [exact Hnd|].
      intros x Hx. apply String.eqb_eq in Hx. exact Hx.
    + rewrite map_app. cbn [map linkUserId].
      apply NoDup_app; [exact Hnd|repeat constructor; auto|].
      intros u Hu [<-|[]]. apply in_map_iff in Hu.
      destruct Hu as (x & Hx & Hin).
      assert (existsb (fun item => String.eqb (linkUserId item) uid)
                (links state) = true).
      { apply existsb_exists. exists x. split; [exact Hin|].
        apply String.eqb_eq. exact Hx. }
      congruence.
  - destruct (existsb _ (links state)) eqn:Ex.
    + apply xauth_find_updateFirst; [exact Ex|].
      cbn [linkUserId]. apply String.eqb_refl.
    + rewrite find_app_none.
      * cbn [find linkUserId]. rewrite String.eqb_refl. reflexivity.
      * destruct (find _ (links state)) as [x|] eqn:F; [|reflexivity].
        apply find_some in F.
        assert (existsb (fun item => String.eqb (linkUserId item) uid)
                  (links state) = true).
        { apply existsb_exists. exists x. exact F. }
        congruence.
  - exists found. split; [reflexivity|]. split; [exact Hv|].
    apply xauth_mutate_id.
Qed.

(** X30. An oauth verification that succeeds found a pending oauth session
    that had not expired, started for the provider now named, and was given
    a state token whose signature part is the HMAC of its payload; the
    session it returns is that session, verified, with the subject given. *)
Theorem verifyOAuthAuth_success_means (state state' : AuthState) (now : Z)
    (sid token providerInput subjectInput : string)
    (emailInput : option string) (session : AuthSessionPublic)
    (identity : Identity) :
  verifyOAuthAuth hmac toLowerCase emailPattern captureIdentity identityIsNone
    decodeStatePayload deps state now sid token providerInput subjectInput
    emailInput = (state', ok (session, identity)) ->
  exists found,
    requireSession state sid = ok found
    /\ method found = oauth /\ status found = pending
    /\ now < expiresAt found
    /\ authProvider found
       = option_map toLowerCase (normalize (Some providerInput))
    /\ safeEquals (nth 1 (Js.split "." token) EmptyString)
         (sign hmac deps (nth 0 (Js.split "." token) EmptyString)) = true
    /\ publicId session = id found
    /\ publicStatus session = verified
    /\ publicAuthSubject session = normalize (Some subjectInput).
Proof.
  unfold verifyOAuthAuth. intros H.
  destruct (negb (Js.truthy (option_map toLowerCase
                               (normalize (Some providerInput))))) eqn:P;
    [discriminate|].
  destruct (negb (Js.truthy (normalize (Some subjectInput)))) eqn:S;
    [discriminate|].
  destruct (match normalizeEmail toLowerCase emailInput with
            | Some m => negb (emailPattern m)
            | None => false
            end); [discriminate|].
  destruct (requireSession state sid) as [|found] eqn:R; [discriminate|].
  destruct (ensureVerifiableSession now found oauth) as [|pendingOne] eqn:E;
    [discriminate|].
  destruct (authProvider pendingOne) as [a|] eqn:A; cbn [negb] in H;
    [|discriminate].
  destruct (option_map toLowerCase (normalize (Some providerInput)))
    as [b|] eqn:B; [|discriminate].
  destruct (String.eqb_spec a b) as [Eab|]; cbn [negb] in H; [|discriminate].
  destruct (negb (Js.truthy (oauthStateToken pendingOne))); [discriminate|].
  destruct (validateOauthStateToken hmac decodeStatePayload deps now
              pendingOne token) as [|okay] eqn:V; [discriminate|].
  injection H as _ H.
  destruct (buildIdentityFromSession captureIdentity identityIsNone _)
    as [|built]; cbn [bindR] in H; [discriminate|].
  unfold ok in H. injection H as <- _.
  destruct (@xauth_ensure _ _ _ _ E) as (Hid & Hp & _ & Hm).
  assert (M : mutateSessionStatusForTime now found = found /\ now < expiresAt found).
  { unfold mutateSessionStatusForTime, isExpired in *. rewrite Hp in *.
    cbn [statusEqb andb] in *.
    destruct (Z.leb_spec (expiresAt found) now) as [L|L].
    - unfold ensureVerifiableSession, mutateSessionStatusForTime, isExpired in E.
      rewrite Hp in E. cbn [statusEqb andb] in E.
      destruct (Z.leb_spec (expiresAt found) now); [|lia].
      destruct (negb _) in E; [discriminate|].
      cbn [setStatus status] in E. discriminate E.
    - split; [reflexivity|lia]. }
  destruct M as [M Hexp]. rewrite M in Hm. subst pendingOne.
  assert (Hmeth : method found = oauth).
  { unfold ensureVerifiableSession in E. rewrite M in E.
    destruct (method found); [discriminate E|reflexivity]. }
  assert (Hsig : safeEquals (nth 1 (Js.split "." token) EmptyString)
                   (sign hmac deps (nth 0 (Js.split "." token) EmptyString))
                 = true).
  { unfold validateOauthStateToken in V.
    destruct (_ || _) in V; [discriminate|].
    destruct (safeEquals _ _); [reflexivity|discriminate]. }
  exists found. split; [reflexivity|].
  split; [exact Hmeth|]. split; [exact Hp|]. split; [exact Hexp|].
  split; [rewrite A, Eab; reflexivity|]. split; [exact Hsig|].
  cbn [stripSession markVerified publicId publicStatus publicAuthSubject
       id status authSubject].
  split; [reflexivity|]. split; [reflexivity|].
  unfold normalize in S |- *.
  destruct (Js.isEmpty subjectInput); [discriminate S|].
  destruct (Js.isEmpty (Js.trim subjectInput)); [discriminate S|].
  reflexivity.
Qed.

End SessionFacts.

Import Auth.

Lemma verified_session_stays_verified_witness :
  verifiedIn "auth_1"
    (sessions
       (serveAll plainHash (fun _ s => s) (fun s => s) (fun _ => true)
          (fun _ : IdentityInput => ok tt) (fun _ => false)
          (fun s _ => s) (fun _ => ok (None, None)) exampleDeps exampleState
          [(5000, GetSession "auth_1");
           (900000, VerifyEmailAuth "auth_1" "123456");
           (900001, ResolveVerifiedIdentity "auth_1")])).
Proof.
  apply verified_session_stays_verified.
  exists exampleSession. split; reflexivity.
Defined.

Lemma verifyEmailAuth_refuses_closed_session_witness :
  exists err,
    verifyEmailAuth plainHash (fun _ : IdentityInput => ok tt) (fun _ => false)
      exampleDeps exampleState 5000 "auth_1" "123456"
    = (exampleState, inl err).
Proof.
  apply (@verifyEmailAuth_refuses_closed_session plainHash unit
           (fun _ => ok tt) (fun _ => false) exampleDeps exampleState 5000
           "auth_1" "123456" exampleSession).
  - reflexivity.
  - discriminate.
Defined.

Lemma verifyEmailAuth_counts_wrong_codes_witness :
  let after :=
    verifyEmailAuth plainHash (fun _ : IdentityInput => ok tt) (fun _ => false)
      exampleDeps pendingState 1000 "auth_1" " 000000 " in
  snd after = throw (Error "Invalid verification_code")
  /\ exists session',
       requireSession (fst after) "auth_1" = ok session'
       /\ verificationAttempts session' = 0 + 1
       /\ status session' = (if 2 <=? 0 + 1 then locked else pending).
Proof.
  apply (@verifyEmailAuth_counts_wrong_codes plainHash unit (fun _ => ok tt)
           (fun _ => false) exampleDeps pendingState 1000 "auth_1" " 000000 "
           "000000" "alice@example.com"
           "unit-test-auth-secret:123456:alice@example.com" pendingSession);
    try reflexivity.
  intros Q. vm_compute in Q. discriminate Q.
Defined.

Lemma startRecovery_then_recover_witness :
  exists state2 session source,
    recoverWithToken plainHash exampleDeps exampleState 5000 "2"
      (recoveryToken exampleIssued)
    = (state2, ok session)
    /\ requireSession verifiedState (resultSessionId exampleIssued) = ok source
    /\ publicId session = String.append "auth_" "2"
    /\ publicStatus session = verified
    /\ publicBeneficiaryEmail session = beneficiaryEmail source
    /\ option_map (fun s : string => s) (beneficiaryEmail source)
       = normalizeEmail (fun s => s) (Some "alice@example.com").
Proof.
  apply (@startRecovery_then_recover plainHash (fun s => s) (fun _ => true)
           exampleDeps verifiedState exampleState 2000 5000 "r1" "abc123"
           "alice@example.com" "2" exampleIssued).
  - repeat constructor. intros [].
  - reflexivity.
  - reflexivity.
  - reflexivity.
  - cbn. lia.
Defined.

Lemma linkSessionToUser_one_link_per_user_witness :
  let state' :=
    {| sessions := sessions exampleState; links := [exampleLink];
       recoveries := recoveries exampleState |} in
  NoDup (map linkUserId (links state'))
  /\ find (fun item => String.eqb (linkUserId item) (linkUserId exampleLink))
          (links state') = Some exampleLink
  /\ normalize (Some " user-1 ") = Some (linkUserId exampleLink)
  /\ exists session,
       requireSession exampleState "auth_1" = ok session
       /\ status session = verified
       /\ linkSessionId exampleLink = id session.
Proof.
  intros state'.
  apply (@linkSessionToUser_one_link_per_user exampleState state' 3000
           "auth_1" " user-1 " exampleLink).
  - constructor.
  - reflexivity.
Defined.

Lemma verifyOAuthAuth_success_means_witness :
  exists found,
    requireSession oauthState "auth_1" = ok found
    /\ method found = oauth /\ status found = pending
    /\ 1000 < expiresAt found
    /\ authProvider found
       = option_map (fun s : string => s) (normalize (Some " google"))
    /\ safeEquals (nth 1 (Js.split "." "auth_1.sig") EmptyString)
         (sign hmacStub exampleDeps
            (nth 0 (Js.split "." "auth_1.sig") EmptyString)) = true
    /\ publicId oauthVerifiedSession = id found
    /\ publicStatus oauthVerifiedSession = verified
    /\ publicAuthSubject oauthVerifiedSession = normalize (Some "sub-123").
Proof.
  apply (@verifyOAuthAuth_success_means hmacStub (fun s => s) (fun _ => true)
           unit (fun _ => ok tt) (fun _ => false) decodeStub exampleDeps
           oauthState (fst oauthVerified) 1000 "auth_1" "auth_1.sig" " google"
           "sub-123" None oauthVerifiedSession tt).
  vm_compute. reflexivity.
Defined.

(** ** The debit route, card charges and subscription tiers *)

Section DebitRoute.

Import Webhook PaymentApi.

Variable centsToFixed2 : Z -> string.
Variable baseUrl : string.

(** X27. [POST /debit] changes the store only when it answers 200: the
    request then carried the API key of a user and a positive amount that
    the balance covered, and the balance went down by that amount.  Every
    other answer (400, 401, 402) leaves the store as it was. *)
Theorem postDebit_debits_only_when_authorized (db : Db) (req : ApiRequest) :
  let after := postDebit centsToFixed2 baseUrl db req in
  (apiStatus (snd after) = 200
   /\ exists user amountCents before,
        authenticateRequest db (authorization req) = inr user
        /\ bodyAmountCents (debit req) = Some amountCents
        /\ 0 < amountCents
        /\ balanceOf db (id user) = Some before
        /\ amountCents <= before
        /\ balanceOf (fst after) (id user) = Some (before - amountCents)
        /\ apiJson (snd after)
           = DebitedJson (before - amountCents)
               (centsToFixed2 (before - amountCents)))
  \/ ((apiStatus (snd after) = 400 \/ apiStatus (snd after) = 401
       \/ apiStatus (snd after) = 402)
      /\ fst after = db).
Proof.
  unfold postDebit.
  destruct (authenticateRequest db (authorization req)) as [response|user]
    eqn:A.
  - right. cbn [fst snd]. split; [|reflexivity].
    unfold authenticateRequest in A.
    destruct (authorization req) as [a|];
      [destruct (_ || _); [|destruct (getUserByApiKey db _)]|];
      try discriminate; injection A as <-; right; left; reflexivity.
  - destruct (bodyAmountCents (debit req)) as [amountCents|] eqn:B.
    + destruct (Z.eqb_spec amountCents 0) as [Z0|Z0]; cbn [orb].
      { right. cbn [fst snd]. split; [left; reflexivity|reflexivity]. }
      destruct (Z.leb_spec amountCents 0) as [Le|Gt].
      { right. cbn [fst snd]. split; [left; reflexivity|reflexivity]. }
      pose proof (xweb_debit_effect db (id user) amountCents
                    (match bodyDescription (debit req) with
                     | Some d => d
                     | None => "Credit retirement"
                     end)
                    (bodyRetirementTxHash (debit req))
                    (bodyCreditClass (debit req))
                    (bodyCreditsRetired (debit req))) as D.
      cbn zeta in D.
      destruct (debitBalance db (id user) amountCents _ _ _ _)
        as [db' result].
      cbn [fst snd] in D.
      destruct (debitSuccess result); cbn [negb fst snd apiStatus apiJson].
      * left. split; [reflexivity|].
        destruct D as (before & Hb & Hle & Hafter & Hout & _).
        exists user, amountCents, before. rewrite Hout.
        repeat split; try assumption; reflexivity.
      * right. split; [right; right; reflexivity|exact D].
    + right. cbn [fst snd]. split; [left; reflexivity|reflexivity].
Qed.

End DebitRoute.

Section ChargeFacts.

Import StripeCharge.

Variable toLowerCase : string -> string.

(** X28. A charge covers the amount and overshoots by less than one cent:
    for an amount in micro-USDC that [toStripeCharge] accepts, the cents it
    asks for, turned back into micro-units by [fromStripeCharge], are at
    least the amount and less than the amount plus 10000, in uusdc. *)
Theorem toStripeCharge_covers_amount (amountMicro : Z) (denom : string)
    (charge : StripeChargeSpec) :
  toLowerCase "usd" = "usd" ->
  toStripeCharge toLowerCase amountMicro denom = ok charge ->
  let back := fromStripeCharge toLowerCase (amountMinor charge)
                (currency charge) in
  snd back = "uusdc"
  /\ amountMicro <= fst back < amountMicro + 10000
  /\ 0 < amountMinor charge <= Attribution.MAX_SAFE_INTEGER.
Proof.
  intros Hlow H. unfold toStripeCharge in H.
  destruct (Z.leb_spec amountMicro 0) as [|Hpos]; [discriminate|].
  destruct (String.eqb (toLowerCase denom) "uusdc"); [|discriminate].
  unfold ceilDiv, Js.bigDiv in H. cbn [Z.eqb bindR] in H.
  unfold ok at 1 in H. cbn [bindR] in H.
  unfold assertSafeNumber in H.
  destruct (Z.ltb_spec Attribution.MAX_SAFE_INTEGER
              (Z.quot (amountMicro + 10000 - 1) 10000)) as [|Hsafe];
    [discriminate|].
  unfold ok in H. cbn [bindR] in H. injection H as <-.
  cbn [amountMinor currency]. unfold fromStripeCharge. rewrite Hlow.
  cbn [String.eqb Ascii.eqb Bool.eqb fst snd].
  pose proof (Z.quot_rem' (amountMicro + 10000 - 1) 10000) as Hqr.
  pose proof (Z.rem_bound_pos (amountMicro + 10000 - 1) 10000) as Hb.
  repeat split; try lia.
Qed.

End ChargeFacts.

Section TierFacts.

Import Tiers.

Variable env : string -> option string.

Lemma xpay_tier_cases (tierId : SubscriptionTierId) :
  exists tier, getSubscriptionTier tierId = Some tier /\ id tier = tierId
               /\ In tier SUBSCRIPTION_TIERS.
Proof.
  destruct tierId; eexists; (split; [reflexivity|]);
    (split; [reflexivity|]); cbn; auto.
Qed.

Lemma xpay_tier_of_id (tier : SubscriptionTier) :
  In tier SUBSCRIPTION_TIERS -> getSubscriptionTier (id tier) = Some tier.
Proof.
  intros [<-|[<-|[<-|[]]]]; reflexivity.
Qed.

(** X29. Prices and tiers correspond: a price is mapped to a tier only if
    that tier is configured with it, and the price configured for a tier is
    mapped back to that tier when no other tier is configured with the same
    price. *)
Theorem tier_price_round_trip :
  (forall (priceId : string) (tierId : SubscriptionTierId),
      getTierIdForStripePrice env (Some priceId) = Some tierId ->
      getStripePriceIdForTier env tierId = Some priceId)
  /\
  (forall (tierId : SubscriptionTierId) (priceId : string),
      getStripePriceIdForTier env tierId = Some priceId ->
      (forall other, other <> tierId ->
         getStripePriceIdForTier env other <> Some priceId) ->
      getTierIdForStripePrice env (Some priceId) = Some tierId).
Proof.
  split.
  - intros priceId tierId H. unfold getTierIdForStripePrice in H.
    destruct (Js.isEmpty priceId); [discriminate|].
    destruct (find _ SUBSCRIPTION_TIERS) as [tier|] eqn:F; [|discriminate].
    cbn [option_map] in H. injection H as <-.
    apply find_some in F. destruct F as [Hin Hc].
    unfold getStripePriceIdForTier. rewrite (@xpay_tier_of_id tier Hin).
    destruct (configuredPrice env tier) as [c|]; [|discriminate].
    apply String.eqb_eq in Hc. rewrite Hc. reflexivity.
  - intros tierId priceId H Hother.
    assert (Hne : Js.isEmpty priceId = false).
    { unfold getStripePriceIdForTier in H.
      destruct (getSubscriptionTier tierId) as [tier|]; [|discriminate].
      unfold configuredPrice in H.
      destruct (option_map Js.trim (env (stripePriceIdEnv tier))) as [v|];
        [|discriminate].
      destruct (Js.isEmpty v) eqn:E; [discriminate|].
      injection H as <-. exact E. }
    unfold getTierIdForStripePrice. rewrite Hne.
    destruct (find _ SUBSCRIPTION_TIERS) as [tier|] eqn:F.
    + cbn [option_map]. f_equal.
      apply find_some in F. destruct F as [Hin Hc].
      destruct (configuredPrice env tier) as [c|] eqn:C; [|discriminate].
      apply String.eqb_eq in Hc. subst c.
      assert (D : id tier = tierId \/ id tier <> tierId).
      { destruct (id tier), tierId;
          first [left; reflexivity|right; discriminate]. }
      destruct D as [D|D]; [exact D|exfalso].
      apply (Hother (id tier) D).
      unfold getStripePriceIdForTier.
      rewrite (@xpay_tier_of_id tier Hin). exact C.
    + exfalso.
      destruct (xpay_tier_cases tierId) as (tier & G & _ & Hin).
      unfold getStripePriceIdForTier in H. rewrite G in H.
      pose proof (find_none _ _ F tier Hin) as N. cbn beta in N.
      rewrite H, String.eqb_refl in N. discriminate N.
Qed.

End TierFacts.

Import Webhook PaymentApi.

Lemma toStripeCharge_covers_amount_witness :
  let back :=
    StripeCharge.fromStripeCharge OrderSelector.toLowerCaseAscii 151 "usd" in
  snd back = "uusdc"
  /\ 1500001 <= fst back < 1500001 + 10000
  /\ 0 < 151 <= Attribution.MAX_SAFE_INTEGER.
Proof.
  apply (@toStripeCharge_covers_amount OrderSelector.toLowerCaseAscii 1500001
           "uUSDC"
           {| StripeCharge.amountMinor := 151;
              StripeCharge.currency := "usd" |}).
  - reflexivity.
  - reflexivity.
Defined.

Lemma tier_price_round_trip_witness :
  Tiers.getStripePriceIdForTier Tiers.exampleEnv Tiers.starter
  = Some "price_starter"
  /\ Tiers.getTierIdForStripePrice Tiers.exampleEnv (Some "price_growth")
     = Some Tiers.growth.
Proof.
  split.
  - apply (proj1 (tier_price_round_trip Tiers.exampleEnv) "price_starter"
             Tiers.starter).
    reflexivity.
  - apply (proj2 (tier_price_round_trip Tiers.exampleEnv) Tiers.growth
             "price_growth").
    + reflexivity.
    + intros other Hne. destruct other; try contradiction; discriminate.
Defined.
